(** * CorpParse: the post-processing pipeline of [backend/utils.py] and
      [backend/agent_workflow.py]

    A shallow embedding of the paragraph segmenter, the date normaliser, the
    record merger and the founders coercion, and the properties the
    specification states about them.

    Conventions of the embedding.
    - A Python [str] is a list of characters; the alphabet is the 256 code
      points U+0000..U+00FF, on which the classes [\s], [\d] and [[A-Za-z]] and
      [str.strip], [str.lower] are reproduced exactly.
    - A call that can raise has an [outcome]; Python's [None] is [option]'s
      [None].
    - [str.casefold] and [json.loads] belong to the Python library.  General
      statements quantify over them; examples are evaluated with the instances
      [casefold] and [json_loads] defined below. *)

From Stdlib Require Import Ascii String DecimalString OrdersEx.
From Stdlib Require Import List ZArith NArith Bool Lia Arith Sorting.Sorted.
From Stdlib Require Import Permutation RelationClasses.
Import ListNotations.
Local Open Scope string_scope.
Local Open Scope list_scope.

Set Implicit Arguments.
Set Warnings "-register-all".

(** ** Text *)

Definition str := list ascii.

Coercion list_ascii_of_string : string >-> list.

Definition code (c : ascii) : N := N_of_ascii c.

(** [str.isspace] on one character, which is also the class [\s] of [re] for
    [str] patterns: TAB..CR, FS..US, SPACE, NEL and NBSP. *)
Definition is_space (c : ascii) : bool :=
  let n := code c in
  ((9 <=? n) && (n <=? 13) || (28 <=? n) && (n <=? 32)
   || (n =? 133) || (n =? 160))%N.

(** The class [\d]: below U+0100 the decimal digits are [0-9]. *)
Definition is_digit (c : ascii) : bool :=
  let n := code c in ((48 <=? n) && (n <=? 57))%N.

(** The class [[A-Za-z]]. *)
Definition is_letter (c : ascii) : bool :=
  let n := code c in
  ((65 <=? n) && (n <=? 90) || (97 <=? n) && (n <=? 122))%N.

Definition is_char (a : ascii) (c : ascii) : bool := Ascii.eqb a c.

Definition newline : ascii := "010"%char.

Definition lower_char (c : ascii) : ascii :=
  let n := code c in
  if ((65 <=? n) && (n <=? 90))%N then ascii_of_N (n + 32) else c.

(** [str.lower] on texts whose cased characters are ASCII letters. *)
Definition lower (s : str) : str := map lower_char s.

Fixpoint lstrip (s : str) : str :=
  match s with
  | c :: s' => if is_space c then lstrip s' else s
  | [] => []
  end.

Definition rstrip (s : str) : str := rev (lstrip (rev s)).

(** [str.strip()] *)
Definition strip (s : str) : str := rstrip (lstrip s).

Definition is_empty (s : str) : bool :=
  match s with [] => true | _ => false end.

(** Truthiness of a [str]. *)
Definition nonempty (s : str) : bool := negb (is_empty s).

Fixpoint str_eqb (a b : str) : bool :=
  match a, b with
  | [], [] => true
  | x :: a', y :: b' => Ascii.eqb x y && str_eqb a' b'
  | _, _ => false
  end.

(** Comparison of two [str] is lexicographic on code points. *)
Definition str_ltb (a b : str) : bool :=
  String.ltb (string_of_list_ascii a) (string_of_list_ascii b).

Definition str_leb (a b : str) : bool :=
  String.leb (string_of_list_ascii a) (string_of_list_ascii b).

(** ** Outcomes of calls that can raise *)

Inductive outcome (A : Type) : Type :=
| Returns (a : A)
| Raises.

Arguments Raises {A}.

(** ** The fragment of [re] the source uses

    Character classes, concatenation, alternation, greedy repetition of a
    class ([\s*], [\d{1,2}], [[A-Za-z]+], [,?]), capturing groups and [$].
    Matching is by backtracking with the priorities of [re]: a repetition
    takes as many characters as it can and gives them back one by one, an
    alternation tries its branches from the left. *)

Inductive regex : Type :=
| Eps
| Chr (p : ascii -> bool)
| Cat (r1 r2 : regex)
| Alt (r1 r2 : regex)
| Rep (p : ascii -> bool) (lo : nat) (hi : option nat)
| Grp (r : regex)
| Eol.

Declare Scope regex_scope.
Delimit Scope regex_scope with re.
Bind Scope regex_scope with regex.
Infix ";;" := Cat (at level 61, right associativity) : regex_scope.

Definition may_take (hi : option nat) : bool :=
  match hi with Some 0 => false | _ => true end.

Definition one_less (hi : option nat) : option nat := option_map pred hi.

Section Matcher.
Variable A : Type.

(** [p{lo,hi}] followed by the continuation [k]. *)
Fixpoint greedy (p : ascii -> bool) (lo : nat) (hi : option nat) (s : str)
         (k : str -> option A) : option A :=
  let stop := match lo with 0 => k s | S _ => None end in
  match s with
  | c :: s' =>
      if p c && may_take hi then
        match greedy p (pred lo) (one_less hi) s' k with
        | Some a => Some a
        | None => stop
        end
      else stop
  | [] => stop
  end.

(** [$] without [re.MULTILINE]: at the end of the text, or just before a
    newline that ends the text. *)
Definition at_end (s : str) : bool :=
  match s with
  | [] => true
  | [c] => is_char newline c
  | _ => false
  end.

(** [run r s caps k]: match [r] at the front of [s]; [caps] are the groups
    closed so far, in the order of their closing; [k] receives the rest of
    the text.  [None] is a failure, which makes the caller backtrack. *)
Fixpoint run (r : regex) (s : str) (caps : list str)
         (k : str -> list str -> option A) : option A :=
  match r with
  | Eps => k s caps
  | Chr p =>
      match s with
      | c :: s' => if p c then k s' caps else None
      | [] => None
      end
  | Cat r1 r2 => run r1 s caps (fun s1 caps1 => run r2 s1 caps1 k)
  | Alt r1 r2 =>
      match run r1 s caps k with
      | Some a => Some a
      | None => run r2 s caps k
      end
  | Rep p lo hi => greedy p lo hi s (fun s' => k s' caps)
  | Grp r1 =>
      run r1 s caps
          (fun s' caps' =>
             k s' (caps' ++ [firstn (length s - length s') s]))
  | Eol => if at_end s then k s caps else None
  end.
End Matcher.

(** [re.match(r, s)]: the match is anchored at the start of [s], so that a
    leading [^] adds nothing.  The result is the list of groups 1, 2, ... *)
Definition re_match (r : regex) (s : str) : option (list str) :=
  run r s [] (fun _ caps => Some caps).

(** [m.group(i)] for [i >= 1]. *)
Definition group (m : list str) (i : nat) : str := nth (pred i) m [].

(** The text matched by [r] at the front of [s], that is [m.group(0)]. *)
Definition match_front (r : regex) (s : str) : option str :=
  run r s [] (fun s' _ => Some (firstn (length s - length s') s)).

(** [re.search(r, s).group(0)]: the leftmost position where [r] matches. *)
Fixpoint re_search (r : regex) (s : str) : option str :=
  match match_front r s with
  | Some g => Some g
  | None =>
      match s with
      | _ :: s' => re_search r s'
      | [] => None
      end
  end.

(** Pieces of [s] between the successive leftmost matches of [r], for an [r]
    that never matches the empty text.  [cur] is the piece under
    construction, reversed; [skip] counts the characters that remain of the
    match in progress. *)
Fixpoint split_from (r : regex) (s : str) (cur : str) (skip : nat)
  : list str :=
  match s with
  | [] => [rev cur]
  | c :: s' =>
      match skip with
      | S n => split_from r s' cur n
      | 0 =>
          match match_front r s with
          | Some (_ :: g) => rev cur :: split_from r s' [] (length g)
          | _ => split_from r s' (c :: cur) 0
          end
      end
  end.

(** [re.split(r, s)] *)
Definition re_split (r : regex) (s : str) : list str := split_from r s [] 0.

(** Patterns shared by the recognisers. *)
Definition spaces : regex := Rep is_space 0 None.            (* \s* *)
Definition spaces1 : regex := Rep is_space 1 None.           (* \s+ *)
Definition digits (lo hi : nat) : regex := Rep is_digit lo (Some hi).
Definition letters1 : regex := Rep is_letter 1 None.         (* [A-Za-z]+ *)
Definition dash_or_slash : regex :=
  Chr (fun c => is_char "-"%char c || is_char "/"%char c).             (* [-/] *)
Definition opt_comma : regex := Rep (is_char ","%char) 0 (Some 1). (* ,? *)
Definition newlines1 : regex := Rep (is_char newline) 1 None. (* \n+ *)

(** ** Segmenter: [split_paragraphs] *)

(** [\n\s*\n+] *)
Definition BLANK_LINES : regex :=
  (Chr (is_char newline) ;; spaces ;; newlines1)%re.

Definition split_paragraphs (text : str) : list str :=
  let blocks := re_split BLANK_LINES (strip text) in
  map strip (filter (fun b => nonempty (strip b)) blocks).

(** ** Date normaliser *)

Definition MONTHS : list (str * Z) :=
  [ ("jan" : str, 1); ("january" : str, 1);
    ("feb" : str, 2); ("february" : str, 2);
    ("mar" : str, 3); ("march" : str, 3);
    ("apr" : str, 4); ("april" : str, 4);
    ("may" : str, 5);
    ("jun" : str, 6); ("june" : str, 6);
    ("jul" : str, 7); ("july" : str, 7);
    ("aug" : str, 8); ("august" : str, 8);
    ("sep" : str, 9); ("sept" : str, 9); ("september" : str, 9);
    ("oct" : str, 10); ("october" : str, 10);
    ("nov" : str, 11); ("november" : str, 11);
    ("dec" : str, 12); ("december" : str, 12) ]%Z.

(** [dict.get] *)
Fixpoint dict_get (V : Type) (d : list (str * V)) (key : str) : option V :=
  match d with
  | [] => None
  | (k, v) :: d' => if str_eqb k key then Some v else dict_get d' key
  end.

Definition digit_value (c : ascii) : Z := Z.of_N (code c) - 48.

(** [int(x)] on the texts that reach it here.  A non-empty run of decimal
    digits has its value; every other text is answered with [ValueError]
    (the groups of the patterns never hold a sign, a blank or an
    underscore, which [int] would accept as well). *)
Definition int (x : str) : outcome Z :=
  if nonempty x && forallb is_digit x
  then Returns (fold_left (fun acc c => 10 * acc + digit_value c) x 0)%Z
  else Raises.

Definition _safe_int (x : str) : option Z :=
  match int x with
  | Returns v => Some v
  | Raises => None
  end.

(** Decimal digits of a natural number, as [str(n)] writes them. *)
Definition decimal (n : N) : str :=
  list_ascii_of_string (NilEmpty.string_of_uint (N.to_uint n)).

Definition zfill (width : nat) (s : str) : str :=
  repeat "0"%char (width - length s) ++ s.

(** The format [{z:0wd}]: sign first, then zeros up to the width. *)
Definition format_0d (width : nat) (z : Z) : str :=
  if (z <? 0)%Z
  then "-"%char :: zfill (pred width) (decimal (Z.to_N (- z)))
  else zfill width (decimal (Z.to_N z)).

(** [x or 1] for an [int] or [None]. *)
Definition or_1 (x : option Z) : Z :=
  match x with
  | None => 1
  | Some 0 => 1
  | Some v => v
  end%Z.

Definition _fmt_date (y : Z) (m d : option Z) : str :=
  let m := Z.max 1 (Z.min 12 (or_1 m)) in
  let d := Z.max 1 (Z.min 28 (or_1 d)) in
  format_0d 4 y ++ "-" ++ format_0d 2 m ++ "-" ++ format_0d 2 d.

Definition _month_to_num (token : str) : option Z :=
  dict_get MONTHS (lower (strip token)).

(** Truthiness of an [int] or [None]: the value when it is true. *)
Definition truthy (x : option Z) : option Z :=
  match x with
  | Some 0%Z => None
  | _ => x
  end.

(** [^\s*(\d{4})[-/](\d{1,2})[-/](\d{1,2})\s*$] *)
Definition ISO : regex :=
  (spaces ;; Grp (digits 4 4) ;; dash_or_slash ;; Grp (digits 1 2) ;;
   dash_or_slash ;; Grp (digits 1 2) ;; spaces ;; Eol)%re.

Definition _try_iso (raw : str) : option str :=
  match re_match ISO raw with
  | Some m =>
      let y := _safe_int (group m 1) in
      let mo := _safe_int (group m 2) in
      let d := _safe_int (group m 3) in
      match truthy y with
      | Some y => Some (_fmt_date y mo d)
      | None => None
      end
  | None => None
  end.

(** [^\s*(\d{4})[-/](\d{1,2})\s*$] *)
Definition YEAR_MONTH : regex :=
  (spaces ;; Grp (digits 4 4) ;; dash_or_slash ;; Grp (digits 1 2) ;;
   spaces ;; Eol)%re.

(** [^\s*([A-Za-z]+)\s+(\d{4})\s*$] *)
Definition MONTH_YEAR : regex :=
  (spaces ;; Grp letters1 ;; spaces1 ;; Grp (digits 4 4) ;; spaces ;; Eol)%re.

(** [^\s*(\d{4})\s+([A-Za-z]+)\s*$] *)
Definition YEAR_MONTHNAME : regex :=
  (spaces ;; Grp (digits 4 4) ;; spaces1 ;; Grp letters1 ;; spaces ;; Eol)%re.

(** [a or b] on optional results. *)
Definition or_else (A : Type) (a b : option A) : option A :=
  match a with
  | Some _ => a
  | None => b
  end.

Definition _try_year_month (raw : str) : option str :=
  or_else
    match re_match YEAR_MONTH raw with
    | Some m =>
        let y := _safe_int (group m 1) in
        let mo := _safe_int (group m 2) in
        match truthy y with
        | Some y => Some (_fmt_date y mo (Some 1%Z))
        | None => None
        end
    | None => None
    end
    (or_else
       match re_match MONTH_YEAR raw with
       | Some m2 =>
           let mo := _month_to_num (group m2 1) in
           let y := _safe_int (group m2 2) in
           match truthy y, truthy mo with
           | Some y, Some mo => Some (_fmt_date y (Some mo) (Some 1%Z))
           | _, _ => None
           end
       | None => None
       end
       match re_match YEAR_MONTHNAME raw with
       | Some m3 =>
           let y := _safe_int (group m3 1) in
           let mo := _month_to_num (group m3 2) in
           match truthy y, truthy mo with
           | Some y, Some mo => Some (_fmt_date y (Some mo) (Some 1%Z))
           | _, _ => None
           end
       | None => None
       end).

(** [^\s*([A-Za-z]+)\s+(\d{1,2}),?\s+(\d{4})\s*$] *)
Definition MONTH_DAY_YEAR : regex :=
  (spaces ;; Grp letters1 ;; spaces1 ;; Grp (digits 1 2) ;; opt_comma ;;
   spaces1 ;; Grp (digits 4 4) ;; spaces ;; Eol)%re.

(** [^\s*(\d{1,2})\s+([A-Za-z]+),?\s+(\d{4})\s*$] *)
Definition DAY_MONTH_YEAR : regex :=
  (spaces ;; Grp (digits 1 2) ;; spaces1 ;; Grp letters1 ;; opt_comma ;;
   spaces1 ;; Grp (digits 4 4) ;; spaces ;; Eol)%re.

Definition _try_month_day_year (raw : str) : option str :=
  or_else
    match re_match MONTH_DAY_YEAR raw with
    | Some m =>
        let mo := _month_to_num (group m 1) in
        let d := _safe_int (group m 2) in
        let y := _safe_int (group m 3) in
        match truthy y, truthy mo, truthy d with
        | Some y, Some mo, Some d => Some (_fmt_date y (Some mo) (Some d))
        | _, _, _ => None
        end
    | None => None
    end
    match re_match DAY_MONTH_YEAR raw with
    | Some m2 =>
        let d := _safe_int (group m2 1) in
        let mo := _month_to_num (group m2 2) in
        let y := _safe_int (group m2 3) in
        match truthy y, truthy mo, truthy d with
        | Some y, Some mo, Some d => Some (_fmt_date y (Some mo) (Some d))
        | _, _, _ => None
        end
    | None => None
    end.

(** [^\s*(\d{4})\s*$] *)
Definition YEAR_ONLY : regex := (spaces ;; Grp (digits 4 4) ;; spaces ;; Eol)%re.

Definition _try_year_only (raw : str) : option str :=
  match re_match YEAR_ONLY raw with
  | Some m =>
      match truthy (_safe_int (group m 1)) with
      | Some y => Some (_fmt_date y (Some 1%Z) (Some 1%Z))
      | None => None
      end
  | None => None
  end.

(** [(19|20)\d{2}] *)
Definition YEAR_ANYWHERE : regex :=
  (Alt (Chr (is_char "1"%char) ;; Chr (is_char "9"%char))
       (Chr (is_char "2"%char) ;; Chr (is_char "0"%char)) ;; digits 2 2)%re.

(** The recognisers, in the order of the loop. *)
Definition PARSERS : list (str -> option str) :=
  [_try_iso; _try_month_day_year; _try_year_month; _try_year_only].

(** [for parser in ...: val = parser(s); if val: return val] *)
Fixpoint first_parse (parsers : list (str -> option str)) (s : str)
  : option str :=
  match parsers with
  | [] => None
  | parser :: rest =>
      match parser s with
      | Some (c :: v) => Some (c :: v)
      | _ => first_parse rest s
      end
  end.

Definition normalize_date_string (raw : str) : outcome str :=
  if is_empty raw then Returns []
  else
    let s := strip raw in
    match first_parse PARSERS s with
    | Some val => Returns val
    | None =>
        match re_search YEAR_ANYWHERE s with
        | Some yr =>
            match int yr with
            | Returns y => Returns (_fmt_date y (Some 1%Z) (Some 1%Z))
            | Raises => Raises
            end
        | None => Returns []
        end
    end.

(** ** Record merger: [dedupe_records] *)

(** A record as the merger receives it: [r.get(key)] is [None] for an absent
    key or a JSON [null]. *)
Record raw_record : Type := RawRecord {
  raw_company_name : option str;
  raw_founding_date : option str;
  raw_founders : option (list str)
}.

(** A record as the merger builds it. *)
Record record : Type := Record_ {
  company_name : str;
  founding_date : str;
  founders : list str
}.

(** [x or d] for an optional text or list, where the default [d] is the
    empty value. *)
Definition or_default (A : Type) (x : option A) (d : A) : A :=
  match x with
  | Some v => v
  | None => d
  end.

(** [key in d] *)
Definition dict_has (V : Type) (d : list (str * V)) (key : str) : bool :=
  match dict_get d key with
  | Some _ => true
  | None => false
  end.

(** [d[key] = v]: an existing key keeps its place, a new key goes last. *)
Fixpoint dict_set (V : Type) (d : list (str * V)) (key : str) (v : V)
  : list (str * V) :=
  match d with
  | [] => [(key, v)]
  | (k, w) :: d' =>
      if str_eqb k key then (k, v) :: d' else (k, w) :: dict_set d' key v
  end.

(** [list(d.values())] *)
Definition dict_values (V : Type) (d : list (str * V)) : list V := map snd d.

(** [x in seen] for a set of texts. *)
Definition set_has (seen : list str) (x : str) : bool :=
  existsb (str_eqb x) seen.

(** [min(a, b)] on two texts: [b] only when it is strictly smaller. *)
Definition min_str (a b : str) : str := if str_ltb b a then b else a.

(** [l.sort(key=...)]: the sort is stable, and a stable sort has one result;
    it is computed here by insertion from the left, each element going
    behind the elements whose key is not greater. *)
Fixpoint insert_by (A : Type) (key : A -> str) (x : A) (l : list A) : list A :=
  match l with
  | [] => [x]
  | y :: l' =>
      if str_ltb (key x) (key y) then x :: l else y :: insert_by key x l'
  end.

Definition sort_by (A : Type) (key : A -> str) (l : list A) : list A :=
  fold_left (fun acc x => insert_by key x acc) l [].

Section Merger.
(** [str.casefold] *)
Variable casefold : str -> str.

(** One turn of [for f in founders]: the state is the list under
    construction and the set [seen]. *)
Definition add_founder (st : list str * list str) (f : str)
  : list str * list str :=
  let '(merged, seen) := st in
  if negb (set_has seen (casefold f))
  then (merged ++ [f], casefold f :: seen)
  else st.

Definition merge_founders (existing incoming : list str) : list str :=
  let seen := map casefold existing in
  fst (fold_left add_founder incoming (existing, seen)).

Definition merge_date (existing_date date : str) : str :=
  if nonempty existing_date && nonempty date
  then min_str existing_date date
  else if nonempty date && negb (nonempty existing_date)
       then date
       else existing_date.

(** The body of [for r in records]. *)
Definition merge_record (by_name : list (str * record)) (r : raw_record)
  : list (str * record) :=
  let name := strip (or_default (raw_company_name r) []) in
  if negb (nonempty name) then by_name
  else
    let key := casefold name in
    let fs := filter nonempty (or_default (raw_founders r) []) in
    let date := strip (or_default (raw_founding_date r) []) in
    match dict_get by_name key with
    | None =>
        dict_set by_name key
                 {| company_name := name;
                    founding_date := date;
                    founders := fs |}
    | Some e =>
        dict_set by_name key
                 {| company_name := company_name e;
                    founding_date := merge_date (founding_date e) date;
                    founders := merge_founders (founders e) fs |}
    end.

Definition dedupe_records (records : list raw_record) : list record :=
  let by_name := fold_left merge_record records [] in
  sort_by (fun x => casefold (company_name x)) (dict_values by_name).

(** The records of the input that belong to the company with case-folded
    name [key]. *)
Definition in_group (key : str) (r : raw_record) : bool :=
  let name := strip (or_default (raw_company_name r) []) in
  nonempty name && str_eqb (casefold name) key.

(** The non-empty dates the records of a group contribute. *)
Definition group_dates (key : str) (records : list raw_record) : list str :=
  filter nonempty
         (map (fun r => strip (or_default (raw_founding_date r) []))
              (filter (in_group key) records)).

(** The founders the records of a group contribute, in order. *)
Definition group_founders (key : str) (records : list raw_record)
  : list str :=
  flat_map (fun r => filter nonempty (or_default (raw_founders r) []))
           (filter (in_group key) records).
End Merger.

(** A merged record fed to the merger again. *)
Definition as_raw (e : record) : raw_record :=
  {| raw_company_name := Some (company_name e);
     raw_founding_date := Some (founding_date e);
     raw_founders := Some (founders e) |}.

(** [str.casefold] on ASCII text, where it is [str.lower]. *)
Definition casefold (s : str) : str := lower s.

(** ** Raw-output coercion: [_coerce_record] *)

Definition dquote : ascii := "034"%char.
Definition backslash : ascii := "092"%char.

(** The values [json.loads] builds. *)
Inductive pyfloat : Type :=
| Finite (mantissa exponent : Z)
| Infinite (negative : bool)
| NotANumber.

Inductive pyobj : Type :=
| PNone
| PBool (b : bool)
| PInt (z : Z)
| PFloat (f : pyfloat)
| PStr (s : str)
| PList (l : list pyobj)
| PDict (d : list (str * pyobj)).

(** Truthiness, as [if f] tests it. *)
Definition is_true (v : pyobj) : bool :=
  match v with
  | PNone => false
  | PBool b => b
  | PInt z => negb (z =? 0)%Z
  | PFloat (Finite m _) => negb (m =? 0)%Z
  | PFloat _ => true
  | PStr s => nonempty s
  | PList l => match l with [] => false | _ => true end
  | PDict d => match d with [] => false | _ => true end
  end.

Definition startswith (c : ascii) (s : str) : bool :=
  match s with
  | x :: _ => is_char c x
  | [] => false
  end.

Definition endswith (c : ascii) (s : str) : bool := startswith c (rev s).

(** [s.replace(a, b)] for one-character [a] and [b]. *)
Definition replace (a b : ascii) (s : str) : str :=
  map (fun c => if is_char a c then b else c) s.

(** [s.split(sep)] for a one-character separator. *)
Fixpoint split_on (sep : ascii) (s : str) : list str :=
  match s with
  | [] => [[]]
  | c :: s' =>
      if is_char sep c then [] :: split_on sep s'
      else
        match split_on sep s' with
        | piece :: pieces => (c :: piece) :: pieces
        | [] => [[c]]
        end
  end.

(** The value of the key [founders] in the object the oracle returned. *)
Inductive founders_value : Type :=
| NoFounders
| FoundersText (s : str)
| FoundersList (l : list pyobj).

Record extracted : Type := Extracted {
  x_company_name : option str;
  x_founding_date : option str;
  x_founders : founders_value
}.

Record coerced : Type := Coerced {
  c_company_name : str;
  c_founding_date : str;
  c_founders : list pyobj
}.

Section Coercion.
(** [json.loads]; [Raises] when it raises. *)
Variable json_loads : str -> outcome pyobj.

(** The branch [isinstance(founders, str)]. *)
Definition coerce_text (founders : str) : list pyobj :=
  let text := strip founders in
  if startswith "[" text && endswith "]" text then
    match json_loads (replace "'" dquote text) with
    | Returns (PList parsed) => parsed
    | Returns _ => [PStr text]
    | Raises => [PStr text]
    end
  else
    map PStr (filter nonempty (map strip (split_on "," text))).

(** [founders = d.get("founders") or []], the coercion of a text, then
    [[f for f in founders if f]]. *)
Definition coerce_founders (v : founders_value) : list pyobj :=
  let founders :=
    match v with
    | NoFounders => []
    | FoundersList l => l
    | FoundersText [] => []
    | FoundersText s => coerce_text s
    end in
  filter is_true founders.

Definition _coerce_record (d : extracted) : outcome coerced :=
  let company := strip (or_default (x_company_name d) []) in
  let raw_date := strip (or_default (x_founding_date d) []) in
  let founders := coerce_founders (x_founders d) in
  match normalize_date_string raw_date with
  | Returns norm_date =>
      Returns {| c_company_name := company;
                 c_founding_date := norm_date;
                 c_founders := founders |}
  | Raises => Raises
  end.

(** What the specification describes when the bracketed parse fails:
    splitting on commas. *)
Definition comma_split (founders : str) : list pyobj :=
  map PStr (filter nonempty (map strip (split_on "," (strip founders)))).
End Coercion.

(** *** A reader for JSON texts

    [json.loads] on the texts made of arrays, string literals, integers,
    [true], [false] and [null].  A text that is not JSON is answered with
    [Raises], as [json.loads] does.  Objects, numbers with a fraction or an
    exponent, [NaN], [Infinity] and [\u] escapes above U+00FF are outside the
    reader: it answers [Raises] there too, and no statement below evaluates
    it on such a text. *)

Definition json_space (c : ascii) : bool :=
  is_char " " c || is_char "009" c || is_char "010" c || is_char "013" c.

Fixpoint skip_spaces (s : str) : str :=
  match s with
  | c :: s' => if json_space c then skip_spaces s' else s
  | [] => []
  end.

Definition hex_value (c : ascii) : option N :=
  let n := code c in
  if ((48 <=? n) && (n <=? 57))%N then Some (n - 48)%N
  else if ((65 <=? n) && (n <=? 70))%N then Some (n - 55)%N
  else if ((97 <=? n) && (n <=? 102))%N then Some (n - 87)%N
  else None.

Definition unescape (c : ascii) : option ascii :=
  if is_char dquote c then Some dquote
  else if is_char backslash c then Some backslash
  else if is_char "/" c then Some "/"%char
  else if is_char "b" c then Some "008"%char
  else if is_char "f" c then Some "012"%char
  else if is_char "n" c then Some "010"%char
  else if is_char "r" c then Some "013"%char
  else if is_char "t" c then Some "009"%char
  else None.

(** The body of a string literal, after its opening quote. *)
Fixpoint read_string (s : str) (acc : str) : option (str * str) :=
  match s with
  | [] => None
  | c :: s' =>
      if is_char dquote c then Some (rev acc, s')
      else if is_char backslash c then
        match s' with
        | e :: s'' =>
            if is_char "u" e then
              match s'' with
              | h1 :: h2 :: h3 :: h4 :: s3 =>
                  match hex_value h1, hex_value h2, hex_value h3, hex_value h4 with
                  | Some 0%N, Some 0%N, Some a, Some b =>
                      read_string s3 (ascii_of_N (16 * a + b) :: acc)
                  | _, _, _, _ => None
                  end
              | _ => None
              end
            else
              match unescape e with
              | Some x => read_string s'' (x :: acc)
              | None => None
              end
        | [] => None
        end
      else if (code c <? 32)%N then None
      else read_string s' (c :: acc)
  end.

Fixpoint read_digits (s : str) (acc : Z) : Z * str :=
  match s with
  | c :: s' =>
      if is_digit c then read_digits s' (10 * acc + digit_value c)%Z
      else (acc, s)
  | [] => (acc, [])
  end.

(** An integer [0|[1-9][0-9]*] that no fraction or exponent follows. *)
Definition read_natural (s : str) : option (Z * str) :=
  match s with
  | c :: s' =>
      if is_digit c then
        let '(n, rest) :=
          if is_char "0" c then (0%Z, s') else read_digits s 0%Z in
        match rest with
        | x :: _ =>
            if is_char "." x || is_char "e" x || is_char "E" x
            then None else Some (n, rest)
        | [] => Some (n, rest)
        end
      else None
  | [] => None
  end.

Fixpoint read_value (fuel : nat) (s : str) : option (pyobj * str) :=
  match fuel with
  | 0 => None
  | S fuel' =>
      match s with
      | "["%char :: s1 =>
          match skip_spaces s1 with
          | "]"%char :: rest => Some (PList [], rest)
          | s2 =>
              match read_items fuel' s2 with
              | Some (items, rest) => Some (PList items, rest)
              | None => None
              end
          end
      | "t"%char :: "r"%char :: "u"%char :: "e"%char :: rest =>
          Some (PBool true, rest)
      | "f"%char :: "a"%char :: "l"%char :: "s"%char :: "e"%char :: rest =>
          Some (PBool false, rest)
      | "n"%char :: "u"%char :: "l"%char :: "l"%char :: rest =>
          Some (PNone, rest)
      | "-"%char :: s1 =>
          match read_natural s1 with
          | Some (n, rest) => Some (PInt (- n), rest)
          | None => None
          end
      | c :: s1 =>
          if is_char dquote c then
            match read_string s1 [] with
            | Some (v, rest) => Some (PStr v, rest)
            | None => None
            end
          else
            match read_natural s with
            | Some (n, rest) => Some (PInt n, rest)
            | None => None
            end
      | [] => None
      end
  end

(** The items of an array, after [[] and blanks, up to its []]. *)
with read_items (fuel : nat) (s : str) : option (list pyobj * str) :=
  match fuel with
  | 0 => None
  | S fuel' =>
      match read_value fuel' s with
      | Some (v, rest) =>
          match skip_spaces rest with
          | ","%char :: rest1 =>
              match read_items fuel' (skip_spaces rest1) with
              | Some (vs, rest2) => Some (v :: vs, rest2)
              | None => None
              end
          | "]"%char :: rest1 => Some ([v], rest1)
          | _ => None
          end
      | None => None
      end
  end.

Definition json_loads (s : str) : outcome pyobj :=
  match read_value (2 * length s + 2) (skip_spaces s) with
  | Some (v, rest) =>
      match skip_spaces rest with
      | [] => Returns v
      | _ => Raises
      end
  | None => Raises
  end.

(** ** The segmenter as the specification words it

    The text is cut into lines; a blank line holds only whitespace;
    consecutive non-blank lines form one paragraph; each paragraph is
    trimmed and the empty ones are dropped. *)

Definition lines (text : str) : list str := split_on newline text.

Definition blank (line : str) : bool := forallb is_space line.

(** [join sep pieces] is [sep.join(pieces)]. *)
Fixpoint join (sep : ascii) (pieces : list str) : str :=
  match pieces with
  | [] => []
  | [p] => p
  | p :: rest => p ++ sep :: join sep rest
  end.

(** Runs of consecutive non-blank lines; [cur] is the run under way. *)
Fixpoint paragraphs (ls : list str) (cur : list str) : list (list str) :=
  match ls with
  | [] => [cur]
  | l :: ls' =>
      if blank l then cur :: paragraphs ls' [] else paragraphs ls' (cur ++ [l])
  end.

(** The text of a paragraph, trimmed. *)
Definition trimmed (p : list str) : str := strip (join newline p).

Definition segment (text : str) : list str :=
  filter nonempty (map trimmed (paragraphs (lines text) [])).

(** ** Canonical dates *)

(** [\d{4}-\d{2}-\d{2}] with the month in 01..12 and the day in 01..28. *)
Definition is_canonical (s : str) : bool :=
  match s with
  | [y1; y2; y3; y4; a; m1; m2; b; d1; d2] =>
      forallb is_digit [y1; y2; y3; y4; m1; m2; d1; d2]
      && is_char "-" a && is_char "-" b
      && let m := (10 * digit_value m1 + digit_value m2)%Z in
         let d := (10 * digit_value d1 + digit_value d2)%Z in
         ((1 <=? m) && (m <=? 12) && (1 <=? d) && (d <=? 28))%Z
  | _ => false
  end.

(** The year, month and day a canonical date shows. *)
Definition date_fields (s : str) : option (Z * Z * Z) :=
  match s with
  | [y1; y2; y3; y4; _; m1; m2; _; d1; d2] =>
      match int [y1; y2; y3; y4], int [m1; m2], int [d1; d2] with
      | Returns y, Returns m, Returns d => Some (y, m, d)
      | _, _, _ => None
      end
  | _ => None
  end.

(** Month and day as [_fmt_date] is documented to clamp them. *)
Definition clamp (hi : Z) (x : option Z) : Z :=
  match x with
  | None => 1
  | Some v => if (v =? 0)%Z then 1 else if (v <? 1)%Z then 1
              else if (hi <? v)%Z then hi else v
  end.

(** ** Notions used in the statements *)

(** [n] is within the upper bound of a repetition. *)
Definition within (n : nat) (hi : option nat) : Prop :=
  match hi with Some h => n <= h | None => True end.

Definition all_digits (x : str) : Prop := forallb is_digit x = true.

(** The character of a decimal digit. *)
Definition digit_char (z : Z) : ascii := ascii_of_N (Z.to_N (48 + z)).

(** The integers from 0 up to [n], [n] excluded. *)
Definition upto (n : nat) : list Z := map Z.of_nat (seq 0 n).

(** The text of the date with year [y], month [m] and day [d]. *)
Definition canon (y m d : Z) : str :=
  format_0d 4 y ++ "-" ++ format_0d 2 m ++ "-" ++ format_0d 2 d.

Definition in_calendar (y m d : Z) : Prop :=
  (1 <= y <= 9999 /\ 1 <= m <= 12 /\ 1 <= d <= 28)%Z.

Definition well_formed (v : str) : Prop :=
  exists y m d, in_calendar y m d /\ v = canon y m d.

(** [d.keys()] *)
Definition dict_keys (V : Type) (d : list (str * V)) : list str := map fst d.

(** The order of a sort by [key], and its strict part. *)
Definition key_le (A : Type) (key : A -> str) (a b : A) : Prop :=
  str_ltb (key b) (key a) = false.

Definition key_lt (A : Type) (key : A -> str) (a b : A) : Prop :=
  str_ltb (key a) (key b) = true.

(** A record that names a company. *)
Definition has_name (r : raw_record) : bool :=
  nonempty (strip (or_default (raw_company_name r) [])).

(** The date the merger reaches from no date through [dates]. *)
Definition earliest (dates : list str) : str := fold_left merge_date dates [].

(** The key under which a merged record is sorted. *)
Definition sort_key (casefold : str -> str) (e : record) : str :=
  casefold (company_name e).

(** The state of [for f in founders]: [seen] holds the case-folded names of
    the list, which are distinct. *)
Definition founders_state (casefold : str -> str) (st : list str * list str)
  : Prop :=
  (forall x, In x (snd st) <-> In x (map casefold (fst st)))
  /\ NoDup (map casefold (fst st)).

(** What holds of the entry [e] kept under the key [k] once the records
    [processed] have been merged. *)
Definition entry_ok (casefold : str -> str) (processed : list raw_record)
           (k : str) (e : record) : Prop :=
  k = casefold (company_name e)
  /\ company_name e <> []
  /\ (exists r, In r processed
                /\ company_name e = strip (or_default (raw_company_name r) []))
  /\ founding_date e = earliest (group_dates casefold k processed)
  /\ (forall f, In f (founders e) -> f <> []).

(** The dictionary [by_name] once the records [processed] have been
    merged. *)
Definition merged_state (casefold : str -> str) (processed : list raw_record)
           (by_name : list (str * record)) : Prop :=
  NoDup (dict_keys by_name)
  /\ (forall k e, In (k, e) by_name -> entry_ok casefold processed k e)
  /\ (forall r, In r processed -> has_name r = true ->
                In (casefold (strip (or_default (raw_company_name r) [])))
                   (dict_keys by_name)).

(** A merged record that the merger reads back as it is. *)
Definition clean (e : record) : Prop :=
  company_name e <> []
  /\ strip (company_name e) = company_name e
  /\ strip (founding_date e) = founding_date e
  /\ (forall f, In f (founders e) -> f <> []).

(** *** Notions for the segmenter *)

(** The rest of the text after a match of [r] at its front. *)
Definition match_rest (r : regex) (s : str) : option str :=
  run r s [] (fun s' _ => Some s').

Definition no_newline (l : str) : Prop :=
  forallb (fun c => negb (is_char newline c)) l = true.

(** The text of the lines [ls], each after a newline. *)
Fixpoint tail_text (ls : list str) : str :=
  match ls with
  | [] => []
  | l :: ls' => newline :: l ++ tail_text ls'
  end.

(** The text of the lines [ls]. *)
Definition text_of (ls : list str) : str :=
  match ls with
  | [] => []
  | l :: ls' => l ++ tail_text ls'
  end.

(** [ls] without the blank lines at its front, the last line kept. *)
Fixpoint skip_blank (ls : list str) : list str :=
  match ls with
  | l :: ((_ :: _) as rest) => if blank l then skip_blank rest else ls
  | _ => ls
  end.

Definition has_lines (ls : list str) : bool :=
  match ls with [] => false | _ => true end.

(** The blocks [re.split] cuts out of the lines [ls] that follow the block
    [acc] under way: a blank line that is not the last one starts or
    prolongs a separator ([insep]), any other line goes to the block. *)
Fixpoint blocks (acc : str) (insep : bool) (ls : list str) : list str :=
  match ls with
  | [] => [acc]
  | l :: ls' =>
      if blank l && has_lines ls' then
        if insep then blocks acc true ls' else acc :: blocks [] true ls'
      else blocks (if insep then l else acc ++ newline :: l) false ls'
  end.

(** [ls] with the character [c] added to its last line. *)
Fixpoint snoc_line (c : ascii) (ls : list str) : list str :=
  match ls with
  | [] => [[c]]
  | [l] => [l ++ [c]]
  | l :: ls' => l :: snoc_line c ls'
  end.

(** What follows a newline when [\n\s*\n+] is tried there: [\s*\n+], which
    gives the rest of the text. *)
Definition blank_run (s : str) : option str :=
  greedy is_space 0 None s
         (fun s1 => greedy (is_char newline) 1 None s1 (fun s2 => Some s2)).

(** ** Notions for the further properties *)

(** The order of the calendar on a year, a month and a day. *)
Definition earlier (a b : Z * Z * Z) : Prop :=
  let '(y, m, d) := a in
  let '(y', m', d') := b in
  (y < y' \/ y = y' /\ (m < m' \/ m = m' /\ d < d'))%Z.

(** The text [y] stands somewhere in the text [s]. *)
Definition occurs (y s : str) : Prop := exists pre post, s = pre ++ y ++ post.

(** Four consecutive digits of the text [s] read the number [y]. *)
Definition year_read (s : str) (y : Z) : Prop :=
  exists yr, occurs yr s /\ length yr = 4 /\ all_digits yr /\ int yr = Returns y.

(** What a recogniser returns is the date of a year read in the text. *)
Definition dated (s v : str) : Prop :=
  exists y mo d,
    year_read s y /\ (1 <= y <= 9999)%Z /\ v = _fmt_date y mo d.

(** What one record of a company does to the entry of that company: the
    first record makes the entry, a later one is merged into it. *)
Definition merge_into (casefold : str -> str) (cur : option record)
           (r : raw_record) : option record :=
  let name := strip (or_default (raw_company_name r) []) in
  let fs := filter nonempty (or_default (raw_founders r) []) in
  let date := strip (or_default (raw_founding_date r) []) in
  match cur with
  | None =>
      Some {| company_name := name; founding_date := date; founders := fs |}
  | Some e =>
      Some {| company_name := company_name e;
              founding_date := merge_date (founding_date e) date;
              founders := merge_founders casefold (founders e) fs |}
  end.

(** The entry of the company with case-folded name [key], made from the
    records of that company alone, in their order. *)
Definition group_record (casefold : str -> str) (key : str)
           (records : list raw_record) : option record :=
  fold_left (merge_into casefold) (filter (in_group casefold key) records) None.

(** [a] is [b] with some elements left out, the order kept. *)
Inductive subseq (A : Type) : list A -> list A -> Prop :=
| subseq_nil : subseq [] []
| subseq_take (x : A) (a b : list A) : subseq a b -> subseq (x :: a) (x :: b)
| subseq_skip (x : A) (a b : list A) : subseq a b -> subseq a (x :: b).

(** [sep.join(pieces)] for a separator of any length. *)
Fixpoint join_str (sep : str) (pieces : list str) : str :=
  match pieces with
  | [] => []
  | [p] => p
  | p :: rest => p ++ sep ++ join_str sep rest
  end.

(** A line that the segmenter keeps: not blank, and without a newline. *)
Definition text_line (l : str) : Prop := blank l = false /\ no_newline l.

(** ** Calls that can raise, one after the other *)

Definition bind (A B : Type) (x : outcome A) (f : A -> outcome B) : outcome B :=
  match x with
  | Returns a => f a
  | Raises => Raises
  end.

(** [[f(x) for x in l]]: the first call that raises ends the comprehension. *)
Fixpoint map_outcome (A B : Type) (f : A -> outcome B) (l : list A)
  : outcome (list B) :=
  match l with
  | [] => Returns []
  | x :: l' =>
      bind (f x) (fun y =>
      bind (map_outcome f l') (fun ys => Returns (y :: ys)))
  end.

(** A loop [for x in l] over a state, ended by the first turn that raises. *)
Fixpoint fold_outcome (A B : Type) (f : A -> B -> outcome A) (l : list B)
         (a : A) : outcome A :=
  match l with
  | [] => Returns a
  | x :: l' => bind (f a x) (fold_outcome f l')
  end.

(** ** Model set-up: [_get_gemini_api_key], [MODEL_NAME], [_make_model] *)

(** [a or b] for [a] a text or [None]. *)
Definition str_or (a : option str) (b : str) : str :=
  match a with
  | Some (c :: s) => c :: s
  | _ => b
  end.

(** [os.environ] is a dictionary of texts. *)
Definition _get_gemini_api_key (environ : list (str * str)) : str :=
  str_or (dict_get environ "GOOGLE_API_KEY")
         (str_or (dict_get environ "GEMINI_API_KEY") []).

(** [os.environ.get("GEMINI_MODEL", "gemini-1.5-flash")] *)
Definition MODEL_NAME (environ : list (str * str)) : str :=
  or_default (dict_get environ "GEMINI_MODEL") "gemini-1.5-flash".

(** The arguments [ChatGoogleGenerativeAI] is built with. *)
Record chat_model : Type := ChatModel {
  model : str;
  google_api_key : str;
  temperature : Z
}.

Definition _make_model (environ : list (str * str)) : outcome chat_model :=
  let key := _get_gemini_api_key environ in
  if negb (nonempty key) then Raises
  else Returns {| model := MODEL_NAME environ;
                  google_api_key := key;
                  temperature := 0 |}.

(** ** Extraction: [_coerce_record] on any value, [_extract_from_paragraph],
       [extract_company_info]

    The oracle answers with any JSON value.  An object is the list of its
    items, each key once. *)

(** [for x in v]: the items of a list, the characters of a text, the keys
    of an object; the other values are not iterable. *)
Definition iterate (v : pyobj) : outcome (list pyobj) :=
  match v with
  | PList l => Returns l
  | PStr s => Returns (map (fun c => PStr [c]) s)
  | PDict d => Returns (map PStr (dict_keys d))
  | _ => Raises
  end.

(** The value [v or ""] on which [.strip()] is then called: only a text
    has the method. *)
Definition text_or_empty (v : option pyobj) : outcome (option str) :=
  match v with
  | None => Returns None
  | Some (PStr s) => Returns (Some s)
  | Some x => if is_true x then Raises else Returns None
  end.

(** The value [d.get("founders") or []] as [_coerce_record] goes through
    it: a text is coerced, any other value is iterated. *)
Definition founders_or_empty (v : option pyobj) : outcome founders_value :=
  match v with
  | None => Returns NoFounders
  | Some x =>
      if negb (is_true x) then Returns NoFounders
      else
        match x with
        | PStr s => Returns (FoundersText s)
        | _ => bind (iterate x) (fun l => Returns (FoundersList l))
        end
  end.

(** The three fields [_coerce_record] reads in [d]; [d.get] needs an
    object. *)
Definition read_item (d : pyobj) : outcome extracted :=
  match d with
  | PDict fields =>
      bind (text_or_empty (dict_get fields "company_name")) (fun company =>
      bind (text_or_empty (dict_get fields "founding_date")) (fun date =>
      bind (founders_or_empty (dict_get fields "founders")) (fun fs =>
      Returns {| x_company_name := company;
                 x_founding_date := date;
                 x_founders := fs |})))
  | _ => Raises
  end.

(** [out.get("companies") or []], then the items the comprehension goes
    through. *)
Definition companies_of (out : pyobj) : outcome (list pyobj) :=
  match out with
  | PDict fields =>
      match dict_get fields "companies" with
      | None => Returns []
      | Some x => if is_true x then iterate x else Returns []
      end
  | _ => Raises
  end.

Section Extraction.
(** [str.casefold], [json.loads], and the answer of the model to the prompt
    made for a paragraph: a text, or an exception. *)
Variable casefold : str -> str.
Variable json_loads : str -> outcome pyobj.
Variable reply : str -> outcome str.

(** [CHAIN.invoke({"paragraph": paragraph})]: the answer, parsed. *)
Definition CHAIN (paragraph : str) : outcome pyobj :=
  bind (reply paragraph) json_loads.

(** [_coerce_record(item)] for an item of any kind. *)
Definition coerce_item (item : pyobj) : outcome coerced :=
  bind (read_item item) (_coerce_record json_loads).

Definition _extract_from_paragraph (paragraph : str) : list coerced :=
  if negb (nonempty (strip paragraph)) then []
  else
    match
      bind (CHAIN paragraph) (fun out =>
      bind (companies_of out) (fun companies =>
      bind (map_outcome coerce_item companies) (fun cleaned =>
      Returns (filter (fun c => nonempty (c_company_name c)) cleaned))))
    with
    | Returns cleaned => cleaned
    | Raises => []
    end.

(** [f.casefold()], which only a text has. *)
Definition founder_key (f : pyobj) : outcome str :=
  match f with
  | PStr s => Returns (casefold s)
  | _ => Raises
  end.

(** One turn of [for f in founders] in the merger, on founders of any
    kind. *)
Definition add_founder_obj (st : list pyobj * list str) (f : pyobj)
  : outcome (list pyobj * list str) :=
  let '(merged, seen) := st in
  bind (founder_key f) (fun k =>
  if negb (set_has seen k) then Returns (merged ++ [f], k :: seen)
  else Returns st).

Definition merge_founders_obj (existing incoming : list pyobj)
  : outcome (list pyobj) :=
  bind (map_outcome founder_key existing) (fun seen =>
  bind (fold_outcome add_founder_obj incoming (existing, seen)) (fun st =>
  Returns (fst st))).

(** The body of [for r in records] in [dedupe_records], on the records
    [_coerce_record] makes. *)
Definition merge_record_obj (by_name : list (str * coerced)) (r : coerced)
  : outcome (list (str * coerced)) :=
  let name := strip (c_company_name r) in
  if negb (nonempty name) then Returns by_name
  else
    let key := casefold name in
    let fs := filter is_true (c_founders r) in
    let date := strip (c_founding_date r) in
    match dict_get by_name key with
    | None =>
        Returns (dict_set by_name key
                          {| c_company_name := name;
                             c_founding_date := date;
                             c_founders := fs |})
    | Some e =>
        bind (merge_founders_obj (c_founders e) fs) (fun merged =>
        Returns (dict_set by_name key
                          {| c_company_name := c_company_name e;
                             c_founding_date
                               := merge_date (c_founding_date e) date;
                             c_founders := merged |}))
    end.

(** [dedupe_records] on the records [_coerce_record] makes, whose founders
    are values of any kind. *)
Definition dedupe_objects (records : list coerced) : outcome (list coerced) :=
  bind (fold_outcome merge_record_obj records []) (fun by_name =>
  Returns (sort_by (fun x => casefold (c_company_name x))
                   (dict_values by_name))).

Definition extract_company_info (text : str) : outcome (list coerced) :=
  let paragraphs := split_paragraphs text in
  let results := flat_map _extract_from_paragraph paragraphs in
  dedupe_objects results.
End Extraction.

(** A founder that is a text. *)
Definition is_text (f : pyobj) : bool :=
  match f with
  | PStr _ => true
  | _ => false
  end.

(** The texts among the founders. *)
Definition names_of (fs : list pyobj) : list str :=
  flat_map (fun f => match f with PStr s => [s] | _ => [] end) fs.

(** A coerced record as the merger on texts reads it, and a merged record
    as a coerced one. *)
Definition raw_of (c : coerced) : raw_record :=
  {| raw_company_name := Some (c_company_name c);
     raw_founding_date := Some (c_founding_date c);
     raw_founders := Some (names_of (c_founders c)) |}.

Definition coerced_of (e : record) : coerced :=
  {| c_company_name := company_name e;
     c_founding_date := founding_date e;
     c_founders := map PStr (founders e) |}.

(** An answer of the model, for the examples: one company, its date in
    words, its founders in one text. *)
Definition example_answer : pyobj :=
  PDict [ ("companies" : str,
           PList [ PDict [ ("company_name" : str, PStr "Acme Inc.");
                           ("founding_date" : str, PStr "March 5, 1990");
                           ("founders" : str, PStr "Jane, Bob") ] ]) ].

(** ** Saving: [save_records_to_csv]

    The rows handed to [csv.writer], a cell being a number or a text; the
    directory, the file and the quoting of the cells are the library's. *)


(** [sep.join(founders)], which takes texts only. *)
Definition join_texts (sep : str) (fs : list pyobj) : outcome str :=
  bind (map_outcome (fun f => match f with
                              | PStr s => Returns s
                              | _ => Raises
                              end) fs)
       (fun names => Returns (join_str sep names)).

(** The cell of the founders: the list written as Python writes a list of
    texts. *)
Definition founders_str (fs : list pyobj) : outcome str :=
  bind (join_texts "', '" fs) (fun joined =>
  Returns (("['" : str) ++ joined ++ ("']" : str))).





(** A character that goes through a quoted text unchanged: no quote of
    either kind, no backslash, no control character. *)
Definition plain (c : ascii) : bool :=
  negb (is_char "'" c) && negb (is_char dquote c)
  && negb (is_char backslash c) && negb (code c <? 32)%N.

(** A name as the coercion gives it back: not empty, trimmed, and without
    a comma. *)
Definition founder_name (n : str) : Prop :=
  n <> [] /\ strip n = n
  /\ forallb (fun c => negb (is_char "," c)) n = true.

Unset Implicit Arguments.

(** * Text *)

Lemma str_eqb_eq (a b : str) : str_eqb a b = true <-> a = b.
Proof.
  revert b; induction a as [|x a IH]; intros [|y b]; simpl; split;
    try congruence; try discriminate; auto.
  - intros H. apply andb_true_iff in H as [H1 H2].
    apply Ascii.eqb_eq in H1. apply IH in H2. congruence.
  - intros H. injection H as -> ->. rewrite Ascii.eqb_refl. now apply IH.
Qed.

Lemma str_eqb_refl (a : str) : str_eqb a a = true.
Proof. now apply str_eqb_eq. Qed.

Lemma str_eqb_neq (a b : str) : str_eqb a b = false <-> a <> b.
Proof.
  split.
  - intros H E. apply str_eqb_eq in E. congruence.
  - intros H. destruct (str_eqb a b) eqn:E; auto.
    apply str_eqb_eq in E. contradiction.
Qed.

Lemma string_of_list_ascii_inj (a b : str) :
  string_of_list_ascii a = string_of_list_ascii b -> a = b.
Proof.
  intros H. rewrite <- (list_ascii_of_string_of_list_ascii a),
              <- (list_ascii_of_string_of_list_ascii b). now rewrite H.
Qed.

Lemma compare_as_OT (a b : string) :
  String.compare a b = String_as_OT.compare a b.
Proof.
  revert b; induction a as [|x a IH]; intros [|y b]; cbn [String.compare String_as_OT.compare]; auto;
    try (rewrite IH; unfold Ascii.compare, Ascii_as_OT.compare, N_as_OT.compare;
         now destruct (N.compare _ _)).
Qed.

Lemma str_ltb_lt (a b : str) :
  str_ltb a b = true
  <-> String_as_OT.lt (string_of_list_ascii a) (string_of_list_ascii b).
Proof.
  unfold str_ltb, String.ltb, String_as_OT.lt. rewrite compare_as_OT.
  destruct (String_as_OT.compare _ _); split; congruence.
Qed.

Lemma str_ltb_irrefl (a : str) : str_ltb a a = false.
Proof.
  destruct (str_ltb a a) eqn:E; auto. apply str_ltb_lt in E.
  exfalso. exact (@StrictOrder_Irreflexive _ _ String_as_OT.lt_strorder _ E).
Qed.

Lemma str_ltb_trans (a b c : str) :
  str_ltb a b = true -> str_ltb b c = true -> str_ltb a c = true.
Proof.
  rewrite !str_ltb_lt.
  apply (@StrictOrder_Transitive _ _ String_as_OT.lt_strorder).
Qed.

Lemma str_ltb_total (a b : str) :
  str_ltb a b = false -> str_ltb b a = false -> a = b.
Proof.
  unfold str_ltb, String.ltb. intros H1 H2.
  rewrite String.compare_antisym in H2.
  destruct (String.compare (string_of_list_ascii a) (string_of_list_ascii b)) eqn:E;
    simpl in *; try discriminate.
  apply String.compare_eq_iff in E. now apply string_of_list_ascii_inj.
Qed.

Lemma str_ltb_asym (a b : str) : str_ltb a b = true -> str_ltb b a = false.
Proof.
  intros H. destruct (str_ltb b a) eqn:E; auto.
  pose proof (str_ltb_trans _ _ _ H E) as T. now rewrite str_ltb_irrefl in T.
Qed.

(** [a <= b] as the negation of [b < a]. *)
Lemma str_leb_not_ltb (a b : str) : str_leb a b = negb (str_ltb b a).
Proof.
  unfold str_leb, str_ltb, String.leb, String.ltb.
  rewrite (String.compare_antisym (string_of_list_ascii a)).
  now destruct (String.compare _ _).
Qed.

Lemma not_ltb_trans (a b c : str) :
  str_ltb b a = false -> str_ltb c b = false -> str_ltb c a = false.
Proof.
  intros H1 H2. destruct (str_ltb c a) eqn:E; auto.
  destruct (str_ltb a b) eqn:E1.
  - pose proof (str_ltb_trans _ _ _ E E1). congruence.
  - assert (a = b) by now apply str_ltb_total. subst. congruence.
Qed.

Lemma lstrip_blank (s : str) : lstrip s = [] <-> forallb is_space s = true.
Proof.
  induction s as [|c s IH]; simpl; [tauto|].
  destruct (is_space c); simpl; [exact IH|]. split; discriminate.
Qed.

Lemma lstrip_head (s : str) :
  match lstrip s with c :: _ => is_space c = false | [] => True end.
Proof.
  induction s as [|c s IH]; simpl; auto.
  destruct (is_space c) eqn:E; auto.
Qed.

Lemma lstrip_fixed (s : str) :
  match s with c :: _ => is_space c = false | [] => True end -> lstrip s = s.
Proof. destruct s as [|c s]; simpl; auto. now intros ->. Qed.

Lemma lstrip_idem (s : str) : lstrip (lstrip s) = lstrip s.
Proof. apply lstrip_fixed, lstrip_head. Qed.

Lemma lstrip_split (s : str) :
  exists w, s = w ++ lstrip s /\ forallb is_space w = true.
Proof.
  induction s as [|c s (w & E & Hw)]; simpl.
  - now exists [].
  - destruct (is_space c) eqn:Ec.
    + exists (c :: w). simpl. rewrite Ec. split; [congruence|auto].
    + now exists [].
Qed.

Lemma lstrip_app_blank (w s : str) :
  forallb is_space w = true -> lstrip (w ++ s) = lstrip s.
Proof.
  induction w as [|c w IH]; simpl; auto.
  intros H. apply andb_true_iff in H as [-> H]. auto.
Qed.

Lemma lstrip_app_nonblank (s t : str) :
  lstrip s <> [] -> lstrip (s ++ t) = lstrip s ++ t.
Proof.
  induction s as [|c s IH]; simpl; [congruence|].
  destruct (is_space c); auto.
Qed.

Lemma rstrip_split (s : str) :
  exists w, s = rstrip s ++ w /\ forallb is_space w = true.
Proof.
  unfold rstrip. destruct (lstrip_split (rev s)) as (w & E & Hw).
  exists (rev w). split.
  - rewrite <- rev_app_distr, <- E. now rewrite rev_involutive.
  - rewrite forallb_forall in *. intros x Hx. apply Hw. now apply in_rev.
Qed.

Lemma rstrip_app_blank (s w : str) :
  forallb is_space w = true -> rstrip (s ++ w) = rstrip s.
Proof.
  intros H. unfold rstrip. rewrite rev_app_distr, lstrip_app_blank; auto.
  rewrite forallb_forall in *. intros x Hx. apply H. now apply in_rev.
Qed.

Lemma rstrip_app_nonblank (s t : str) :
  rstrip t <> [] -> rstrip (s ++ t) = s ++ rstrip t.
Proof.
  intros H. unfold rstrip in *. rewrite rev_app_distr, lstrip_app_nonblank.
  - now rewrite rev_app_distr, rev_involutive.
  - intros E. apply H. now rewrite E.
Qed.

Lemma rstrip_last (s : str) :
  match rev (rstrip s) with c :: _ => is_space c = false | [] => True end.
Proof. unfold rstrip. rewrite rev_involutive. apply lstrip_head. Qed.

Lemma rstrip_fixed (s : str) :
  match rev s with c :: _ => is_space c = false | [] => True end -> rstrip s = s.
Proof.
  intros H. unfold rstrip. rewrite lstrip_fixed; auto. apply rev_involutive.
Qed.

Lemma rstrip_blank (s : str) : rstrip s = [] <-> forallb is_space s = true.
Proof.
  unfold rstrip. split.
  - intros H. assert (E : lstrip (rev s) = []).
    { rewrite <- (rev_involutive (lstrip (rev s))), H. reflexivity. }
    apply lstrip_blank in E. rewrite forallb_forall in *.
    intros x Hx. apply E. now apply in_rev in Hx.
  - intros H. assert (E : lstrip (rev s) = []).
    { apply lstrip_blank. rewrite forallb_forall in *.
      intros x Hx. apply H. now apply in_rev. }
    now rewrite E.
Qed.

Lemma rstrip_head (s : str) :
  match s with c :: _ => is_space c = false | [] => True end ->
  match rstrip s with c :: _ => is_space c = false | [] => True end.
Proof.
  intros H. destruct (rstrip_split s) as (w & E & Hw).
  destruct (rstrip s) as [|c r] eqn:Er; auto.
  rewrite E in H. exact H.
Qed.

Lemma strip_blank (s : str) : strip s = [] <-> forallb is_space s = true.
Proof.
  unfold strip. rewrite rstrip_blank. split; intros H.
  - destruct (lstrip_split s) as (w & E & Hw). rewrite E, forallb_app, Hw, H.
    reflexivity.
  - destruct (lstrip_split s) as (w & E & Hw). rewrite E, forallb_app in H.
    now apply andb_true_iff in H.
Qed.

Lemma strip_head (s : str) :
  match strip s with c :: _ => is_space c = false | [] => True end.
Proof. apply rstrip_head, lstrip_head. Qed.

Lemma strip_last (s : str) :
  match rev (strip s) with c :: _ => is_space c = false | [] => True end.
Proof. apply rstrip_last. Qed.

Lemma strip_fixed (s : str) :
  match s with c :: _ => is_space c = false | [] => True end ->
  match rev s with c :: _ => is_space c = false | [] => True end ->
  strip s = s.
Proof.
  intros H1 H2. unfold strip. rewrite lstrip_fixed; auto. now apply rstrip_fixed.
Qed.

Lemma strip_idem (s : str) : strip (strip s) = strip s.
Proof. apply strip_fixed; [apply strip_head | apply strip_last]. Qed.

Lemma strip_split (s : str) :
  exists w1 w2, s = w1 ++ strip s ++ w2
                /\ forallb is_space w1 = true /\ forallb is_space w2 = true.
Proof.
  destruct (lstrip_split s) as (w1 & E1 & H1).
  destruct (rstrip_split (lstrip s)) as (w2 & E2 & H2).
  exists w1, w2. unfold strip. now rewrite <- E2.
Qed.

Lemma strip_app_blank (w1 s w2 : str) :
  forallb is_space w1 = true -> forallb is_space w2 = true ->
  strip (w1 ++ s ++ w2) = strip s.
Proof.
  intros H1 H2. unfold strip. rewrite lstrip_app_blank; auto.
  destruct (lstrip s) as [|c r] eqn:E.
  - apply lstrip_blank in E.
    assert (B : lstrip (s ++ w2) = []).
    { apply lstrip_blank. now rewrite forallb_app, E, H2. }
    now rewrite B.
  - rewrite lstrip_app_nonblank by congruence. rewrite E.
    now apply rstrip_app_blank.
Qed.

Lemma nonempty_true (s : str) : nonempty s = true <-> s <> [].
Proof. destruct s; simpl; split; intros H; try congruence; try easy. Qed.

Lemma nonempty_false (s : str) : nonempty s = false <-> s = [].
Proof. destruct s; simpl; split; intros H; try congruence; try easy. Qed.

(** * The matcher *)

(** A repetition that succeeds has consumed a run of the class. *)
Lemma greedy_sound (A : Type) (p : ascii -> bool) (s : str) :
  forall lo hi (k : str -> option A) a,
    greedy p lo hi s k = Some a ->
    exists w s', s = w ++ s' /\ forallb p w = true /\ lo <= length w
                 /\ within (length w) hi /\ k s' = Some a.
Proof.
  induction s as [|c s IH]; intros lo hi k a H.
  - simpl in H. destruct lo; [|discriminate].
    exists [], []. repeat split; auto. destruct hi; simpl; lia.
  - simpl in H.
    assert (Stop : match lo with 0 => k (c :: s) | S _ => None end = Some a ->
                   exists w s', c :: s = w ++ s' /\ forallb p w = true
                                /\ lo <= length w /\ within (length w) hi
                                /\ k s' = Some a).
    { intros E. destruct lo; [|discriminate].
      exists [], (c :: s). repeat split; auto. destruct hi; simpl; lia. }
    destruct (p c && may_take hi) eqn:E; auto.
    destruct (greedy p (pred lo) (one_less hi) s k) eqn:G; auto.
    injection H as ->. apply andb_true_iff in E as [Pc T].
    apply IH in G as (w & s' & -> & Hw & Hlo & Hhi & Hk).
    exists (c :: w), s'. simpl. rewrite Pc, Hw. repeat split; auto; [lia|].
    destruct hi as [[|h]|]; simpl in *; try discriminate; auto; lia.
Qed.

(** The text a group has consumed. *)
Lemma firstn_consumed (w s : str) :
  firstn (length (w ++ s) - length s) (w ++ s) = w.
Proof.
  rewrite length_app. replace (length w + length s - length s) with (length w) by lia.
  rewrite firstn_app, Nat.sub_diag, firstn_all. simpl. apply app_nil_r.
Qed.

Lemma firstn_consumed_cons (c : ascii) (w s : str) :
  firstn (length (c :: w ++ s) - length s) (c :: w ++ s) = c :: w.
Proof. exact (firstn_consumed (c :: w) s). Qed.

(** A repetition takes the whole run [w] when the class stops there and the
    continuation accepts. *)
Lemma greedy_complete (A : Type) (p : ascii -> bool) (w : str) :
  forall lo hi s' (k : str -> option A) a,
    forallb p w = true ->
    lo <= length w -> within (length w) hi ->
    k s' = Some a ->
    match s' with c :: _ => p c = false | [] => True end
    \/ hi = Some (length w) ->
    greedy p lo hi (w ++ s') k = Some a.
Proof.
  induction w as [|c w IH]; intros lo hi s' k a Hw Hlo Hhi Hk Hstop.
  - simpl in *. assert (lo = 0) by lia. subst lo.
    destruct s' as [|c s']; simpl; auto.
    destruct Hstop as [Hp | ->]; [rewrite Hp | rewrite andb_false_r]; simpl; auto.
  - simpl in *. apply andb_true_iff in Hw as [-> Hw].
    assert (T : may_take hi = true).
    { destruct hi as [[|h]|]; simpl in *; auto; lia. }
    rewrite T. simpl.
    rewrite (IH (pred lo) (one_less hi) s' k a); auto; try lia.
    + destruct hi; simpl in *; auto; lia.
    + destruct Hstop as [H | ->]; auto.
Qed.

(** * Numbers and their digits *)

Lemma digit_value_range (c : ascii) :
  is_digit c = true -> (0 <= digit_value c <= 9)%Z.
Proof.
  unfold is_digit, digit_value. intros H. apply andb_true_iff in H as [H1 H2].
  apply N.leb_le in H1, H2. lia.
Qed.

Lemma fold_digits_range (x : str) :
  forallb is_digit x = true ->
  forall acc, (0 <= acc)%Z ->
    (0 <= fold_left (fun acc c => 10 * acc + digit_value c) x acc
     < (acc + 1) * 10 ^ Z.of_nat (length x))%Z.
Proof.
  induction x as [|c x IH]; intros H acc Hacc.
  - simpl. lia.
  - cbn [forallb] in H. apply andb_true_iff in H as [Hc Hx].
    cbn [fold_left length]. pose proof (digit_value_range c Hc) as R.
    assert (A0 : (0 <= 10 * acc + digit_value c)%Z) by lia.
    specialize (IH Hx (10 * acc + digit_value c)%Z A0).
    rewrite Nat2Z.inj_succ, Z.pow_succ_r by lia.
    assert (0 < 10 ^ Z.of_nat (length x))%Z by (apply Z.pow_pos_nonneg; lia).
    nia.
Qed.

Lemma int_digits (x : str) :
  x <> [] -> forallb is_digit x = true ->
  exists v, int x = Returns v /\ _safe_int x = Some v
            /\ (0 <= v < 10 ^ Z.of_nat (length x))%Z.
Proof.
  intros Hx Hd. unfold _safe_int, int.
  apply nonempty_true in Hx. rewrite Hx, Hd. cbn [andb].
  destruct (fold_digits_range x Hd 0%Z (Z.le_refl 0)) as [L U].
  change (0 + 1)%Z with 1%Z in U. rewrite Z.mul_1_l in U.
  eexists. split; [reflexivity|]. split; [reflexivity|]. split; assumption.
Qed.

Lemma nonempty_length (s : str) : 1 <= length s -> s <> [].
Proof. destruct s; simpl; [lia|congruence]. Qed.

(** * Formatting *)

Lemma upto_complete (n : nat) (z : Z) :
  (0 <= z < Z.of_nat n)%Z -> In z (upto n).
Proof.
  intros H. unfold upto. apply in_map_iff. exists (Z.to_nat z). split; [lia|].
  apply in_seq. lia.
Qed.

Lemma check_upto (f : Z -> bool) (n : nat) :
  forallb f (upto n) = true -> forall z, (0 <= z < Z.of_nat n)%Z -> f z = true.
Proof.
  intros H z Hz. rewrite forallb_forall in H. now apply H, upto_complete.
Qed.

Lemma format4 (y : Z) :
  (0 <= y <= 9999)%Z ->
  format_0d 4 y =
    [digit_char (y / 1000); digit_char (y / 100 mod 10);
     digit_char (y / 10 mod 10); digit_char (y mod 10)].
Proof.
  intros H.
  apply str_eqb_eq.
  apply (check_upto
           (fun y => str_eqb (format_0d 4 y)
                       [digit_char (y / 1000); digit_char (y / 100 mod 10);
                        digit_char (y / 10 mod 10); digit_char (y mod 10)])
           (Z.to_nat 10000)); [vm_compute; reflexivity | lia].
Qed.

Lemma format2 (m : Z) :
  (0 <= m <= 99)%Z ->
  format_0d 2 m = [digit_char (m / 10); digit_char (m mod 10)].
Proof.
  intros H.
  apply str_eqb_eq.
  apply (check_upto
           (fun m => str_eqb (format_0d 2 m)
                       [digit_char (m / 10); digit_char (m mod 10)])
           100); [vm_compute; reflexivity | lia].
Qed.

Lemma digit_char_digit (z : Z) :
  (0 <= z <= 9)%Z ->
  is_digit (digit_char z) = true /\ digit_value (digit_char z) = z
  /\ is_space (digit_char z) = false.
Proof.
  intros H.
  assert (E : (is_digit (digit_char z) && (digit_value (digit_char z) =? z)%Z
               && negb (is_space (digit_char z))) = true).
  { apply (check_upto
             (fun z => is_digit (digit_char z)
                       && (digit_value (digit_char z) =? z)%Z
                       && negb (is_space (digit_char z))) 10);
      [vm_compute; reflexivity | lia]. }
  apply andb_true_iff in E as [E E3]. apply andb_true_iff in E as [E1 E2].
  apply Z.eqb_eq in E2. apply negb_true_iff in E3. auto.
Qed.

(** * Shapes of the matches *)

Ltac unfold_patterns H :=
  unfold re_match, match_front, ISO, YEAR_MONTH, MONTH_YEAR, YEAR_MONTHNAME,
    MONTH_DAY_YEAR, DAY_MONTH_YEAR, YEAR_ONLY, YEAR_ANYWHERE, BLANK_LINES,
    spaces, spaces1, digits, letters1, dash_or_slash, opt_comma, newlines1 in H;
  cbn [run] in H.

Ltac invert_step H :=
  match type of H with
  | greedy _ _ _ _ _ = Some _ =>
      let w := fresh "w" in
      let r := fresh "r" in
      let Hw := fresh "Hw" in
      let Hlo := fresh "Hlo" in
      let Hhi := fresh "Hhi" in
      apply greedy_sound in H;
      destruct H as (w & r & -> & Hw & Hlo & Hhi & H);
      cbn beta in H; cbn [within] in Hhi
  | match ?s with [] => None | _ :: _ => _ end = Some _ =>
      let c := fresh "c" in
      let r := fresh "r" in
      destruct s as [|c r]; [discriminate H|]
  | (if ?b then _ else None) = Some _ =>
      let E := fresh "E" in
      destruct b eqn:E; [|discriminate H]
  end.

Ltac invert_match H := unfold_patterns H; repeat invert_step H.

Lemma iso_shape (s : str) (m : list str) :
  re_match ISO s = Some m ->
  exists y mo d,
    m = [y; mo; d]
    /\ all_digits y /\ length y = 4
    /\ all_digits mo /\ 1 <= length mo <= 2
    /\ all_digits d /\ 1 <= length d <= 2.
Proof.
  intros H. invert_match H. injection H as <-.
  rewrite firstn_consumed, firstn_consumed, firstn_consumed.
  exists w0, w1, w2. unfold all_digits. repeat split; auto; lia.
Qed.

Lemma year_month_shape (s : str) (m : list str) :
  re_match YEAR_MONTH s = Some m ->
  exists y mo,
    m = [y; mo] /\ all_digits y /\ length y = 4
    /\ all_digits mo /\ 1 <= length mo <= 2.
Proof.
  intros H. invert_match H. injection H as <-.
  rewrite firstn_consumed, firstn_consumed.
  exists w0, w1. unfold all_digits. repeat split; auto; lia.
Qed.

Lemma month_year_shape (s : str) (m : list str) :
  re_match MONTH_YEAR s = Some m ->
  exists name y, m = [name; y] /\ all_digits y /\ length y = 4.
Proof.
  intros H. invert_match H. injection H as <-.
  rewrite firstn_consumed, firstn_consumed.
  exists w0, w2. unfold all_digits. repeat split; auto; lia.
Qed.

Lemma year_monthname_shape (s : str) (m : list str) :
  re_match YEAR_MONTHNAME s = Some m ->
  exists y name, m = [y; name] /\ all_digits y /\ length y = 4.
Proof.
  intros H. invert_match H. injection H as <-.
  rewrite firstn_consumed, firstn_consumed.
  exists w0, w2. unfold all_digits. repeat split; auto; lia.
Qed.

Lemma month_day_year_shape (s : str) (m : list str) :
  re_match MONTH_DAY_YEAR s = Some m ->
  exists name d y,
    m = [name; d; y] /\ all_digits d /\ 1 <= length d <= 2
    /\ all_digits y /\ length y = 4.
Proof.
  intros H. invert_match H. injection H as <-.
  rewrite firstn_consumed, firstn_consumed, firstn_consumed.
  exists w0, w2, w5. unfold all_digits. repeat split; auto; lia.
Qed.

Lemma day_month_year_shape (s : str) (m : list str) :
  re_match DAY_MONTH_YEAR s = Some m ->
  exists d name y,
    m = [d; name; y] /\ all_digits d /\ 1 <= length d <= 2
    /\ all_digits y /\ length y = 4.
Proof.
  intros H. invert_match H. injection H as <-.
  rewrite firstn_consumed, firstn_consumed, firstn_consumed.
  exists w0, w2, w5. unfold all_digits. repeat split; auto; lia.
Qed.

Lemma year_only_shape (s : str) (m : list str) :
  re_match YEAR_ONLY s = Some m ->
  exists y, m = [y] /\ all_digits y /\ length y = 4.
Proof.
  intros H. invert_match H. injection H as <-.
  rewrite firstn_consumed.
  exists w0. unfold all_digits. repeat split; auto; lia.
Qed.

Lemma first_success (A : Type) (x y : option A) (a : A) :
  match x with Some v => Some v | None => y end = Some a ->
  x = Some a \/ y = Some a.
Proof. destruct x; auto. Qed.

(** A year found by the fallback reads 19xx or 20xx. *)
Lemma year_anywhere_front (s g : str) :
  match_front YEAR_ANYWHERE s = Some g ->
  exists a b c d rest,
    s = a :: b :: c :: d :: rest /\ g = [a; b; c; d]
    /\ (a = "1"%char /\ b = "9"%char \/ a = "2"%char /\ b = "0"%char)
    /\ is_digit c = true /\ is_digit d = true.
Proof.
  intros H. unfold_patterns H.
  apply first_success in H as [H | H]; repeat invert_step H;
    match type of H with
    | Some (firstn _ (?a :: ?b :: ?w ++ ?r)) = _ =>
        change (a :: b :: w ++ r) with ((a :: b :: w) ++ r) in H;
        rewrite firstn_consumed in H
    end;
    injection H as <-;
    match goal with
    | E1 : is_char _ ?a = true, E2 : is_char _ ?b = true |- _ =>
        apply Ascii.eqb_eq in E1, E2; subst a b
    end;
    (destruct w as [|c [|d [|e w]]]; simpl in Hlo, Hhi; try lia);
    simpl in Hw; apply andb_true_iff in Hw as [Hc Hd];
    apply andb_true_iff in Hd as [Hd _];
    eexists _, _, c, d, r; cbn [app]; auto 10.
Qed.

Lemma year_anywhere_shape (s g : str) :
  re_search YEAR_ANYWHERE s = Some g ->
  exists pre a b c d rest,
    s = pre ++ a :: b :: c :: d :: rest /\ g = [a; b; c; d]
    /\ (a = "1"%char /\ b = "9"%char \/ a = "2"%char /\ b = "0"%char)
    /\ is_digit c = true /\ is_digit d = true.
Proof.
  induction s as [|x s IH]; intros H.
  - simpl in H. destruct (match_front YEAR_ANYWHERE []) eqn:F; [|discriminate].
    apply year_anywhere_front in F as (a & b & c & d & rest & E & _).
    discriminate.
  - cbn [re_search] in H.
    destruct (match_front YEAR_ANYWHERE (x :: s)) eqn:F.
    + injection H as <-.
      apply year_anywhere_front in F as (a & b & c & d & rest & E & G & T).
      exists [], a, b, c, d, rest. auto.
    + apply IH in H as (pre & a & b & c & d & rest & E & G & T).
      exists (x :: pre), a, b, c, d, rest. subst s. auto.
Qed.

Lemma digit_not_space (c : ascii) : is_digit c = true -> is_space c = false.
Proof.
  unfold is_digit, is_space. intros H. apply andb_true_iff in H as [H1 H2].
  apply N.leb_le in H1, H2.
  repeat match goal with
         | |- context [(?a <=? ?b)%N] => destruct (N.leb_spec a b)
         | |- context [(?a =? ?b)%N] => destruct (N.eqb_spec a b)
         end; simpl; auto; lia.
Qed.

(** Feed the run [w] to the repetition at the head of the goal. *)
Ltac take w :=
  match goal with
  | |- greedy ?p ?lo ?hi ?S ?k = Some ?a =>
      let s' := eval cbn [skipn length] in (skipn (length w) S) in
      refine (@greedy_complete _ p w lo hi s' k a _ _ _ _ _);
      [ cbn [forallb];
        repeat match goal with
               | Hd : ?t = true |- context [?t] => rewrite Hd
               end; reflexivity
      | cbn [length]; lia
      | cbn [length within]; try exact I; lia
      | cbn beta iota
      | first [ right; reflexivity
              | left; first [ exact I | reflexivity
                            | apply digit_not_space; assumption ] ] ]
  end.

Ltac decide_char :=
  match goal with
  | |- (if ?b then _ else _) = _ =>
      let v := eval vm_compute in b in
      change b with v; cbn iota
  end.

Lemma iso_canonical_match (a b c e f g h i : ascii) :
  forallb is_digit [a; b; c; e; f; g; h; i] = true ->
  re_match ISO [a; b; c; e; "-"%char; f; g; "-"%char; h; i]
  = Some [[a; b; c; e]; [f; g]; [h; i]].
Proof.
  intros H. cbn [forallb] in H.
  repeat (apply andb_true_iff in H; destruct H as [? H]).
  unfold re_match, ISO, spaces, digits, dash_or_slash. cbn [run].
  take (@nil ascii). take [a; b; c; e]. decide_char.
  take [f; g]. decide_char. take [h; i]. take (@nil ascii).
  cbn [at_end app length Nat.sub firstn]. reflexivity.
Qed.

(** * Dates *)

Lemma clamp_max_min (hi : Z) (x : option Z) :
  (1 <= hi)%Z -> Z.max 1 (Z.min hi (or_1 x)) = clamp hi x.
Proof.
  intros H. destruct x as [v|]; simpl; [|lia].
  destruct v as [|p|p]; simpl.
  - lia.
  - destruct (Z.ltb_spec (Z.pos p) 1); [lia|].
    destruct (Z.ltb_spec hi (Z.pos p)); lia.
  - destruct (Z.ltb_spec hi (Z.neg p)); lia.
Qed.

Lemma clamp_range (hi : Z) (x : option Z) :
  (1 <= hi)%Z -> (1 <= clamp hi x <= hi)%Z.
Proof.
  intros H. destruct x as [v|]; simpl; [|lia].
  destruct (Z.eqb_spec v 0); [lia|].
  destruct (Z.ltb_spec v 1); [lia|].
  destruct (Z.ltb_spec hi v); lia.
Qed.

Lemma fmt_date_canon (y : Z) (m d : option Z) :
  _fmt_date y m d = canon y (clamp 12 m) (clamp 28 d).
Proof.
  unfold _fmt_date, canon. now rewrite !clamp_max_min by lia.
Qed.

Lemma fmt_date_well_formed (y : Z) (m d : option Z) :
  (1 <= y <= 9999)%Z -> well_formed (_fmt_date y m d).
Proof.
  intros H. exists y, (clamp 12 m), (clamp 28 d). split.
  - pose proof (clamp_range 12 m). pose proof (clamp_range 28 d).
    unfold in_calendar. lia.
  - apply fmt_date_canon.
Qed.

Lemma canon_chars (y m d : Z) :
  (0 <= y <= 9999)%Z -> (0 <= m <= 99)%Z -> (0 <= d <= 99)%Z ->
  canon y m d =
    [digit_char (y / 1000); digit_char (y / 100 mod 10);
     digit_char (y / 10 mod 10); digit_char (y mod 10); "-"%char;
     digit_char (m / 10); digit_char (m mod 10); "-"%char;
     digit_char (d / 10); digit_char (d mod 10)].
Proof.
  intros Hy Hm Hd. unfold canon. now rewrite format4, !format2.
Qed.

Ltac digit_facts :=
  repeat match goal with
         | |- context [digit_char ?z] =>
             lazymatch goal with
             | _ : digit_value (digit_char z) = z |- _ => fail
             | _ =>
                 let D := fresh "D" in
                 assert (D : (0 <= z <= 9)%Z)
                   by (Z.div_mod_to_equations; lia);
                 destruct (digit_char_digit z D) as (? & ? & ?)
             end
         end.

Lemma canon_is_canonical (y m d : Z) :
  in_calendar y m d -> is_canonical (canon y m d) = true.
Proof.
  intros (Hy & Hm & Hd). rewrite canon_chars by lia.
  digit_facts.
  unfold is_canonical. cbn [forallb].
  repeat match goal with H : is_digit _ = true |- _ => rewrite H; clear H end.
  repeat match goal with
         | H : digit_value _ = _ |- _ => rewrite ?H; clear H
         end.
  change (is_char "-" "-") with true. cbn [andb].
  rewrite !andb_true_iff, !Z.leb_le. Z.div_mod_to_equations. lia.
Qed.

Lemma canon_nonempty (y m d : Z) :
  in_calendar y m d -> canon y m d <> [].
Proof. intros (Hy & Hm & Hd). rewrite canon_chars by lia. discriminate. Qed.

Lemma value4 (a b c e : ascii) :
  int [a; b; c; e] =
    if forallb is_digit [a; b; c; e]
    then Returns (1000 * digit_value a + 100 * digit_value b
                  + 10 * digit_value c + digit_value e)%Z
    else Raises.
Proof.
  unfold int. cbn [nonempty is_empty negb andb fold_left].
  destruct (forallb is_digit [a; b; c; e]); auto. f_equal. lia.
Qed.

Lemma value2 (a b : ascii) :
  int [a; b] =
    if forallb is_digit [a; b]
    then Returns (10 * digit_value a + digit_value b)%Z
    else Raises.
Proof.
  unfold int. cbn [nonempty is_empty negb andb fold_left].
  destruct (forallb is_digit [a; b]); auto.
Qed.

(** A canonical date shows the numbers it was built from. *)
Lemma canon_fields (y m d : Z) :
  in_calendar y m d -> date_fields (canon y m d) = Some (y, m, d).
Proof.
  intros (Hy & Hm & Hd). rewrite canon_chars by lia.
  digit_facts.
  unfold date_fields. rewrite value4, !value2. cbn [forallb].
  repeat match goal with H : is_digit _ = true |- _ => rewrite H; clear H end.
  repeat match goal with
         | H : digit_value _ = _ |- _ => rewrite H; clear H
         end.
  cbn [andb]. do 2 f_equal; [f_equal|]; Z.div_mod_to_equations; lia.
Qed.

Lemma canon_stripped (y m d : Z) :
  in_calendar y m d -> strip (canon y m d) = canon y m d.
Proof.
  intros (Hy & Hm & Hd). rewrite canon_chars by lia.
  digit_facts. apply strip_fixed; cbn [rev app]; assumption.
Qed.

Lemma well_formed_canonical (v : str) :
  well_formed v -> is_canonical v = true /\ v <> [] /\ strip v = v.
Proof.
  intros (y & m & d & H & ->).
  auto using canon_is_canonical, canon_nonempty, canon_stripped.
Qed.

(** * The recognisers *)

Lemma year_value (y : str) :
  all_digits y -> length y = 4 ->
  exists v, int y = Returns v /\ _safe_int y = Some v /\ (0 <= v <= 9999)%Z.
Proof.
  intros Hd Hl.
  destruct (int_digits y) as (v & E1 & E2 & R); auto.
  { apply nonempty_length. lia. }
  rewrite Hl in R. change (10 ^ Z.of_nat 4)%Z with 10000%Z in R.
  exists v. repeat split; auto; lia.
Qed.

Lemma short_value (x : str) :
  all_digits x -> 1 <= length x <= 2 -> exists v, _safe_int x = Some v.
Proof.
  intros Hd Hl. destruct (int_digits x) as (v & _ & E & _); eauto.
  apply nonempty_length. lia.
Qed.

Lemma truthy_some (x : option Z) (v : Z) :
  truthy x = Some v -> x = Some v /\ v <> 0%Z.
Proof.
  destruct x as [[|p|p]|]; simpl; intros H; try discriminate;
    injection H as <-; split; auto; discriminate.
Qed.

Lemma truthy_year (y : str) (v : Z) :
  all_digits y -> length y = 4 -> truthy (_safe_int y) = Some v ->
  (1 <= v <= 9999)%Z.
Proof.
  intros Hd Hl H. apply truthy_some in H as [E N].
  destruct (year_value y Hd Hl) as (v' & _ & E' & R).
  rewrite E in E'. injection E' as <-. lia.
Qed.

Lemma month_to_num_range (token : str) (v : Z) :
  _month_to_num token = Some v -> (1 <= v <= 12)%Z.
Proof.
  unfold _month_to_num. generalize (lower (strip token)) as k. intros k.
  unfold MONTHS. cbn [dict_get].
  repeat match goal with
         | |- context [str_eqb ?a k] =>
             destruct (str_eqb a k); [intros H; injection H as <-; lia|]
         end.
  discriminate.
Qed.

Lemma try_iso_good (s v : str) : _try_iso s = Some v -> well_formed v.
Proof.
  unfold _try_iso. destruct (re_match ISO s) as [m|] eqn:M; [|discriminate].
  apply iso_shape in M as (y & mo & d & -> & Dy & Ly & _).
  cbn [group pred nth].
  destruct (truthy (_safe_int y)) as [vy|] eqn:T; [|discriminate].
  intros H. injection H as <-.
  apply fmt_date_well_formed. eapply truthy_year; eauto.
Qed.

Lemma try_year_only_good (s v : str) : _try_year_only s = Some v -> well_formed v.
Proof.
  unfold _try_year_only.
  destruct (re_match YEAR_ONLY s) as [m|] eqn:M; [|discriminate].
  apply year_only_shape in M as (y & -> & Dy & Ly).
  cbn [group pred nth].
  destruct (truthy (_safe_int y)) as [vy|] eqn:T; [|discriminate].
  intros H. injection H as <-.
  apply fmt_date_well_formed. eapply truthy_year; eauto.
Qed.

Lemma or_else_some (A : Type) (a b : option A) (v : A) :
  or_else a b = Some v -> a = Some v \/ a = None /\ b = Some v.
Proof. destruct a; simpl; auto. Qed.

Lemma try_year_month_good (s v : str) :
  _try_year_month s = Some v -> well_formed v.
Proof.
  unfold _try_year_month. intros H.
  apply or_else_some in H as [H | [_ H]];
    [| apply or_else_some in H as [H | [_ H]]].
  - destruct (re_match YEAR_MONTH s) as [m|] eqn:M; [|discriminate].
    apply year_month_shape in M as (y & mo & -> & Dy & Ly & _).
    cbn [group pred nth] in H.
    destruct (truthy (_safe_int y)) as [vy|] eqn:T; [|discriminate].
    injection H as <-. apply fmt_date_well_formed. eapply truthy_year; eauto.
  - destruct (re_match MONTH_YEAR s) as [m|] eqn:M; [|discriminate].
    apply month_year_shape in M as (name & y & -> & Dy & Ly).
    cbn [group pred nth] in H.
    destruct (truthy (_safe_int y)) as [vy|] eqn:T; [|discriminate].
    destruct (truthy (_month_to_num name)); [|discriminate].
    injection H as <-. apply fmt_date_well_formed. eapply truthy_year; eauto.
  - destruct (re_match YEAR_MONTHNAME s) as [m|] eqn:M; [|discriminate].
    apply year_monthname_shape in M as (y & name & -> & Dy & Ly).
    cbn [group pred nth] in H.
    destruct (truthy (_safe_int y)) as [vy|] eqn:T; [|discriminate].
    destruct (truthy (_month_to_num name)); [|discriminate].
    injection H as <-. apply fmt_date_well_formed. eapply truthy_year; eauto.
Qed.

Lemma try_month_day_year_good (s v : str) :
  _try_month_day_year s = Some v -> well_formed v.
Proof.
  unfold _try_month_day_year. intros H.
  apply or_else_some in H as [H | [_ H]].
  - destruct (re_match MONTH_DAY_YEAR s) as [m|] eqn:M; [|discriminate].
    apply month_day_year_shape in M as (name & d & y & -> & _ & _ & Dy & Ly).
    cbn [group pred nth] in H.
    destruct (truthy (_safe_int y)) as [vy|] eqn:T; [|discriminate].
    destruct (truthy (_month_to_num name)); [|discriminate].
    destruct (truthy (_safe_int d)); [|discriminate].
    injection H as <-. apply fmt_date_well_formed. eapply truthy_year; eauto.
  - destruct (re_match DAY_MONTH_YEAR s) as [m|] eqn:M; [|discriminate].
    apply day_month_year_shape in M as (d & name & y & -> & _ & _ & Dy & Ly).
    cbn [group pred nth] in H.
    destruct (truthy (_safe_int y)) as [vy|] eqn:T; [|discriminate].
    destruct (truthy (_month_to_num name)); [|discriminate].
    destruct (truthy (_safe_int d)); [|discriminate].
    injection H as <-. apply fmt_date_well_formed. eapply truthy_year; eauto.
Qed.

Lemma well_formed_cons (v : str) :
  well_formed v -> exists c v', v = c :: v'.
Proof.
  intros H. apply well_formed_canonical in H as (_ & N & _).
  destruct v as [|c v']; [congruence|eauto].
Qed.

(** The loop over the recognisers returns the first result that is not
    [None]. *)
Lemma first_parse_priority (s : str) :
  first_parse PARSERS s =
    or_else (_try_iso s)
      (or_else (_try_month_day_year s)
         (or_else (_try_year_month s) (_try_year_only s))).
Proof.
  unfold PARSERS. cbn [first_parse].
  destruct (_try_iso s) as [v|] eqn:E1.
  { destruct (well_formed_cons _ (try_iso_good _ _ E1)) as (c & v' & ->).
    reflexivity. }
  destruct (_try_month_day_year s) as [v|] eqn:E2.
  { destruct (well_formed_cons _ (try_month_day_year_good _ _ E2)) as (c & v' & ->).
    reflexivity. }
  destruct (_try_year_month s) as [v|] eqn:E3.
  { destruct (well_formed_cons _ (try_year_month_good _ _ E3)) as (c & v' & ->).
    reflexivity. }
  destruct (_try_year_only s) as [v|] eqn:E4.
  { destruct (well_formed_cons _ (try_year_only_good _ _ E4)) as (c & v' & ->).
    reflexivity. }
  reflexivity.
Qed.

Lemma first_parse_good (s v : str) :
  first_parse PARSERS s = Some v -> well_formed v.
Proof.
  rewrite first_parse_priority. intros H.
  apply or_else_some in H as [H | [_ H]]; [eauto using try_iso_good|].
  apply or_else_some in H as [H | [_ H]]; [eauto using try_month_day_year_good|].
  apply or_else_some in H as [H | [_ H]];
    eauto using try_year_month_good, try_year_only_good.
Qed.

(** The year the fallback reads. *)
Lemma fallback_year (s yr : str) :
  re_search YEAR_ANYWHERE s = Some yr ->
  exists y, int yr = Returns y /\ (1900 <= y <= 2099)%Z.
Proof.
  intros H.
  apply year_anywhere_shape in H
    as (pre & a & b & c & d & rest & _ & -> & AB & Hc & Hd).
  rewrite value4. cbn [forallb]. rewrite Hc, Hd.
  pose proof (digit_value_range c Hc). pose proof (digit_value_range d Hd).
  destruct AB as [[-> ->] | [-> ->]]; cbn [andb is_digit];
    (eexists; split; [reflexivity|]);
    change (digit_value "1") with 1%Z; change (digit_value "9") with 9%Z;
    change (digit_value "2") with 2%Z; change (digit_value "0") with 0%Z; lia.
Qed.

(** The normaliser returns, and what it returns is empty or a date. *)
Lemma normalize_returns (raw : str) :
  exists v, normalize_date_string raw = Returns v /\ (v = [] \/ well_formed v).
Proof.
  unfold normalize_date_string.
  destruct (is_empty raw); [eauto|].
  destruct (first_parse PARSERS (strip raw)) as [v|] eqn:F.
  { eauto using first_parse_good. }
  destruct (re_search YEAR_ANYWHERE (strip raw)) as [yr|] eqn:S; [|eauto].
  destruct (fallback_year _ _ S) as (y & -> & R).
  eexists. split; [reflexivity|]. right. apply fmt_date_well_formed. lia.
Qed.

(** A date is recognised as itself. *)
Lemma try_iso_canon (y m d : Z) :
  in_calendar y m d -> _try_iso (canon y m d) = Some (canon y m d).
Proof.
  intros H. pose proof H as (Hy & Hm & Hd).
  pose proof (canon_fields _ _ _ H) as F.
  rewrite canon_chars in * by lia. digit_facts.
  unfold _try_iso. rewrite iso_canonical_match.
  2:{ cbn [forallb].
      repeat match goal with
             | E : is_digit _ = true |- _ => rewrite E; clear E
             end. reflexivity. }
  cbn [group pred nth]. unfold date_fields in F. unfold _safe_int.
  destruct (int _) as [vy|]; [|discriminate].
  destruct (int _) as [vm|]; [|discriminate].
  destruct (int _) as [vd|]; [|discriminate].
  injection F as -> -> ->.
  assert (T : truthy (Some y) = Some y) by (destruct y; auto; lia).
  rewrite T, fmt_date_canon.
  assert (Cm : clamp 12 (Some m) = m).
  { simpl. destruct (Z.eqb_spec m 0); [lia|].
    destruct (Z.ltb_spec m 1); [lia|]. destruct (Z.ltb_spec 12 m); lia. }
  assert (Cd : clamp 28 (Some d) = d).
  { simpl. destruct (Z.eqb_spec d 0); [lia|].
    destruct (Z.ltb_spec d 1); [lia|]. destruct (Z.ltb_spec 28 d); lia. }
  rewrite Cm, Cd, canon_chars by lia. reflexivity.
Qed.

Lemma normalize_canon (y m d : Z) :
  in_calendar y m d ->
  normalize_date_string (canon y m d) = Returns (canon y m d).
Proof.
  intros H. unfold normalize_date_string.
  pose proof (canon_nonempty _ _ _ H) as N.
  destruct (canon y m d) as [|c v] eqn:E; [congruence|].
  cbn [is_empty]. rewrite <- E, canon_stripped, first_parse_priority by assumption.
  now rewrite try_iso_canon.
Qed.

(** * Claims on the date normaliser *)

Lemma nonempty_input (raw : str) : raw <> [] -> is_empty raw = false.
Proof. destruct raw; simpl; congruence. Qed.

(** C4.  The normaliser tries its recognisers in a fixed order, and the first
    that matches decides: ISO-like on the whole text, then the forms with a
    month name, then year and month, then the year alone; when none matches
    the whole text, the leftmost four characters reading 19xx or 20xx
    anywhere in the text give the year, with month and day 1; otherwise the
    result is empty.  The three dates of the specification come out as
    stated there. *)
Theorem normalize_priority_order :
  (forall raw v : str,
      raw <> [] -> _try_iso (strip raw) = Some v ->
      normalize_date_string raw = Returns v)
  /\ (forall raw v : str,
         raw <> [] -> _try_iso (strip raw) = None ->
         _try_month_day_year (strip raw) = Some v ->
         normalize_date_string raw = Returns v)
  /\ (forall raw v : str,
         raw <> [] -> _try_iso (strip raw) = None ->
         _try_month_day_year (strip raw) = None ->
         _try_year_month (strip raw) = Some v ->
         normalize_date_string raw = Returns v)
  /\ (forall raw v : str,
         raw <> [] -> _try_iso (strip raw) = None ->
         _try_month_day_year (strip raw) = None ->
         _try_year_month (strip raw) = None ->
         _try_year_only (strip raw) = Some v ->
         normalize_date_string raw = Returns v)
  /\ (forall raw yr : str,
         raw <> [] -> _try_iso (strip raw) = None ->
         _try_month_day_year (strip raw) = None ->
         _try_year_month (strip raw) = None ->
         _try_year_only (strip raw) = None ->
         re_search YEAR_ANYWHERE (strip raw) = Some yr ->
         exists (pre rest : str) (c d : ascii) (y : Z),
           strip raw = pre ++ yr ++ rest
           /\ (yr = ["1"; "9"; c; d]%char \/ yr = ["2"; "0"; c; d]%char)
           /\ is_digit c = true /\ is_digit d = true
           /\ int yr = Returns y
           /\ normalize_date_string raw
              = Returns (_fmt_date y (Some 1%Z) (Some 1%Z)))
  /\ (forall raw : str,
         raw <> [] -> _try_iso (strip raw) = None ->
         _try_month_day_year (strip raw) = None ->
         _try_year_month (strip raw) = None ->
         _try_year_only (strip raw) = None ->
         re_search YEAR_ANYWHERE (strip raw) = None ->
         normalize_date_string raw = Returns [])
  /\ normalize_date_string "March 5, 1990" = Returns ("1990-03-05" : str)
  /\ normalize_date_string "1990 March" = Returns ("1990-03-01" : str)
  /\ normalize_date_string "founded sometime in 2005 apparently"
     = Returns ("2005-01-01" : str).
Proof.
  split; [|split; [|split; [|split; [|split; [|split; [|split; [|split]]]]]]].
  9: vm_compute; reflexivity.
  8: vm_compute; reflexivity.
  7: vm_compute; reflexivity.
  - intros raw v N E1. unfold normalize_date_string.
    now rewrite nonempty_input, first_parse_priority, E1.
  - intros raw v N E1 E2. unfold normalize_date_string.
    now rewrite nonempty_input, first_parse_priority, E1, E2.
  - intros raw v N E1 E2 E3. unfold normalize_date_string.
    now rewrite nonempty_input, first_parse_priority, E1, E2, E3.
  - intros raw v N E1 E2 E3 E4. unfold normalize_date_string.
    now rewrite nonempty_input, first_parse_priority, E1, E2, E3, E4.
  - intros raw yr N E1 E2 E3 E4 S. unfold normalize_date_string.
    rewrite nonempty_input, first_parse_priority, E1, E2, E3, E4, S by assumption.
    cbn [or_else].
    destruct (fallback_year _ _ S) as (y & Ey & _). rewrite Ey.
    apply year_anywhere_shape in S
      as (pre & a & b & c & d & rest & Es & -> & AB & Hc & Hd).
    exists pre, rest, c, d, y. rewrite Es.
    repeat split; auto.
    destruct AB as [[-> ->] | [-> ->]]; auto.
  - intros raw N E1 E2 E3 E4 S. unfold normalize_date_string.
    now rewrite nonempty_input, first_parse_priority, E1, E2, E3, E4, S.
Qed.

Lemma normalize_priority_order_witness :
  normalize_date_string "1990/3/5" = Returns ("1990-03-05" : str).
Proof.
  apply (proj1 normalize_priority_order);
    [ discriminate | vm_compute; reflexivity ].
Defined.

(** C5.  Whenever the normaliser returns a non-empty text, the text has the
    form dddd-dd-dd with a month in 01..12 and a day in 01..28; and
    [_fmt_date] writes the year on four digits and the month and the day
    clamped into 1..12 and 1..28, each being 1 when absent or zero. *)
Theorem normalized_date_is_canonical :
  (forall raw v : str,
      normalize_date_string raw = Returns v -> v <> [] ->
      is_canonical v = true)
  /\ (forall (y : Z) (m d : option Z),
         (1 <= y <= 9999)%Z ->
         is_canonical (_fmt_date y m d) = true
         /\ date_fields (_fmt_date y m d) = Some (y, clamp 12 m, clamp 28 d)
         /\ (1 <= clamp 12 m <= 12)%Z /\ (1 <= clamp 28 d <= 28)%Z
         /\ clamp 12 None = 1%Z /\ clamp 12 (Some 0%Z) = 1%Z
         /\ clamp 28 None = 1%Z /\ clamp 28 (Some 0%Z) = 1%Z).
Proof.
  split.
  - intros raw v E N.
    destruct (normalize_returns raw) as (v' & E' & [-> | W]);
      rewrite E in E'; injection E' as ->; [congruence|].
    now apply well_formed_canonical.
  - intros y m d Hy.
    pose proof (clamp_range 12 m ltac:(lia)) as Rm.
    pose proof (clamp_range 28 d ltac:(lia)) as Rd.
    assert (C : in_calendar y (clamp 12 m) (clamp 28 d))
      by (unfold in_calendar; lia).
    rewrite fmt_date_canon.
    split; [now apply canon_is_canonical|].
    split; [now apply canon_fields|].
    split; [exact Rm|]. split; [exact Rd|].
    split; [reflexivity|]. split; [reflexivity|]. split; reflexivity.
Qed.

Lemma normalized_date_is_canonical_witness :
  is_canonical "1990-12-28" = true
  /\ is_canonical (_fmt_date 1990 (Some 13%Z) None) = true.
Proof.
  split.
  - apply (proj1 normalized_date_is_canonical "1990-13-45");
      [ vm_compute; reflexivity | discriminate ].
  - apply (proj2 normalized_date_is_canonical 1990%Z (Some 13%Z) None). lia.
Defined.

(** C6.  The normaliser is total: on every text it returns, never raises,
    and its result is the empty text or a canonical date; the empty text,
    "unknown" and "circa then" give the empty text. *)
Theorem normalize_never_raises :
  (forall raw : str,
      exists v : str,
        normalize_date_string raw = Returns v
        /\ (v = [] \/ is_canonical v = true))
  /\ normalize_date_string "" = Returns []
  /\ normalize_date_string "unknown" = Returns []
  /\ normalize_date_string "circa then" = Returns [].
Proof.
  split; [|split; [|split]]; [|vm_compute; reflexivity ..].
  intros raw. destruct (normalize_returns raw) as (v & E & [-> | W]).
  - exists []. auto.
  - exists v. split; auto. right. now apply well_formed_canonical.
Qed.

(** C10.  Normalising twice is normalising once: the normaliser returns on
    every text, and on its own result it returns that result again; a
    non-empty result is read back by the ISO-like recogniser as itself, an
    empty one stays empty. *)
Theorem normalize_idempotent :
  (forall raw : str,
      exists v : str,
        normalize_date_string raw = Returns v
        /\ normalize_date_string v = Returns v)
  /\ (forall raw v : str,
         normalize_date_string raw = Returns v -> v <> [] ->
         _try_iso v = Some v)
  /\ normalize_date_string [] = Returns [].
Proof.
  split; [|split]; [| |reflexivity].
  - intros raw. destruct (normalize_returns raw) as (v & E & [-> | W]).
    + exists []. auto.
    + exists v. split; auto.
      destruct W as (y & m & d & C & ->). now apply normalize_canon.
  - intros raw v E N.
    destruct (normalize_returns raw) as (v' & E' & [-> | W]);
      rewrite E in E'; injection E' as ->; [congruence|].
    destruct W as (y & m & d & C & ->). now apply try_iso_canon.
Qed.

Lemma normalize_idempotent_witness :
  _try_iso "2005-01-01" = Some ("2005-01-01" : str).
Proof.
  apply (proj1 (proj2 normalize_idempotent)
               "founded sometime in 2005 apparently");
    [ vm_compute; reflexivity | discriminate ].
Defined.

(** * Dictionaries *)

Lemma dict_get_set_same (V : Type) (d : list (str * V)) (k : str) (v : V) :
  dict_get (dict_set d k v) k = Some v.
Proof.
  induction d as [|[k' w] d IH]; simpl.
  - now rewrite str_eqb_refl.
  - destruct (str_eqb k' k) eqn:E; simpl; rewrite E; auto.
Qed.

Lemma dict_get_set_other (V : Type) (d : list (str * V)) (k k' : str) (v : V) :
  k <> k' -> dict_get (dict_set d k v) k' = dict_get d k'.
Proof.
  intros N. induction d as [|[k0 w] d IH]; simpl.
  - apply str_eqb_neq in N. now rewrite N.
  - destruct (str_eqb k0 k) eqn:E; simpl.
    + apply str_eqb_eq in E. subst k0. apply str_eqb_neq in N. now rewrite N.
    + destruct (str_eqb k0 k'); auto.
Qed.

Lemma dict_get_none (V : Type) (d : list (str * V)) (k : str) :
  dict_get d k = None <-> ~ In k (dict_keys d).
Proof.
  induction d as [|[k0 w] d IH]; simpl; [tauto|].
  destruct (str_eqb k0 k) eqn:E.
  - apply str_eqb_eq in E. split; [discriminate|]. intros H. exfalso. auto.
  - apply str_eqb_neq in E. rewrite IH. tauto.
Qed.

Lemma dict_set_new (V : Type) (d : list (str * V)) (k : str) (v : V) :
  dict_get d k = None -> dict_set d k v = d ++ [(k, v)].
Proof.
  induction d as [|[k0 w] d IH]; simpl; auto.
  destruct (str_eqb k0 k); [discriminate|]. intros H. now rewrite IH.
Qed.

Lemma dict_set_keys (V : Type) (d : list (str * V)) (k : str) (v w : V) :
  dict_get d k = Some w -> dict_keys (dict_set d k v) = dict_keys d.
Proof.
  induction d as [|[k0 w0] d IH]; simpl; [discriminate|].
  destruct (str_eqb k0 k); simpl; auto. intros H. now rewrite IH.
Qed.

Lemma dict_get_in (V : Type) (d : list (str * V)) (k : str) (v : V) :
  dict_get d k = Some v -> In (k, v) d.
Proof.
  induction d as [|[k0 w] d IH]; simpl; [discriminate|].
  destruct (str_eqb k0 k) eqn:E; auto.
  apply str_eqb_eq in E. intros H. injection H as ->. subst. auto.
Qed.

Lemma dict_in_get (V : Type) (d : list (str * V)) (k : str) (v : V) :
  NoDup (dict_keys d) -> In (k, v) d -> dict_get d k = Some v.
Proof.
  induction d as [|[k0 w] d IH]; simpl; [tauto|].
  intros N [H | H].
  - injection H as -> ->. now rewrite str_eqb_refl.
  - inversion N as [|? ? N1 N2]; subst.
    destruct (str_eqb k0 k) eqn:E; auto.
    apply str_eqb_eq in E. subst. exfalso. apply N1.
    change k with (fst (k, v)). now apply in_map.
Qed.

(** * Sorting *)

Section Sorting.
Variable A : Type.
Variable key : A -> str.

Local Abbreviation le := (key_le key).

Lemma key_le_trans (a b c : A) : le a b -> le b c -> le a c.
Proof. unfold key_le. intros H1 H2. eapply not_ltb_trans; eauto. Qed.

Lemma insert_by_perm (x : A) (l : list A) :
  Permutation (insert_by key x l) (x :: l).
Proof.
  induction l as [|z l IH]; simpl; auto.
  destruct (str_ltb (key x) (key z)); auto.
  rewrite IH. apply perm_swap.
Qed.

Lemma sort_by_perm_from (l acc : list A) :
  Permutation (fold_left (fun acc x => insert_by key x acc) l acc) (acc ++ l).
Proof.
  revert acc. induction l as [|x l IH]; intros acc; simpl.
  - now rewrite app_nil_r.
  - rewrite IH, insert_by_perm. apply Permutation_middle.
Qed.

(** A sort rearranges. *)
Lemma sort_by_perm (l : list A) : Permutation (sort_by key l) l.
Proof. unfold sort_by. now rewrite sort_by_perm_from. Qed.

Lemma insert_by_sorted (x : A) (l : list A) :
  Sorted le l -> Sorted le (insert_by key x l).
Proof.
  induction l as [|z l IH]; intros S; simpl.
  - repeat constructor.
  - destruct (str_ltb (key x) (key z)) eqn:E.
    + constructor; auto. constructor. unfold key_le.
      now apply str_ltb_asym.
    + inversion S as [|? ? S1 H1]; subst.
      constructor; auto.
      destruct l as [|u l]; simpl.
      * constructor. exact E.
      * destruct (str_ltb (key x) (key u)); constructor; auto.
        now inversion H1.
Qed.

Lemma sort_by_sorted_from (l acc : list A) :
  Sorted le acc ->
  Sorted le (fold_left (fun acc x => insert_by key x acc) l acc).
Proof.
  revert acc. induction l as [|x l IH]; intros acc S; simpl; auto.
  apply IH. now apply insert_by_sorted.
Qed.

(** A sort puts in order. *)
Lemma sort_by_sorted (l : list A) : Sorted le (sort_by key l).
Proof. apply sort_by_sorted_from. constructor. Qed.

Lemma insert_by_last (x : A) (l : list A) :
  (forall y, In y l -> le y x) -> insert_by key x l = l ++ [x].
Proof.
  induction l as [|z l IH]; intros H; simpl; auto.
  rewrite (H z) by (now left). rewrite IH; auto.
  intros y Hy. apply H. now right.
Qed.

Lemma sort_by_sorted_id_from (l acc : list A) :
  StronglySorted le (acc ++ l) ->
  fold_left (fun acc x => insert_by key x acc) l acc = acc ++ l.
Proof.
  revert acc. induction l as [|x l IH]; intros acc S; simpl.
  - now rewrite app_nil_r.
  - rewrite insert_by_last.
    + rewrite IH; rewrite <- app_assoc; auto.
    + intros y Hy. clear IH.
      induction acc as [|a acc IHa]; [destruct Hy|].
      simpl in S. inversion S as [|? ? S1 F]; subst.
      destruct Hy as [-> | Hy]; auto.
      rewrite Forall_forall in F. apply F, in_or_app. right. now left.
Qed.

(** Sorting a list that is in order leaves it as it is. *)
Lemma sort_by_sorted_id (l : list A) : Sorted le l -> sort_by key l = l.
Proof.
  intros S. unfold sort_by. apply (sort_by_sorted_id_from l []).
  simpl. apply Sorted_StronglySorted; auto.
  intros a b c. apply key_le_trans.
Qed.

(** In order and with distinct keys is in strict order. *)
Lemma sorted_distinct_strict (l : list A) :
  Sorted le l -> NoDup (map key l) -> Sorted (key_lt key) l.
Proof.
  induction l as [|x l IH]; intros S N; [constructor|].
  inversion S as [|? ? S1 H1]; subst. simpl in N.
  inversion N as [|? ? N1 N2]; subst.
  constructor; auto.
  destruct l as [|y l]; constructor.
  inversion H1 as [|? ? L]; subst. unfold key_le in L. unfold key_lt.
  destruct (str_ltb (key x) (key y)) eqn:E; auto.
  exfalso. apply N1. left. symmetry. now apply str_ltb_total.
Qed.
End Sorting.

(** * The merger *)

Lemma set_has_in (seen : list str) (x : str) :
  set_has seen x = true <-> In x seen.
Proof.
  unfold set_has. rewrite existsb_exists. split.
  - intros (y & Hy & E). apply str_eqb_eq in E. now subst.
  - intros H. exists x. split; auto. apply str_eqb_refl.
Qed.

Lemma min_str_cases (a b : str) : min_str a b = a \/ min_str a b = b.
Proof. unfold min_str. destruct (str_ltb b a); auto. Qed.

Lemma min_str_le_l (a b : str) : str_leb (min_str a b) a = true.
Proof.
  unfold min_str. rewrite str_leb_not_ltb.
  destruct (str_ltb b a) eqn:E.
  - now rewrite (str_ltb_asym _ _ E).
  - now rewrite str_ltb_irrefl.
Qed.

Lemma min_str_le_r (a b : str) : str_leb (min_str a b) b = true.
Proof.
  unfold min_str. rewrite str_leb_not_ltb.
  destruct (str_ltb b a) eqn:E.
  - now rewrite str_ltb_irrefl.
  - now rewrite E.
Qed.

Lemma str_leb_trans (a b c : str) :
  str_leb a b = true -> str_leb b c = true -> str_leb a c = true.
Proof.
  rewrite !str_leb_not_ltb, !negb_true_iff. intros H1 H2.
  eapply not_ltb_trans; eauto.
Qed.

Lemma str_leb_refl (a : str) : str_leb a a = true.
Proof. now rewrite str_leb_not_ltb, str_ltb_irrefl. Qed.

Lemma merge_date_empty_l (date : str) : merge_date [] date = date.
Proof. unfold merge_date. destruct date; reflexivity. Qed.

Lemma merge_date_empty_r (existing : str) : merge_date existing [] = existing.
Proof. unfold merge_date. destruct existing; reflexivity. Qed.

Lemma merge_date_both (existing date : str) :
  existing <> [] -> date <> [] ->
  merge_date existing date = min_str existing date.
Proof.
  intros H1 H2. unfold merge_date.
  apply nonempty_true in H1, H2. now rewrite H1, H2.
Qed.

(** What a fold of [merge_date] reaches from [acc]. *)
Lemma fold_merge_date (dates : list str) :
  (forall d, In d dates -> d <> []) ->
  forall acc,
    let m := fold_left merge_date dates acc in
    (m = acc \/ In m dates)
    /\ (acc <> [] -> str_leb m acc = true)
    /\ (forall d, In d dates -> str_leb m d = true)
    /\ (m = [] -> acc = [] /\ dates = []).
Proof.
  induction dates as [|d dates IH]; intros N acc; simpl.
  - split; [now left|]. split; [intros; apply str_leb_refl|].
    split; [intros d []|]. auto.
  - assert (Nd : d <> []) by (apply N; now left).
    assert (N' : forall x, In x dates -> x <> []) by (intros; apply N; now right).
    destruct (IH N' (merge_date acc d)) as (M1 & M2 & M3 & M4).
    set (m := fold_left merge_date dates (merge_date acc d)) in *.
    assert (Nm : merge_date acc d <> []).
    { destruct acc as [|c acc]; [now rewrite merge_date_empty_l|].
      rewrite merge_date_both by (auto; discriminate).
      destruct (min_str_cases (c :: acc) d) as [-> | ->]; auto. discriminate. }
    assert (Ld : str_leb (merge_date acc d) d = true).
    { destruct acc as [|c acc];
        [rewrite merge_date_empty_l; apply str_leb_refl|].
      rewrite merge_date_both by (auto; discriminate). apply min_str_le_r. }
    split; [|split; [|split]].
    + destruct M1 as [E | H]; [|auto].
      destruct acc as [|c acc].
      * rewrite merge_date_empty_l in E. auto.
      * rewrite merge_date_both in E by (auto; discriminate).
        destruct (min_str_cases (c :: acc) d) as [E' | E']; rewrite E' in E; auto.
    + intros Na. rewrite merge_date_both in * by auto.
      eapply str_leb_trans; [apply M2; auto|]. apply min_str_le_l.
    + intros x [<- | Hx]; auto.
      eapply str_leb_trans; [apply M2; auto|]. exact Ld.
    + intros E. apply M4 in E as [E _]. contradiction.
Qed.

(** The merged date is the least of the dates, or empty when there is
    none. *)
Lemma earliest_least (dates : list str) :
  (forall d, In d dates -> d <> []) ->
  (dates = [] -> earliest dates = [])
  /\ (dates <> [] ->
      In (earliest dates) dates
      /\ forall d, In d dates -> str_leb (earliest dates) d = true).
Proof.
  intros N. destruct (fold_merge_date dates N []) as (M1 & _ & M3 & M4).
  fold (earliest dates) in *. split.
  - intros ->. reflexivity.
  - intros Hd. split; auto.
    destruct M1 as [E | H]; auto.
    apply M4 in E as [_ E]. contradiction.
Qed.

Lemma earliest_snoc (dates : list str) (d : str) :
  earliest (dates ++ [d]) = merge_date (earliest dates) d.
Proof. unfold earliest. now rewrite fold_left_app. Qed.

Section MergerFacts.
Variable casefold : str -> str.

Local Abbreviation name_of r := (strip (or_default (raw_company_name r) [])).
Local Abbreviation date_of r := (strip (or_default (raw_founding_date r) [])).
Local Abbreviation founders_of r :=
  (filter nonempty (or_default (raw_founders r) [])).
Local Abbreviation key := (sort_key casefold).

(** ** Founders of one merge *)

Local Abbreviation founders_state := (founders_state casefold).

Lemma add_founder_state (st : list str * list str) (f : str) :
  founders_state st -> founders_state (add_founder casefold st f).
Proof.
  destruct st as [merged seen]. intros [S N]. unfold add_founder. simpl in *.
  destruct (set_has seen (casefold f)) eqn:E; simpl; [now split|].
  assert (Hf : ~ In (casefold f) (map casefold merged)).
  { rewrite <- S, <- set_has_in. congruence. }
  split; simpl.
  - intros x. rewrite map_app, in_app_iff, <- S. simpl. tauto.
  - rewrite map_app. simpl.
    apply NoDup_app; auto.
    + repeat constructor. auto.
    + intros x Hx [<- | []]. contradiction.
Qed.

Lemma add_founder_from (st : list str * list str) (f x : str) :
  In x (fst (add_founder casefold st f)) -> In x (fst st) \/ x = f.
Proof.
  destruct st as [merged seen]. unfold add_founder.
  destruct (set_has seen (casefold f)); simpl; auto.
  rewrite in_app_iff. simpl. intuition auto.
Qed.

Lemma fold_add_founder (incoming : list str) (st : list str * list str) :
  founders_state st ->
  founders_state (fold_left (add_founder casefold) incoming st).
Proof.
  revert st. induction incoming as [|f incoming IH]; intros st S; simpl; auto.
  apply IH. now apply add_founder_state.
Qed.

Lemma fold_add_founder_from (incoming : list str) (st : list str * list str)
      (x : str) :
  In x (fst (fold_left (add_founder casefold) incoming st)) ->
  In x (fst st) \/ In x incoming.
Proof.
  revert st. induction incoming as [|f incoming IH]; intros st H; simpl in *.
  - auto.
  - apply IH in H as [H | H]; auto.
    apply add_founder_from in H. intuition auto.
Qed.

(** Merging into a list free of repetitions leaves it free of them. *)
Lemma merge_founders_distinct (existing incoming : list str) :
  NoDup (map casefold existing) ->
  NoDup (map casefold (merge_founders casefold existing incoming)).
Proof.
  intros N. unfold merge_founders.
  apply (fold_add_founder incoming (existing, map casefold existing)).
  split; simpl; tauto.
Qed.

Lemma merge_founders_from (existing incoming : list str) (x : str) :
  In x (merge_founders casefold existing incoming) ->
  In x existing \/ In x incoming.
Proof. unfold merge_founders. apply fold_add_founder_from. Qed.
End MergerFacts.

Section MergeLoop.
Variable casefold : str -> str.

Local Abbreviation name_of r := (strip (or_default (raw_company_name r) [])).
Local Abbreviation date_of r := (strip (or_default (raw_founding_date r) [])).
Local Abbreviation founders_of r :=
  (filter nonempty (or_default (raw_founders r) [])).

Lemma in_group_key (k : str) (r : raw_record) :
  in_group casefold k r = true <->
  has_name r = true /\ casefold (name_of r) = k.
Proof.
  unfold in_group, has_name. rewrite andb_true_iff, str_eqb_eq. tauto.
Qed.

Lemma group_dates_snoc (k : str) (l : list raw_record) (r : raw_record) :
  group_dates casefold k (l ++ [r]) =
    group_dates casefold k l
    ++ (if in_group casefold k r && nonempty (date_of r)
        then [date_of r] else []).
Proof.
  unfold group_dates. rewrite filter_app, map_app, filter_app. f_equal.
  cbn [filter]. destruct (in_group casefold k r); cbn [map filter andb]; auto.
Qed.

Lemma group_dates_none (k : str) (l : list raw_record) :
  (forall r, In r l -> in_group casefold k r = false) ->
  group_dates casefold k l = [].
Proof.
  intros H. unfold group_dates.
  induction l as [|r l IH]; simpl; auto.
  rewrite (H r) by (now left). apply IH. intros; apply H; now right.
Qed.

Lemma group_dates_stripped (k : str) (l : list raw_record) (d : str) :
  In d (group_dates casefold k l) -> d <> [] /\ strip d = d.
Proof.
  unfold group_dates. rewrite filter_In, in_map_iff.
  intros [(r & <- & _) N]. split; [now apply nonempty_true|apply strip_idem].
Qed.

Lemma entry_ok_other (processed : list raw_record) (r : raw_record)
      (k : str) (e : record) :
  in_group casefold k r = false ->
  entry_ok casefold processed k e -> entry_ok casefold (processed ++ [r]) k e.
Proof.
  intros G (E1 & E2 & (r0 & I0 & E3) & E4 & E5).
  unfold entry_ok. rewrite group_dates_snoc, G. simpl. rewrite app_nil_r.
  repeat split; auto.
  exists r0. split; auto. apply in_or_app. now left.
Qed.

(** One turn of the loop keeps the dictionary as described. *)
Lemma merge_record_state (processed : list raw_record)
      (m : list (str * record)) (r : raw_record) :
  merged_state casefold processed m ->
  merged_state casefold (processed ++ [r]) (merge_record casefold m r).
Proof.
  intros (N & Ok & All). unfold merge_record.
  destruct (nonempty (name_of r)) eqn:Hn; cbn [negb].
  2:{ (* no name: the record is skipped *)
    split; [exact N|]. split.
    - intros k e H. apply entry_ok_other; auto.
      unfold in_group. now rewrite Hn.
    - intros r' H Hr'. apply in_app_or in H as [H | [<- | []]]; auto.
      unfold has_name in Hr'. congruence. }
  set (key := casefold (name_of r)).
  assert (Gr : forall k, k <> key -> in_group casefold k r = false).
  { intros k Hk. destruct (in_group casefold k r) eqn:G; auto.
    apply in_group_key in G as [_ G]. subst key. congruence. }
  assert (Gk : in_group casefold key r = true).
  { apply in_group_key. split; auto. }
  destruct (dict_get m key) as [e0|] eqn:G.
  - (* the company is known: its entry is updated *)
    pose proof (dict_get_in _ _ _ _ G) as I0.
    destruct (Ok _ _ I0) as (E1 & E2 & (r0 & R0 & E3) & E4 & E5).
    set (v := {| company_name := company_name e0;
                 founding_date := merge_date (founding_date e0) (date_of r);
                 founders := merge_founders casefold (founders e0)
                                            (founders_of r) |}).
    assert (K : dict_keys (dict_set m key v) = dict_keys m)
      by (eapply dict_set_keys; eauto).
    split; [now rewrite K|]. split.
    + intros k e H.
      assert (Gk' : dict_get (dict_set m key v) k = Some e).
      { apply dict_in_get; auto. now rewrite K. }
      destruct (list_eq_dec ascii_dec key k) as [<- | Hk].
      * rewrite dict_get_set_same in Gk'. injection Gk' as <-.
        unfold entry_ok. simpl. rewrite group_dates_snoc, Gk. simpl.
        repeat split; auto.
        -- exists r0. split; auto. apply in_or_app. now left.
        -- rewrite E4. destruct (nonempty (date_of r)) eqn:Hd.
           ++ now rewrite earliest_snoc.
           ++ apply nonempty_false in Hd. rewrite Hd, app_nil_r.
              apply merge_date_empty_r.
        -- intros f Hf. apply merge_founders_from in Hf as [Hf | Hf]; auto.
           apply filter_In in Hf as [_ Hf]. now apply nonempty_true.
      * rewrite dict_get_set_other in Gk' by auto.
        apply entry_ok_other; auto. apply Ok. now apply dict_get_in.
    + intros r' H Hr'. rewrite K.
      apply in_app_or in H as [H | [<- | []]]; auto.
      fold key. change key with (fst (key, e0)). unfold dict_keys.
      now apply in_map.
  - (* a new company: its entry goes last *)
    rewrite dict_set_new by assumption.
    pose proof (proj1 (dict_get_none _ m key) G) as Nk.
    split.
    { unfold dict_keys. rewrite map_app. simpl.
      apply NoDup_app; auto.
      - repeat constructor. auto.
      - intros x Hx [<- | []]. contradiction. }
    split.
    + intros k e H. apply in_app_or in H as [H | [H | []]].
      * apply entry_ok_other; auto. apply Gr. intros ->.
        apply Nk. change key with (fst (key, e)). now apply in_map.
      * injection H as <- <-. unfold entry_ok. simpl.
        rewrite group_dates_snoc, Gk, group_dates_none. 
        2:{ intros r' Hr'. destruct (in_group casefold key r') eqn:G'; auto.
            apply in_group_key in G' as [G1 G2]. exfalso. apply Nk.
            rewrite <- G2. now apply All. }
        simpl. repeat split; auto.
        -- now apply nonempty_true.
        -- exists r. split; auto. apply in_or_app. right. now left.
        -- destruct (nonempty (date_of r)) eqn:Hd.
           ++ unfold earliest. simpl. now rewrite merge_date_empty_l.
           ++ apply nonempty_false in Hd. now rewrite Hd.
        -- intros f Hf. apply filter_In in Hf as [_ Hf].
           now apply nonempty_true.
    + intros r' H Hr'. unfold dict_keys. rewrite map_app, in_app_iff.
      apply in_app_or in H as [H | [<- | []]]; [left; now apply All|].
      right. now left.
Qed.

Lemma merge_loop_state (rest processed : list raw_record)
      (m : list (str * record)) :
  merged_state casefold processed m ->
  merged_state casefold (processed ++ rest)
               (fold_left (merge_record casefold) rest m).
Proof.
  revert processed m. induction rest as [|r rest IH]; intros processed m S.
  - simpl. now rewrite app_nil_r.
  - simpl. replace (processed ++ r :: rest) with ((processed ++ [r]) ++ rest)
      by (now rewrite <- app_assoc).
    apply IH. now apply merge_record_state.
Qed.

(** The dictionary at the end of the loop. *)
Lemma merge_all_state (records : list raw_record) :
  merged_state casefold records (fold_left (merge_record casefold) records []).
Proof.
  apply (merge_loop_state records [] []).
  split; [constructor|]. split; [intros k e []|intros r []].
Qed.

End MergeLoop.

Section MergeResult.
Variable casefold : str -> str.

Local Abbreviation key := (sort_key casefold).
Local Abbreviation by_name records :=
  (fold_left (merge_record casefold) records []).

Lemma dedupe_records_unfold (records : list raw_record) :
  dedupe_records casefold records
  = sort_by key (dict_values (by_name records)).
Proof. reflexivity. Qed.

(** A record of the result is an entry of the dictionary. *)
Lemma dedupe_entry (records : list raw_record) (o : record) :
  In o (dedupe_records casefold records) ->
  In (key o, o) (by_name records) /\ entry_ok casefold records (key o) o.
Proof.
  rewrite dedupe_records_unfold. intros H.
  apply (Permutation_in _ (sort_by_perm _ key _)) in H.
  unfold dict_values in H. apply in_map_iff in H as ((k & e) & <- & H).
  destruct (merge_all_state casefold records) as (_ & Ok & _).
  pose proof (Ok _ _ H) as E. simpl.
  pose proof E as (Ek & _). subst k. split; assumption.
Qed.

Lemma entry_keys (processed : list raw_record) (m : list (str * record)) :
  merged_state casefold processed m ->
  map key (dict_values m) = dict_keys m.
Proof.
  intros (_ & Ok & _). unfold dict_values, dict_keys. rewrite map_map.
  apply map_ext_in. intros (k & e) H. simpl.
  destruct (Ok _ _ H) as (-> & _). reflexivity.
Qed.

Lemma dedupe_keys_distinct (records : list raw_record) :
  NoDup (map key (dedupe_records casefold records)).
Proof.
  rewrite dedupe_records_unfold.
  eapply Permutation_NoDup.
  - apply Permutation_map, Permutation_sym, sort_by_perm.
  - rewrite (entry_keys _ _ (merge_all_state casefold records)).
    apply (merge_all_state casefold records).
Qed.

Lemma dedupe_sorted (records : list raw_record) :
  Sorted (key_le key) (dedupe_records casefold records).
Proof. rewrite dedupe_records_unfold. apply sort_by_sorted. Qed.

Lemma merge_record_nameless (m : list (str * record)) (r : raw_record) :
  has_name r = false -> merge_record casefold m r = m.
Proof. unfold has_name, merge_record. now intros ->. Qed.

Lemma merge_loop_named (records : list raw_record) (m : list (str * record)) :
  fold_left (merge_record casefold) (filter has_name records) m
  = fold_left (merge_record casefold) records m.
Proof.
  revert m. induction records as [|r records IH]; intros m; simpl; auto.
  destruct (has_name r) eqn:H; simpl; auto.
  now rewrite merge_record_nameless.
Qed.

Lemma filter_all (A : Type) (f : A -> bool) (l : list A) :
  (forall x, In x l -> f x = true) -> filter f l = l.
Proof.
  induction l as [|x l IH]; intros H; simpl; auto.
  rewrite (H x) by (now left). f_equal. apply IH. intros; apply H; now right.
Qed.

Lemma dedupe_clean (records : list raw_record) (o : record) :
  In o (dedupe_records casefold records) -> clean o.
Proof.
  intros H. apply dedupe_entry in H as (_ & _ & N & (r & _ & E) & D & F).
  split; [exact N|]. split; [rewrite E; apply strip_idem|]. split; [|exact F].
  rewrite D.
  destruct (group_dates casefold (key o) records) as [|d ds] eqn:G.
  - reflexivity.
  - destruct (earliest_least (d :: ds)) as (_ & L).
    { intros x Hx. rewrite <- G in Hx.
      now apply group_dates_stripped in Hx. }
    destruct L as (L & _); [discriminate|].
    rewrite <- G in L at 2. now apply group_dates_stripped in L.
Qed.

(** Merging clean records with new names adds them as they are. *)
Lemma merge_loop_clean (l : list record) (m : list (str * record)) :
  (forall o, In o l -> clean o) ->
  NoDup (dict_keys m ++ map key l) ->
  fold_left (merge_record casefold) (map as_raw l) m
  = m ++ map (fun o => (key o, o)) l.
Proof.
  revert m. induction l as [|o l IH]; intros m C N; simpl.
  - now rewrite app_nil_r.
  - destruct (C o (or_introl eq_refl)) as (C1 & C2 & C3 & C4).
    assert (G : dict_get m (key o) = None).
    { apply dict_get_none. intros H. simpl in N.
      apply NoDup_remove_2 in N. apply N, in_or_app. now left. }
    assert (E : merge_record casefold m (as_raw o) = m ++ [(key o, o)]).
    { unfold merge_record, as_raw. cbn [or_default raw_company_name
        raw_founding_date raw_founders].
      rewrite C2, C3. apply nonempty_true in C1. rewrite C1. cbn [negb].
      fold (key o). rewrite G, dict_set_new by assumption.
      rewrite filter_all
        by (intros f Hf; apply nonempty_true; now apply C4).
      now destruct o. }
    rewrite E, IH.
    + now rewrite <- app_assoc.
    + intros o' Ho'. apply C. now right.
    + unfold dict_keys in *. rewrite map_app, <- app_assoc. exact N.
Qed.

Lemma dedupe_refeed (records : list raw_record) :
  dedupe_records casefold (map as_raw (dedupe_records casefold records))
  = dedupe_records casefold records.
Proof.
  set (out := dedupe_records casefold records).
  rewrite (dedupe_records_unfold (map as_raw out)).
  rewrite merge_loop_clean.
  - simpl. unfold dict_values. rewrite map_map. simpl. rewrite map_id.
    apply sort_by_sorted_id, dedupe_sorted.
  - intros o. apply dedupe_clean.
  - simpl. apply dedupe_keys_distinct.
Qed.

Lemma dedupe_date (records : list raw_record) (o : record) :
  In o (dedupe_records casefold records) ->
  let dates := group_dates casefold (casefold (company_name o)) records in
  (dates = [] -> founding_date o = [])
  /\ (dates <> [] ->
      In (founding_date o) dates
      /\ forall d, In d dates -> str_leb (founding_date o) d = true).
Proof.
  intros H dates. apply dedupe_entry in H as (_ & _ & _ & _ & D & _).
  fold dates in D. rewrite D. apply earliest_least.
  intros d Hd. now apply group_dates_stripped in Hd.
Qed.

End MergeResult.

Lemma merge_date_rule (existing date : str) :
  (existing <> [] -> date <> [] ->
   merge_date existing date
   = if str_leb existing date then existing else date)
  /\ (existing = [] -> merge_date existing date = date)
  /\ (date = [] -> merge_date existing date = existing).
Proof.
  split; [|split].
  - intros H1 H2. rewrite merge_date_both by assumption.
    unfold min_str. rewrite str_leb_not_ltb.
    now destruct (str_ltb date existing).
  - intros ->. apply merge_date_empty_l.
  - intros ->. apply merge_date_empty_r.
Qed.

(** * Claims on the merger *)

(** C1.  In the result of the merge, the date of a company is the least,
    in the order of texts, of the non-empty dates that the records of its
    group bring, and it is empty when they bring none; at each step, of two
    non-empty dates the smaller is kept, and of an empty and a non-empty one
    the non-empty one.  The two records of the specification, their dates
    normalised, merge into the single record it gives. *)
Theorem merged_date_is_earliest :
  (forall (fold : str -> str) (records : list raw_record) (o : record),
      In o (dedupe_records fold records) ->
      let dates := group_dates fold (fold (company_name o)) records in
      (dates = [] -> founding_date o = [])
      /\ (dates <> [] ->
          In (founding_date o) dates
          /\ forall d, In d dates -> str_leb (founding_date o) d = true))
  /\ (forall existing date : str,
         (existing <> [] -> date <> [] ->
          merge_date existing date
          = if str_leb existing date then existing else date)
         /\ (existing = [] -> merge_date existing date = date)
         /\ (date = [] -> merge_date existing date = existing))
  /\ normalize_date_string "1990" = Returns ("1990-01-01" : str)
  /\ normalize_date_string "1990-03-05" = Returns ("1990-03-05" : str)
  /\ dedupe_records casefold
       [ {| raw_company_name := Some ("Acme Inc." : str);
            raw_founding_date := Some ("1990-01-01" : str);
            raw_founders := Some [("Jane" : str)] |};
         {| raw_company_name := Some ("acme inc." : str);
            raw_founding_date := Some ("1990-03-05" : str);
            raw_founders := Some [("jane" : str); ("Bob" : str)] |} ]
     = [ {| company_name := "Acme Inc.";
            founding_date := "1990-01-01";
            founders := [("Jane" : str); ("Bob" : str)] |} ].
Proof.
  split; [exact dedupe_date|].
  split; [exact merge_date_rule|].
  split; [vm_compute; reflexivity|].
  split; vm_compute; reflexivity.
Qed.

Lemma merged_date_is_earliest_witness :
  founding_date
    {| company_name := "Acme Inc.";
       founding_date := "1990-01-01";
       founders := [("Jane" : str); ("Bob" : str)] |}
  = ("1990-01-01" : str).
Proof.
  destruct (proj1 merged_date_is_earliest casefold
              [ {| raw_company_name := Some ("Acme Inc." : str);
                   raw_founding_date := Some ("1990-01-01" : str);
                   raw_founders := Some [("Jane" : str)] |};
                {| raw_company_name := Some ("acme inc." : str);
                   raw_founding_date := Some ("1990-03-05" : str);
                   raw_founders := Some [("jane" : str); ("Bob" : str)] |} ]
              {| company_name := "Acme Inc.";
                 founding_date := "1990-01-01";
                 founders := [("Jane" : str); ("Bob" : str)] |})
    as [_ H].
  - vm_compute. left. reflexivity.
  - reflexivity.
Defined.

(** C3.  The loop that merges the founders of a record into those of an
    entry leaves the list free of repetitions up to case; but the first
    record of a group is taken with the list it has, so that a repetition in
    it reaches the result. *)
Theorem first_record_founders_not_deduplicated :
  (forall (fold : str -> str) (existing incoming : list str),
      NoDup (map fold existing) ->
      NoDup (map fold (merge_founders fold existing incoming)))
  /\ casefold "Jane" = casefold "jane"
  /\ dedupe_records casefold
       [ {| raw_company_name := Some ("Acme" : str);
            raw_founding_date := Some ("" : str);
            raw_founders := Some [("Jane" : str); ("jane" : str)] |} ]
     = [ {| company_name := "Acme";
            founding_date := "";
            founders := [("Jane" : str); ("jane" : str)] |} ].
Proof.
  split; [exact merge_founders_distinct|].
  split; vm_compute; reflexivity.
Qed.

(** C8.  The result of the merge is in ascending order of the case-folded
    company names, strictly, so that it holds at most one record for a
    case-folded trimmed name; every record of it bears the trimmed name of
    an input record that has one; and the records whose name is empty or
    blank bring nothing: without them the result is the same. *)
Theorem dedupe_sorted_one_per_name :
  forall (fold : str -> str) (records : list raw_record),
    let out := dedupe_records fold records in
    Sorted (key_le (sort_key fold)) out
    /\ Sorted (key_lt (sort_key fold)) out
    /\ NoDup (map (sort_key fold) out)
    /\ (forall o, In o out ->
          exists r, In r records /\ has_name r = true
                    /\ company_name o
                       = strip (or_default (raw_company_name r) []))
    /\ out = dedupe_records fold (filter has_name records).
Proof.
  intros fold records out.
  pose proof (dedupe_sorted fold records) as S.
  pose proof (dedupe_keys_distinct fold records) as N.
  split; [exact S|].
  split; [now apply sorted_distinct_strict|].
  split; [exact N|]. split.
  - intros o H. apply dedupe_entry in H as (_ & _ & Hn & (r & Hr & E) & _).
    exists r. repeat split; auto. unfold has_name. rewrite <- E.
    now apply nonempty_true.
  - unfold out. rewrite !dedupe_records_unfold. now rewrite merge_loop_named.
Qed.

(** C9.  The merge is idempotent: its result, fed to it again, comes out
    unchanged. *)
Theorem dedupe_idempotent :
  forall (fold : str -> str) (records : list raw_record),
    dedupe_records fold (map as_raw (dedupe_records fold records))
    = dedupe_records fold records.
Proof. exact dedupe_refeed. Qed.

(** * The separator of paragraphs *)

Lemma greedy_map (A B : Type) (f : A -> B) (p : ascii -> bool) (s : str) :
  forall lo hi (k : str -> option A),
    greedy p lo hi s (fun s' => option_map f (k s'))
    = option_map f (greedy p lo hi s k).
Proof.
  induction s as [|c s IH]; intros lo hi k; simpl.
  - now destruct lo.
  - destruct (p c && may_take hi).
    + rewrite IH. destruct (greedy p (pred lo) (one_less hi) s k); simpl; auto.
      now destruct lo.
    + now destruct lo.
Qed.

Lemma greedy_ext (A : Type) (p : ascii -> bool) (s : str) :
  forall lo hi (k1 k2 : str -> option A),
    (forall s', k1 s' = k2 s') ->
    greedy p lo hi s k1 = greedy p lo hi s k2.
Proof.
  induction s as [|c s IH]; intros lo hi k1 k2 E; simpl.
  - now rewrite E.
  - rewrite (IH (pred lo) (one_less hi) k1 k2 E). now rewrite E.
Qed.

(** The match depends on its continuation only through what it returns. *)
Lemma run_ext (A : Type) (r : regex) :
  forall (s : str) (caps : list str) (k1 k2 : str -> list str -> option A),
    (forall s' c, k1 s' c = k2 s' c) ->
    run r s caps k1 = run r s caps k2.
Proof.
  induction r as [|p|r1 IH1 r2 IH2|r1 IH1 r2 IH2|p lo hi|r IH|];
    intros s caps k1 k2 E; simpl.
  - apply E.
  - destruct s as [|c s]; auto. now rewrite E.
  - apply IH1. intros s1 c1. now apply IH2.
  - now rewrite (IH1 s caps k1 k2 E), (IH2 s caps k1 k2 E).
  - apply greedy_ext. intros s'. apply E.
  - apply IH. intros s' c. apply E.
  - now rewrite E.
Qed.

(** What the continuation does to a result can be done to the result of the
    match. *)
Lemma run_map (A B : Type) (f : A -> B) (r : regex) :
  forall (s : str) (caps : list str) (k : str -> list str -> option A),
    run r s caps (fun s' c => option_map f (k s' c))
    = option_map f (run r s caps k).
Proof.
  induction r as [|p|r1 IH1 r2 IH2|r1 IH1 r2 IH2|p lo hi|r IH|];
    intros s caps k; simpl.
  - reflexivity.
  - destruct s as [|c s]; auto. now destruct (p c).
  - rewrite <- IH1. apply run_ext. intros s1 c1. apply IH2.
  - rewrite IH1, IH2. now destruct (run r1 s caps k).
  - apply (greedy_map A B f p s lo hi (fun s' => k s' caps)).
  - apply (IH s caps
              (fun s' caps' =>
                 k s' (caps' ++ [firstn (length s - length s') s]))).
  - now destruct (at_end s).
Qed.

Lemma match_front_rest (r : regex) (s : str) :
  match_front r s
  = option_map (fun s' => firstn (length s - length s') s) (match_rest r s).
Proof.
  unfold match_front, match_rest.
  exact (run_map str str (fun s' => firstn (length s - length s') s) r s []
                 (fun s' _ => Some s')).
Qed.

Lemma match_rest_blank_lines (s : str) :
  match_rest BLANK_LINES s =
    match s with
    | c :: s' => if is_char newline c then blank_run s' else None
    | [] => None
    end.
Proof. destruct s as [|c s]; reflexivity. Qed.

Lemma newline_is_space (c : ascii) : is_char newline c = true -> is_space c = true.
Proof. intros H. apply Ascii.eqb_eq in H. now subst. Qed.

Lemma blank_run_nil : blank_run [] = None.
Proof. reflexivity. Qed.

Lemma blank_run_space (c : ascii) (s : str) :
  is_space c = true -> is_char newline c = false ->
  blank_run (c :: s) = blank_run s.
Proof.
  intros H1 H2. unfold blank_run. cbn [greedy]. rewrite H1. cbn [andb may_take].
  rewrite H2. cbn [andb].
  now destruct (greedy is_space _ _ s _).
Qed.

Lemma blank_run_other (c : ascii) (s : str) :
  is_space c = false -> blank_run (c :: s) = None.
Proof.
  intros H. unfold blank_run. cbn [greedy]. rewrite H. cbn [andb].
  destruct (is_char newline c) eqn:E; auto.
  apply newline_is_space in E. congruence.
Qed.

Lemma newlines_then_rest (s : str) :
  match s with c :: _ => is_char newline c = false | [] => True end ->
  greedy (is_char newline) 0 None s (fun s2 => Some s2) = Some s.
Proof. destruct s as [|c s]; simpl; auto. now intros ->. Qed.

Lemma newlines_some (s : str) :
  exists rest, greedy (is_char newline) 0 None s (fun s2 => Some s2) = Some rest.
Proof.
  induction s as [|c s (rest & IH)]; [simpl; eauto|].
  cbn [greedy]. destruct (is_char newline c); cbn [andb may_take pred one_less option_map];
    [rewrite IH|]; eauto.
Qed.

Lemma blank_run_newline (c : ascii) (s : str) :
  is_char newline c = true ->
  blank_run (c :: s) =
    match blank_run s with
    | Some rest => Some rest
    | None => greedy (is_char newline) 0 None s (fun s2 => Some s2)
    end.
Proof.
  intros H. unfold blank_run. cbn [greedy].
  rewrite (newline_is_space c H), H. cbn [andb may_take one_less option_map pred].
  destruct (greedy is_space _ _ s _); auto.
  destruct (newlines_some s) as (rest & ->). reflexivity.
Qed.

(** ** Lines *)

Lemma no_newline_cons (c : ascii) (l : str) :
  no_newline (c :: l) <-> is_char newline c = false /\ no_newline l.
Proof.
  unfold no_newline. simpl. rewrite andb_true_iff, negb_true_iff. tauto.
Qed.

(** Inside a line, a separator is found only through a blank line. *)
Lemma blank_run_line (l s : str) :
  no_newline l -> blank_run (l ++ s) = if blank l then blank_run s else None.
Proof.
  induction l as [|c l IH]; intros N; simpl; auto.
  apply no_newline_cons in N as [Hc N].
  destruct (is_space c) eqn:E; simpl.
  - rewrite blank_run_space by assumption. auto.
  - now apply blank_run_other.
Qed.

Lemma skip_blank_unfold (l : str) (ls : list str) :
  skip_blank (l :: ls) =
    if blank l && has_lines ls then skip_blank ls else l :: ls.
Proof.
  destruct ls as [|l2 ls]; simpl.
  - now rewrite andb_false_r.
  - now destruct (blank l).
Qed.

Lemma text_of_head (l : str) (ls : list str) :
  no_newline l ->
  match l ++ tail_text ls with
  | c :: _ => is_char newline c = false
  | [] => True
  end
  \/ (l = [] /\ has_lines ls = true).
Proof.
  intros N. destruct l as [|c l]; simpl.
  - destruct ls; simpl; auto.
  - apply no_newline_cons in N as [Hc _]. auto.
Qed.

(** The separator that starts at a newline runs through the blank lines
    that follow, up to the newline before the first line that is not blank
    or is the last. *)
Lemma blank_run_lines (ls : list str) :
  Forall no_newline ls ->
  forall l, no_newline l ->
    blank_run (l ++ tail_text ls) =
      if blank l && has_lines ls then Some (text_of (skip_blank ls)) else None.
Proof.
  induction ls as [|l2 ls IH]; intros F l N; rewrite blank_run_line by assumption.
  - simpl. rewrite andb_false_r. now destruct (blank l).
  - destruct (blank l); simpl; auto.
    inversion F as [|? ? N2 F2]; subst.
    rewrite blank_run_newline by reflexivity.
    rewrite (IH F2 l2 N2).
    destruct ls as [|l3 ls].
    + rewrite andb_false_r. simpl. rewrite app_nil_r.
      apply newlines_then_rest.
      destruct l2 as [|c l2]; simpl; auto.
      now apply no_newline_cons in N2 as [Hc _].
    + destruct (blank l2) eqn:B2; simpl; auto.
      apply newlines_then_rest.
      destruct l2 as [|c l2]; [discriminate|]. simpl.
      now apply no_newline_cons in N2 as [Hc _].
Qed.

(** * The pieces of [re.split] *)

Lemma split_from_skip (r : regex) (w s cur : str) :
  split_from r (w ++ s) cur (length w) = split_from r s cur 0.
Proof.
  induction w as [|c w IH]; simpl; auto.
Qed.

Lemma match_front_no_newline (c : ascii) (s : str) :
  is_char newline c = false -> match_front BLANK_LINES (c :: s) = None.
Proof.
  intros H. rewrite match_front_rest, match_rest_blank_lines. now rewrite H.
Qed.

(** The characters of a line go to the piece under way. *)
Lemma split_from_line (l s cur : str) :
  no_newline l ->
  split_from BLANK_LINES (l ++ s) cur 0
  = split_from BLANK_LINES s (rev l ++ cur) 0.
Proof.
  revert cur. induction l as [|c l IH]; intros cur N; simpl app; auto.
  apply no_newline_cons in N as [Hc N].
  cbn [split_from]. rewrite match_front_no_newline by assumption.
  rewrite IH by assumption. simpl. now rewrite <- app_assoc.
Qed.

Lemma skip_blank_suffix (ls : list str) :
  has_lines ls = true ->
  exists mid, tail_text ls = mid ++ newline :: text_of (skip_blank ls).
Proof.
  induction ls as [|l ls IH]; [discriminate|]. intros _.
  rewrite skip_blank_unfold.
  destruct (blank l && has_lines ls) eqn:E.
  - apply andb_true_iff in E as [_ E]. destruct (IH E) as (mid & Hm).
    exists (newline :: l ++ mid). simpl. rewrite Hm. now rewrite <- app_assoc.
  - exists []. reflexivity.
Qed.

Lemma skip_blank_shorter (ls : list str) :
  has_lines ls = true ->
  exists l' ls', skip_blank ls = l' :: ls' /\ length ls' < length ls
                 /\ (Forall no_newline ls -> no_newline l' /\ Forall no_newline ls').
Proof.
  induction ls as [|l ls IH]; [discriminate|]. intros _.
  rewrite skip_blank_unfold.
  destruct (blank l && has_lines ls) eqn:E.
  - apply andb_true_iff in E as [_ E].
    destruct (IH E) as (l' & ls' & -> & L & F).
    exists l', ls'. repeat split; simpl; try lia;
      inversion H as [|? ? N1 N2]; subst; now apply F.
  - exists l, ls. repeat split; simpl; try lia; now inversion H.
Qed.

Lemma blocks_in_separator (ls : list str) :
  blocks [] true ls =
    match skip_blank ls with
    | l' :: ls' => blocks l' false ls'
    | [] => [[]]
    end.
Proof.
  induction ls as [|l ls IH]; auto.
  rewrite skip_blank_unfold. cbn [blocks].
  destruct (blank l && has_lines ls); auto.
Qed.

(** [re.split] by lines. *)
Lemma split_from_blocks (n : nat) :
  forall (ls : list str) (acc : str),
    length ls <= n -> Forall no_newline ls ->
    split_from BLANK_LINES (tail_text ls) (rev acc) 0 = blocks acc false ls.
Proof.
  induction n as [|n IH]; intros ls acc L F.
  - destruct ls; [|simpl in L; lia]. simpl. now rewrite rev_involutive.
  - destruct ls as [|l ls]; [simpl; now rewrite rev_involutive|].
    inversion F as [|? ? N F']; subst. simpl in L.
    cbn [tail_text split_from blocks].
    rewrite match_front_rest, match_rest_blank_lines.
    change (is_char newline newline) with true. cbn iota.
    rewrite (blank_run_lines ls F' l N).
    destruct (blank l && has_lines ls) eqn:E; cbn [option_map].
    + apply andb_true_iff in E as [_ E].
      destruct (skip_blank_suffix ls E) as (mid & Hm).
      destruct (skip_blank_shorter ls E) as (l' & ls' & Hs & L' & F'').
      destruct (F'' F') as [N' Fl'].
      set (rest := text_of (skip_blank ls)) in *.
      assert (Ht : newline :: l ++ tail_text ls
                   = (newline :: l ++ mid ++ [newline]) ++ rest).
      { rewrite Hm. simpl. rewrite <- !app_assoc. reflexivity. }
      rewrite Ht, firstn_consumed. cbn [app].
      rewrite rev_involutive. f_equal.
      replace (l ++ tail_text ls) with ((l ++ mid ++ [newline]) ++ rest)
        by (rewrite Hm, <- !app_assoc; reflexivity).
      rewrite split_from_skip, blocks_in_separator.
      unfold rest. rewrite Hs. cbn [text_of].
      rewrite split_from_line by assumption. rewrite app_nil_r.
      apply IH; auto. lia.
    + rewrite split_from_line by assumption.
      replace (rev l ++ newline :: rev acc) with (rev (acc ++ newline :: l)).
      * apply IH; auto. lia.
      * rewrite rev_app_distr. simpl. now rewrite <- app_assoc.
Qed.

Lemma re_split_lines (l : str) (ls : list str) :
  no_newline l -> Forall no_newline ls ->
  re_split BLANK_LINES (text_of (l :: ls)) = blocks l false ls.
Proof.
  intros N F. unfold re_split. cbn [text_of].
  rewrite split_from_line by assumption. rewrite app_nil_r.
  now apply (split_from_blocks (length ls)).
Qed.

(** * Lines and paragraphs *)

Lemma lines_nonempty (s : str) : exists l ls, lines s = l :: ls.
Proof.
  unfold lines. induction s as [|c s (l & ls & IH)]; cbn [split_on].
  - eauto.
  - destruct (is_char newline c); [eauto|]. rewrite IH. eauto.
Qed.

Lemma lines_cons_newline (s : str) : lines (newline :: s) = [] :: lines s.
Proof. reflexivity. Qed.

Lemma lines_cons_other (c : ascii) (s l : str) (ls : list str) :
  is_char newline c = false -> lines s = l :: ls ->
  lines (c :: s) = (c :: l) :: ls.
Proof. unfold lines. cbn [split_on]. now intros -> ->. Qed.

Lemma lines_no_newline (s : str) : Forall no_newline (lines s).
Proof.
  induction s as [|c s IH].
  - repeat constructor.
  - destruct (is_char newline c) eqn:E.
    + apply Ascii.eqb_eq in E. subst c. rewrite lines_cons_newline.
      constructor; auto. reflexivity.
    + destruct (lines_nonempty s) as (l & ls & H).
      rewrite (lines_cons_other c s l ls E H). rewrite H in IH.
      inversion IH; subst. constructor; auto.
      apply no_newline_cons. auto.
Qed.

Lemma text_of_lines (s : str) : text_of (lines s) = s.
Proof.
  induction s as [|c s IH]; auto.
  destruct (lines_nonempty s) as (l & ls & H). rewrite H in IH.
  destruct (is_char newline c) eqn:E.
  - apply Ascii.eqb_eq in E. subst c. rewrite lines_cons_newline, H.
    simpl in *. now rewrite IH.
  - rewrite (lines_cons_other c s l ls E H). simpl in *. now rewrite IH.
Qed.

Lemma lines_snoc (s : str) (c : ascii) :
  lines (s ++ [c]) =
    if is_char newline c then lines s ++ [[]] else snoc_line c (lines s).
Proof.
  induction s as [|x s IH].
  - unfold lines. simpl. now destruct (is_char newline c).
  - simpl app. destruct (lines_nonempty s) as (l & ls & H).
    destruct (lines_nonempty (s ++ [c])) as (l' & ls' & H').
    destruct (is_char newline x) eqn:E.
    + apply Ascii.eqb_eq in E. subst x. rewrite !lines_cons_newline, IH.
      destruct (is_char newline c); auto.
      rewrite H. reflexivity.
    + rewrite (lines_cons_other x _ l' ls' E H'),
        (lines_cons_other x _ l ls E H).
      rewrite H' in IH. rewrite H in IH.
      destruct (is_char newline c).
      * simpl. injection IH as -> ->. reflexivity.
      * destruct ls as [|l2 ls]; simpl in *; injection IH as -> ->; reflexivity.
Qed.

Lemma join_text (l : str) (ls : list str) :
  join newline (l :: ls) = l ++ tail_text ls.
Proof.
  revert l. induction ls as [|l2 ls IH]; intros l; simpl.
  - now rewrite app_nil_r.
  - rewrite <- IH. reflexivity.
Qed.

Lemma join_snoc (cur : list str) (l : str) :
  cur <> [] -> join newline (cur ++ [l]) = join newline cur ++ newline :: l.
Proof.
  induction cur as [|x cur IH]; [congruence|]. intros _.
  destruct cur as [|y cur]; [reflexivity|].
  change (join newline ((x :: y :: cur) ++ [l]))
    with (x ++ newline :: join newline ((y :: cur) ++ [l])).
  rewrite IH by discriminate.
  change (join newline (x :: y :: cur))
    with (x ++ newline :: join newline (y :: cur)).
  now rewrite <- app_assoc.
Qed.

Lemma join_snoc_char (cur : list str) (l : str) (c : ascii) :
  join newline (cur ++ [l ++ [c]]) = join newline (cur ++ [l]) ++ [c].
Proof.
  destruct cur as [|x cur]; [reflexivity|].
  rewrite !join_snoc by discriminate.
  rewrite <- !app_assoc. reflexivity.
Qed.

Lemma blank_snoc (l : str) (c : ascii) :
  is_space c = true -> blank (l ++ [c]) = blank l.
Proof.
  intros H. unfold blank. rewrite forallb_app. simpl. rewrite H.
  now rewrite !andb_true_r.
Qed.

Lemma strip_space_front (w s : str) :
  forallb is_space w = true -> strip (w ++ s) = strip s.
Proof.
  intros H. rewrite <- (app_nil_r s) at 1. now apply strip_app_blank.
Qed.

Lemma strip_space_back (s w : str) :
  forallb is_space w = true -> strip (s ++ w) = strip s.
Proof. intros H. now apply (strip_app_blank [] s w). Qed.

Lemma trimmed_nil : trimmed [] = [].
Proof. reflexivity. Qed.

(** ** The pieces of the code and the paragraphs of the specification *)

Lemma blocks_paragraphs (ls : list str) :
  forall (acc : str) (insep : bool) (cur : list str) (w : str),
    forallb is_space w = true ->
    acc = w ++ join newline cur ->
    (insep = true -> acc = [] /\ cur = []) ->
    filter nonempty (map strip (blocks acc insep ls))
    = filter nonempty (map trimmed (paragraphs ls cur)).
Proof.
  induction ls as [|l ls IH]; intros acc insep cur w Hw Hacc Hin.
  - simpl. subst acc. now rewrite strip_space_front.
  - assert (Hhead : strip acc = trimmed cur).
    { subst acc. now apply strip_space_front. }
    cbn [blocks paragraphs].
    destruct (blank l) eqn:B; cbn [andb].
    + destruct (has_lines ls) eqn:E.
      * destruct insep.
        -- destruct (Hin eq_refl) as [-> ->].
           cbn [map filter]. rewrite trimmed_nil. cbn [nonempty is_empty negb].
           now apply (IH [] true [] []).
        -- cbn [map filter]. rewrite Hhead.
           now rewrite (IH [] true [] []).
      * destruct ls; [|discriminate]. cbn [blocks paragraphs map].
        rewrite trimmed_nil.
        destruct insep.
        -- destruct (Hin eq_refl) as [-> ->]. rewrite trimmed_nil.
           assert (Sl : strip l = []) by now apply strip_blank.
           rewrite Sl. reflexivity.
        -- subst acc. rewrite <- app_assoc.
           rewrite (strip_app_blank w (join newline cur) (newline :: l));
             [|assumption|simpl; exact B].
           fold (trimmed cur). cbn [filter nonempty is_empty negb].
           now destruct (is_empty (trimmed cur)).
    + destruct insep.
      * destruct (Hin eq_refl) as [-> ->].
        apply (IH l false [l] []); auto. discriminate.
      * destruct cur as [|x cur].
        -- apply (IH _ false [l] (w ++ [newline])).
           ++ rewrite forallb_app, Hw. reflexivity.
           ++ subst acc. simpl. now rewrite app_nil_r, <- app_assoc.
           ++ discriminate.
        -- apply (IH _ false _ w); auto; [|discriminate].
           subst acc. rewrite join_snoc by discriminate.
           now rewrite <- app_assoc.
Qed.

Lemma paragraphs_cur (ls : list str) (cur : list str) :
  paragraphs ls cur =
    match paragraphs ls [] with
    | p :: ps => (cur ++ p) :: ps
    | [] => []
    end.
Proof.
  revert cur. induction ls as [|l ls IH]; intros cur; simpl.
  - now rewrite app_nil_r.
  - destruct (blank l).
    + now rewrite app_nil_r.
    + rewrite IH, (IH [l]). destruct (paragraphs ls []); auto.
      now rewrite <- app_assoc.
Qed.

(** ** Blanks around the text *)

Lemma trimmed_space_front (c : ascii) (l : str) (p : list str) :
  is_space c = true -> trimmed ((c :: l) :: p) = trimmed (l :: p).
Proof.
  intros H. unfold trimmed. rewrite !join_text.
  apply (strip_space_front [c]). simpl. now rewrite H.
Qed.

Lemma segment_space_front (c : ascii) (s : str) :
  is_space c = true -> segment (c :: s) = segment s.
Proof.
  intros H. unfold segment.
  destruct (is_char newline c) eqn:E.
  - apply Ascii.eqb_eq in E. subst c. rewrite lines_cons_newline. reflexivity.
  - destruct (lines_nonempty s) as (l & ls & Hl).
    rewrite (lines_cons_other c s l ls E Hl), Hl. cbn [paragraphs app].
    assert (B : blank (c :: l) = blank l) by (unfold blank; simpl; now rewrite H).
    rewrite B. destruct (blank l); auto.
    rewrite (paragraphs_cur ls [(c :: l : str)]), (paragraphs_cur ls [l]).
    destruct (paragraphs ls []) as [|p ps]; auto.
    cbn [map app]. now rewrite trimmed_space_front.
Qed.

Lemma paragraphs_empty_line (ls : list str) (cur : list str) :
  filter nonempty (map trimmed (paragraphs (ls ++ [[]]) cur))
  = filter nonempty (map trimmed (paragraphs ls cur)).
Proof.
  revert cur. induction ls as [|l ls IH]; intros cur.
  - cbn [app paragraphs blank forallb map]. rewrite trimmed_nil. cbn [filter].
    destruct (nonempty (trimmed cur)); reflexivity.
  - cbn [app paragraphs]. destruct (blank l); cbn [map filter]; now rewrite IH.
Qed.

Lemma paragraphs_snoc_line (c : ascii) (ls : list str) :
  is_space c = true -> ls <> [] ->
  forall cur,
    filter nonempty (map trimmed (paragraphs (snoc_line c ls) cur))
    = filter nonempty (map trimmed (paragraphs ls cur)).
Proof.
  intros H. induction ls as [|l ls IH]; [congruence|]. intros _ cur.
  destruct ls as [|l2 ls].
  - cbn [snoc_line paragraphs]. rewrite blank_snoc by assumption.
    destruct (blank l); auto. cbn [map]. unfold trimmed.
    rewrite join_snoc_char. now rewrite strip_space_back by (simpl; now rewrite H).
  - change (snoc_line c (l :: l2 :: ls)) with (l :: snoc_line c (l2 :: ls)).
    cbn [paragraphs]. destruct (blank l).
    + cbn [map filter]. now rewrite IH by discriminate.
    + now apply IH.
Qed.

Lemma segment_space_back (s : str) (c : ascii) :
  is_space c = true -> segment (s ++ [c]) = segment s.
Proof.
  intros H. unfold segment. rewrite lines_snoc.
  destruct (is_char newline c).
  - apply paragraphs_empty_line.
  - apply paragraphs_snoc_line; auto.
    destruct (lines_nonempty s) as (l & ls & ->). discriminate.
Qed.

Lemma segment_spaces_front (w s : str) :
  forallb is_space w = true -> segment (w ++ s) = segment s.
Proof.
  induction w as [|c w IH]; simpl; auto.
  intros H. apply andb_true_iff in H as [Hc H].
  rewrite segment_space_front; auto.
Qed.

Lemma segment_spaces_back (s w : str) :
  forallb is_space w = true -> segment (s ++ w) = segment s.
Proof.
  induction w as [|c w IH] using rev_ind; intros H.
  - now rewrite app_nil_r.
  - rewrite forallb_app in H. apply andb_true_iff in H as [H Hc].
    simpl in Hc. rewrite andb_true_r in Hc.
    rewrite app_assoc, segment_space_back; auto.
Qed.

(** The blanks around the text do not change its paragraphs. *)
Lemma segment_strip (text : str) : segment (strip text) = segment text.
Proof.
  destruct (strip_split text) as (w1 & w2 & E & H1 & H2).
  rewrite E at 2.
  now rewrite segment_spaces_front, segment_spaces_back.
Qed.

Lemma filter_map_strip (bs : list str) :
  map strip (filter (fun b => nonempty (strip b)) bs)
  = filter nonempty (map strip bs).
Proof.
  induction bs as [|b bs IH]; simpl; auto.
  destruct (nonempty (strip b)); simpl; now rewrite IH.
Qed.

(** The segmenter of the code cuts the paragraphs the specification
    describes. *)
Lemma split_paragraphs_segment (text : str) :
  split_paragraphs text = segment text.
Proof.
  unfold split_paragraphs. rewrite filter_map_strip, <- segment_strip.
  set (t := strip text).
  pose proof (lines_no_newline t) as F.
  pose proof (text_of_lines t) as T.
  unfold segment.
  destruct (lines_nonempty t) as (l & ls & Hl). rewrite Hl in *.
  inversion F as [|? ? N F']; subst.
  rewrite <- T, re_split_lines by assumption.
  cbn [paragraphs].
  destruct (blank l) eqn:B.
  - cbn [map filter]. rewrite trimmed_nil. cbn [nonempty is_empty negb].
    apply (blocks_paragraphs ls l false [] l); auto.
    + simpl. now rewrite app_nil_r.
    + discriminate.
  - apply (blocks_paragraphs ls l false [l] []); auto. discriminate.
Qed.

(** * Claim on the segmenter *)

Lemma split_paragraphs_trimmed (text b : str) :
  In b (split_paragraphs text) -> b <> [] /\ strip b = b.
Proof.
  unfold split_paragraphs. rewrite in_map_iff.
  intros (x & <- & H). apply filter_In in H as [_ H].
  split; [now apply nonempty_true|apply strip_idem].
Qed.

Lemma split_paragraphs_blank (text : str) :
  forallb is_space text = true -> split_paragraphs text = [].
Proof.
  intros H. unfold split_paragraphs.
  now rewrite (proj2 (strip_blank text) H).
Qed.

(** C7.  The segmenter cuts the text at the runs of blank lines, a blank
    line being one of whitespace only: its result is the list, in the order
    of the text, of the runs of consecutive non-blank lines, each trimmed,
    the empty ones dropped.  Every block it returns is trimmed and not
    empty, and a text of whitespace only gives no block.  The two examples
    of the specification come out as stated. *)
Theorem split_paragraphs_on_blank_lines :
  (forall text : str, split_paragraphs text = segment text)
  /\ (forall text b : str,
         In b (split_paragraphs text) -> b <> [] /\ strip b = b)
  /\ (forall text : str,
         forallb is_space text = true -> split_paragraphs text = [])
  /\ split_paragraphs [] = []
  /\ split_paragraphs
       (("A" : str) ++ [newline; newline] ++ ("B" : str)
        ++ [newline; newline] ++ ("C" : str))
     = [("A" : str); ("B" : str); ("C" : str)]
  /\ split_paragraphs (("  " : str) ++ [newline; newline] ++ ("  " : str))
     = [].
Proof.
  split; [exact split_paragraphs_segment|].
  split; [exact split_paragraphs_trimmed|].
  split; [exact split_paragraphs_blank|].
  split; [reflexivity|]. split; vm_compute; reflexivity.
Qed.

Lemma split_paragraphs_on_blank_lines_witness :
  split_paragraphs (("  " : str) ++ [newline; newline] ++ ("  " : str)) = [].
Proof.
  apply (proj1 (proj2 (proj2 split_paragraphs_on_blank_lines))).
  vm_compute. reflexivity.
Defined.

(** * Claim on the coercion of founders *)

Lemma filter_true_strings (l : list str) :
  (forall x, In x l -> x <> []) -> filter is_true (map PStr l) = map PStr l.
Proof.
  induction l as [|x l IH]; intros H; simpl; auto.
  assert (Hx : nonempty x = true) by (apply nonempty_true, H; now left).
  rewrite Hx, IH; auto. intros y Hy. apply H. now right.
Qed.

Lemma bracketed_nonempty (text : str) :
  startswith "[" text = true -> nonempty text = true.
Proof. destruct text; [discriminate|reflexivity]. Qed.

Section CoercionFacts.
Variable loads : str -> outcome pyobj.

Lemma coerce_founders_of_text (s : str) :
  coerce_founders loads (FoundersText s) = filter is_true (coerce_text loads s).
Proof.
  destruct s as [|c s]; [|reflexivity].
  unfold coerce_founders, coerce_text. reflexivity.
Qed.

Lemma coerce_parsed (s : str) (parsed : list pyobj) :
  startswith "[" (strip s) && endswith "]" (strip s) = true ->
  loads (replace "'" dquote (strip s)) = Returns (PList parsed) ->
  coerce_founders loads (FoundersText s) = filter is_true parsed.
Proof.
  intros B L. rewrite coerce_founders_of_text. unfold coerce_text.
  now rewrite B, L.
Qed.

Lemma coerce_not_a_list (s : str) (v : pyobj) :
  startswith "[" (strip s) && endswith "]" (strip s) = true ->
  loads (replace "'" dquote (strip s)) = Returns v ->
  (forall l, v <> PList l) ->
  coerce_founders loads (FoundersText s) = [PStr (strip s)].
Proof.
  intros B L N. rewrite coerce_founders_of_text. unfold coerce_text.
  rewrite B, L. apply andb_true_iff in B as [B _].
  apply bracketed_nonempty in B.
  destruct v; try (simpl; now rewrite B). now destruct (N l).
Qed.

Lemma coerce_parse_failure (s : str) :
  startswith "[" (strip s) && endswith "]" (strip s) = true ->
  loads (replace "'" dquote (strip s)) = Raises ->
  coerce_founders loads (FoundersText s) = [PStr (strip s)].
Proof.
  intros B L. rewrite coerce_founders_of_text. unfold coerce_text.
  rewrite B, L. apply andb_true_iff in B as [B _].
  apply bracketed_nonempty in B. simpl. now rewrite B.
Qed.

Lemma coerce_not_bracketed (s : str) :
  startswith "[" (strip s) && endswith "]" (strip s) = false ->
  coerce_founders loads (FoundersText s)
  = map PStr (filter nonempty (map strip (split_on "," (strip s)))).
Proof.
  intros B. rewrite coerce_founders_of_text. unfold coerce_text. rewrite B.
  apply filter_true_strings. intros x Hx.
  apply filter_In in Hx as [_ Hx]. now apply nonempty_true.
Qed.

Lemma coerce_all_true (v : founders_value) (x : pyobj) :
  In x (coerce_founders loads v) -> is_true x = true.
Proof. unfold coerce_founders. intros H. now apply filter_In in H. Qed.

End CoercionFacts.

(** C2, as the code has it.  A founders field that is a single text is
    trimmed.  When it starts with [[] and ends with []], its single quotes
    become double quotes and it is read as JSON: the list read gives the
    founders; when the reading fails, or gives no list, the founders are the
    trimmed text alone, and the text is not split.  When it is not
    bracketed, it is split at its commas and each piece is trimmed.  What is
    empty is dropped in every case.  The two texts of the specification
    give Alice and Bob, whichever quotes the bracketed one uses. *)
Theorem coerce_founders_text :
  (forall (loads : str -> outcome pyobj) (s : str),
      let text := strip s in
      let bracketed := startswith "[" text && endswith "]" text in
      (forall parsed,
          bracketed = true ->
          loads (replace "'" dquote text) = Returns (PList parsed) ->
          coerce_founders loads (FoundersText s) = filter is_true parsed)
      /\ (forall v,
             bracketed = true ->
             loads (replace "'" dquote text) = Returns v ->
             (forall l, v <> PList l) ->
             coerce_founders loads (FoundersText s) = [PStr text])
      /\ (bracketed = true ->
          loads (replace "'" dquote text) = Raises ->
          coerce_founders loads (FoundersText s) = [PStr text])
      /\ (bracketed = false ->
          coerce_founders loads (FoundersText s)
          = map PStr (filter nonempty (map strip (split_on "," text))))
      /\ (forall x, In x (coerce_founders loads (FoundersText s)) ->
                    is_true x = true))
  /\ coerce_founders json_loads (FoundersText "['Alice', 'Bob']")
     = [PStr "Alice"; PStr "Bob"]
  /\ coerce_founders json_loads
       (FoundersText (("[" : str) ++ [dquote] ++ ("Alice" : str) ++ [dquote]
                      ++ (", 'Bob']" : str)))
     = [PStr "Alice"; PStr "Bob"]
  /\ coerce_founders json_loads (FoundersText "Alice, Bob")
     = [PStr "Alice"; PStr "Bob"].
Proof.
  split.
  - intros loads s text bracketed.
    split; [intros parsed; apply coerce_parsed|].
    split; [intros v; apply coerce_not_a_list|].
    split; [apply coerce_parse_failure|].
    split; [apply coerce_not_bracketed|].
    apply coerce_all_true.
  - split; [vm_compute; reflexivity|]. split; vm_compute; reflexivity.
Qed.

Lemma coerce_founders_text_witness :
  coerce_founders json_loads (FoundersText "[Alice, Bob]")
  = [PStr "[Alice, Bob]"].
Proof.
  apply (proj1 (proj2 (proj2 (proj1 coerce_founders_text json_loads
                                    "[Alice, Bob]"))));
    vm_compute; reflexivity.
Defined.

(** The claim C2 as the specification words it fails: a bracketed text that
    is not JSON is kept whole, where splitting it at its commas would give
    two names. *)
Lemma bracketed_text_is_not_split :
  startswith "[" (strip "[Alice, Bob]") && endswith "]" (strip "[Alice, Bob]")
  = true
  /\ json_loads (replace "'" dquote (strip "[Alice, Bob]")) = Raises
  /\ coerce_founders json_loads (FoundersText "[Alice, Bob]")
     = [PStr "[Alice, Bob]"]
  /\ filter is_true (comma_split "[Alice, Bob]")
     = [PStr "[Alice"; PStr "Bob]"]
  /\ coerce_founders json_loads (FoundersText "[Alice, Bob]")
     <> filter is_true (comma_split "[Alice, Bob]").
Proof.
  split; [vm_compute; reflexivity|]. split; [vm_compute; reflexivity|].
  split; [vm_compute; reflexivity|]. split; [vm_compute; reflexivity|].
  vm_compute. discriminate.
Qed.

(** * Further properties of the date normaliser *)

Lemma digit_char_compare (a b : Z) :
  (0 <= a <= 9)%Z -> (0 <= b <= 9)%Z ->
  Ascii.compare (digit_char a) (digit_char b) = (a ?= b)%Z.
Proof.
  intros Ha Hb. unfold Ascii.compare, digit_char.
  rewrite !N_ascii_embedding by lia.
  rewrite Z2N.inj_compare by lia.
  apply Z.add_compare_mono_l.
Qed.

Lemma digits4 (y : Z) :
  (0 <= y <= 9999)%Z ->
  (y = 1000 * (y / 1000) + 100 * (y / 100 mod 10) + 10 * (y / 10 mod 10)
       + y mod 10
   /\ 0 <= y / 1000 <= 9 /\ 0 <= y / 100 mod 10 <= 9
   /\ 0 <= y / 10 mod 10 <= 9 /\ 0 <= y mod 10 <= 9)%Z.
Proof. intros H. Z.div_mod_to_equations. lia. Qed.

Lemma digits2 (m : Z) :
  (0 <= m <= 99)%Z ->
  (m = 10 * (m / 10) + m mod 10 /\ 0 <= m / 10 <= 9 /\ 0 <= m mod 10 <= 9)%Z.
Proof. intros H. Z.div_mod_to_equations. lia. Qed.

(** Decide the comparison at the head of a lexicographic comparison. *)
Ltac split_compare a b :=
  destruct (Z.compare_spec a b); cbn iota;
  [ | split; [ intros _; lia | reflexivity ]
    | split; [ discriminate | intros ?; exfalso; lia ] ].

Lemma canon_order (y m d y' m' d' : Z) :
  (0 <= y <= 9999)%Z -> (0 <= m <= 99)%Z -> (0 <= d <= 99)%Z ->
  (0 <= y' <= 9999)%Z -> (0 <= m' <= 99)%Z -> (0 <= d' <= 99)%Z ->
  str_ltb (canon y m d) (canon y' m' d') = true
  <-> earlier (y, m, d) (y', m', d').
Proof.
  intros Hy Hm Hd Hy' Hm' Hd'. rewrite !canon_chars by assumption.
  unfold str_ltb, String.ltb, earlier.
  cbn [string_of_list_ascii String.compare].
  destruct (digits4 y Hy) as (Ey & A1 & A2 & A3 & A4).
  destruct (digits4 y' Hy') as (Ey' & B1 & B2 & B3 & B4).
  destruct (digits2 m Hm) as (Em & A5 & A6).
  destruct (digits2 m' Hm') as (Em' & B5 & B6).
  destruct (digits2 d Hd) as (Ed & A7 & A8).
  destruct (digits2 d' Hd') as (Ed' & B7 & B8).
  rewrite !digit_char_compare by assumption.
  change ("-" ?= "-")%char with Eq. cbn iota.
  set (y1 := (y / 1000)%Z) in *. set (y1' := (y' / 1000)%Z) in *.
  set (y2 := (y / 100 mod 10)%Z) in *. set (y2' := (y' / 100 mod 10)%Z) in *.
  set (y3 := (y / 10 mod 10)%Z) in *. set (y3' := (y' / 10 mod 10)%Z) in *.
  set (y4 := (y mod 10)%Z) in *. set (y4' := (y' mod 10)%Z) in *.
  set (m1 := (m / 10)%Z) in *. set (m1' := (m' / 10)%Z) in *.
  set (m2 := (m mod 10)%Z) in *. set (m2' := (m' mod 10)%Z) in *.
  set (d1 := (d / 10)%Z) in *. set (d1' := (d' / 10)%Z) in *.
  set (d2 := (d mod 10)%Z) in *. set (d2' := (d' mod 10)%Z) in *.
  clearbody y1 y1' y2 y2' y3 y3' y4 y4' m1 m1' m2 m2' d1 d1' d2 d2'.
  split_compare y1 y1'. split_compare y2 y2'. split_compare y3 y3'.
  split_compare y4 y4'. split_compare m1 m1'. split_compare m2 m2'.
  split_compare d1 d1'. split_compare d2 d2'.
  split; [discriminate | intros ?; exfalso; lia].
Qed.

(** X1.  The texts [_fmt_date] writes for years 0 to 9999 are ordered as
    texts exactly as their dates are on the calendar, the month and the day
    being those it has clamped: this is what [min] on two dates relies on in
    the merger. *)
Theorem fmt_date_order_is_chronological (y y' : Z) (m d m' d' : option Z) :
  (0 <= y <= 9999)%Z -> (0 <= y' <= 9999)%Z ->
  str_ltb (_fmt_date y m d) (_fmt_date y' m' d') = true
  <-> earlier (y, clamp 12 m, clamp 28 d) (y', clamp 12 m', clamp 28 d').
Proof.
  intros Hy Hy'. rewrite !fmt_date_canon.
  pose proof (clamp_range 12 m). pose proof (clamp_range 28 d).
  pose proof (clamp_range 12 m'). pose proof (clamp_range 28 d').
  apply canon_order; lia.
Qed.

Lemma fmt_date_order_is_chronological_witness :
  str_ltb (_fmt_date 1990 None None) (_fmt_date 1990 (Some 3%Z) (Some 5%Z))
  = true.
Proof.
  apply (fmt_date_order_is_chronological 1990 1990 None None
           (Some 3%Z) (Some 5%Z)); [lia | lia | simpl; lia].
Defined.

(** ** Whitespace around a date *)

Lemma first_parse_nil : first_parse PARSERS [] = None.
Proof. vm_compute. reflexivity. Qed.

Lemma normalize_blank (raw : str) :
  strip raw = [] -> normalize_date_string raw = Returns [].
Proof.
  intros E. unfold normalize_date_string. rewrite E, first_parse_nil.
  destruct (is_empty raw); reflexivity.
Qed.

Lemma normalize_strip (raw : str) :
  normalize_date_string raw = normalize_date_string (strip raw).
Proof.
  destruct (strip raw) as [|c s] eqn:E.
  - now rewrite normalize_blank.
  - rewrite <- E. unfold normalize_date_string at 2.
    rewrite strip_idem, E. cbn [is_empty]. rewrite <- E.
    unfold normalize_date_string.
    destruct raw; [discriminate E|reflexivity].
Qed.

(** X2.  The normaliser does not see the whitespace around its argument: a
    text and the same text trimmed have the same result, and a text of
    whitespace only has the empty result. *)
Theorem normalize_ignores_outer_whitespace (raw : str) :
  normalize_date_string raw = normalize_date_string (strip raw)
  /\ (forallb is_space raw = true -> normalize_date_string raw = Returns []).
Proof.
  split; [apply normalize_strip|].
  intros H. apply normalize_blank. now apply strip_blank.
Qed.

Lemma normalize_ignores_outer_whitespace_witness :
  normalize_date_string "   " = Returns [].
Proof.
  apply (proj2 (normalize_ignores_outer_whitespace "   ")). reflexivity.
Defined.

(** ** Month names *)

Lemma lower_char_space (c : ascii) : is_space (lower_char c) = is_space c.
Proof.
  destruct c as [[] [] [] [] [] [] [] []]; vm_compute; reflexivity.
Qed.

Lemma lower_char_idem (c : ascii) : lower_char (lower_char c) = lower_char c.
Proof.
  destruct c as [[] [] [] [] [] [] [] []]; vm_compute; reflexivity.
Qed.

Lemma lower_idem (s : str) : lower (lower s) = lower s.
Proof.
  unfold lower. rewrite map_map. apply map_ext. apply lower_char_idem.
Qed.

Lemma lstrip_lower (s : str) : lstrip (lower s) = lower (lstrip s).
Proof.
  induction s as [|c s IH]; [reflexivity|].
  cbn [lower map lstrip]. rewrite lower_char_space.
  destruct (is_space c); [exact IH|reflexivity].
Qed.

Lemma strip_lower (s : str) : strip (lower s) = lower (strip s).
Proof.
  unfold strip, rstrip. rewrite lstrip_lower. unfold lower at 1.
  rewrite <- map_rev. fold (lower (rev (lstrip s))).
  rewrite lstrip_lower. unfold lower. now rewrite map_rev.
Qed.

(** X3.  [_month_to_num] reads a month name whatever its case and whatever
    whitespace surrounds it, and a number it gives is between 1 and 12. *)
Theorem month_to_num_insensitive (token w1 w2 : str) :
  forallb is_space w1 = true -> forallb is_space w2 = true ->
  _month_to_num (w1 ++ token ++ w2) = _month_to_num token
  /\ _month_to_num (lower token) = _month_to_num token
  /\ (forall other, lower other = lower token ->
                    _month_to_num other = _month_to_num token)
  /\ (forall v, _month_to_num token = Some v -> (1 <= v <= 12)%Z).
Proof.
  intros H1 H2. unfold _month_to_num.
  split; [now rewrite strip_app_blank|].
  split; [now rewrite strip_lower, lower_idem|].
  split; [|apply month_to_num_range].
  intros other E. now rewrite <- !strip_lower, E.
Qed.

Lemma month_to_num_insensitive_witness :
  _month_to_num " MaRcH " = _month_to_num "MaRcH".
Proof.
  apply (proj1 (month_to_num_insensitive "MaRcH" " " " " eq_refl eq_refl)).
Defined.

(** ** Where the year of a date comes from *)

Lemma occurs_here (y post : str) : occurs y (y ++ post).
Proof. now exists [], post. Qed.

Lemma occurs_app (y w s : str) : occurs y s -> occurs y (w ++ s).
Proof.
  intros (pre & post & ->). exists (w ++ pre), post. now rewrite app_assoc.
Qed.

Lemma occurs_cons (y : str) (c : ascii) (s : str) :
  occurs y s -> occurs y (c :: s).
Proof. apply (occurs_app y [c] s). Qed.

Lemma occurs_trans (y s t : str) : occurs y s -> occurs s t -> occurs y t.
Proof.
  intros (p1 & q1 & ->) (p2 & q2 & ->). exists (p2 ++ p1), (q1 ++ q2).
  now rewrite <- !app_assoc.
Qed.

Lemma occurs_strip (s : str) : occurs (strip s) s.
Proof. destruct (strip_split s) as (w1 & w2 & E & _). now exists w1, w2. Qed.

(** Find the group [y] in a text written as a chain of pieces. *)
Ltac find_group :=
  repeat first [ apply occurs_here | apply occurs_app | apply occurs_cons ].

Lemma iso_year (s : str) (m : list str) :
  re_match ISO s = Some m -> occurs (group m 1) s.
Proof.
  intros H. invert_match H. injection H as <-.
  rewrite firstn_consumed. cbn [group pred nth]. find_group.
Qed.

Lemma year_month_year (s : str) (m : list str) :
  re_match YEAR_MONTH s = Some m -> occurs (group m 1) s.
Proof.
  intros H. invert_match H. injection H as <-.
  rewrite firstn_consumed. cbn [group pred nth]. find_group.
Qed.

Lemma month_year_year (s : str) (m : list str) :
  re_match MONTH_YEAR s = Some m -> occurs (group m 2) s.
Proof.
  intros H. invert_match H. injection H as <-.
  rewrite firstn_consumed, firstn_consumed. cbn [group pred nth]. find_group.
Qed.

Lemma year_monthname_year (s : str) (m : list str) :
  re_match YEAR_MONTHNAME s = Some m -> occurs (group m 1) s.
Proof.
  intros H. invert_match H. injection H as <-.
  rewrite firstn_consumed. cbn [group pred nth]. find_group.
Qed.

Lemma month_day_year_year (s : str) (m : list str) :
  re_match MONTH_DAY_YEAR s = Some m -> occurs (group m 3) s.
Proof.
  intros H. invert_match H. injection H as <-.
  rewrite firstn_consumed, firstn_consumed, firstn_consumed.
  cbn [group pred nth]. find_group.
Qed.

Lemma day_month_year_year (s : str) (m : list str) :
  re_match DAY_MONTH_YEAR s = Some m -> occurs (group m 3) s.
Proof.
  intros H. invert_match H. injection H as <-.
  rewrite firstn_consumed, firstn_consumed, firstn_consumed.
  cbn [group pred nth]. find_group.
Qed.

Lemma year_only_year (s : str) (m : list str) :
  re_match YEAR_ONLY s = Some m -> occurs (group m 1) s.
Proof.
  intros H. invert_match H. injection H as <-.
  rewrite firstn_consumed. cbn [group pred nth]. find_group.
Qed.

Lemma truthy_int (x : str) (v : Z) :
  truthy (_safe_int x) = Some v -> int x = Returns v.
Proof.
  intros H. apply truthy_some in H as [H _]. unfold _safe_int in H.
  destruct (int x); congruence.
Qed.

Lemma year_group (s y : str) (v : Z) :
  occurs y s -> all_digits y -> length y = 4 ->
  truthy (_safe_int y) = Some v ->
  year_read s v /\ (1 <= v <= 9999)%Z.
Proof.
  intros O D L T. split.
  - exists y. auto using truthy_int.
  - eapply truthy_year; eauto.
Qed.

Lemma try_iso_year (s v : str) : _try_iso s = Some v -> dated s v.
Proof.
  unfold _try_iso. destruct (re_match ISO s) as [m|] eqn:M; [|discriminate].
  pose proof (iso_year _ _ M) as O.
  apply iso_shape in M as (y & mo & d & -> & Dy & Ly & _).
  cbn [group pred nth] in *.
  destruct (truthy (_safe_int y)) as [vy|] eqn:T; [|discriminate].
  intros H. injection H as <-.
  destruct (year_group _ _ _ O Dy Ly T). do 3 eexists. eauto.
Qed.

Lemma try_year_only_year (s v : str) : _try_year_only s = Some v -> dated s v.
Proof.
  unfold _try_year_only.
  destruct (re_match YEAR_ONLY s) as [m|] eqn:M; [|discriminate].
  pose proof (year_only_year _ _ M) as O.
  apply year_only_shape in M as (y & -> & Dy & Ly).
  cbn [group pred nth] in *.
  destruct (truthy (_safe_int y)) as [vy|] eqn:T; [|discriminate].
  intros H. injection H as <-.
  destruct (year_group _ _ _ O Dy Ly T). do 3 eexists. eauto.
Qed.

Lemma try_year_month_year (s v : str) : _try_year_month s = Some v -> dated s v.
Proof.
  unfold _try_year_month. intros H.
  apply or_else_some in H as [H | [_ H]];
    [| apply or_else_some in H as [H | [_ H]]].
  - destruct (re_match YEAR_MONTH s) as [m|] eqn:M; [|discriminate].
    pose proof (year_month_year _ _ M) as O.
    apply year_month_shape in M as (y & mo & -> & Dy & Ly & _).
    cbn [group pred nth] in *.
    destruct (truthy (_safe_int y)) as [vy|] eqn:T; [|discriminate].
    injection H as <-.
    destruct (year_group _ _ _ O Dy Ly T). do 3 eexists. eauto.
  - destruct (re_match MONTH_YEAR s) as [m|] eqn:M; [|discriminate].
    pose proof (month_year_year _ _ M) as O.
    apply month_year_shape in M as (name & y & -> & Dy & Ly).
    cbn [group pred nth] in *.
    destruct (truthy (_safe_int y)) as [vy|] eqn:T; [|discriminate].
    destruct (truthy (_month_to_num name)); [|discriminate].
    injection H as <-.
    destruct (year_group _ _ _ O Dy Ly T). do 3 eexists. eauto.
  - destruct (re_match YEAR_MONTHNAME s) as [m|] eqn:M; [|discriminate].
    pose proof (year_monthname_year _ _ M) as O.
    apply year_monthname_shape in M as (y & name & -> & Dy & Ly).
    cbn [group pred nth] in *.
    destruct (truthy (_safe_int y)) as [vy|] eqn:T; [|discriminate].
    destruct (truthy (_month_to_num name)); [|discriminate].
    injection H as <-.
    destruct (year_group _ _ _ O Dy Ly T). do 3 eexists. eauto.
Qed.

Lemma try_month_day_year_year (s v : str) :
  _try_month_day_year s = Some v -> dated s v.
Proof.
  unfold _try_month_day_year. intros H.
  apply or_else_some in H as [H | [_ H]].
  - destruct (re_match MONTH_DAY_YEAR s) as [m|] eqn:M; [|discriminate].
    pose proof (month_day_year_year _ _ M) as O.
    apply month_day_year_shape in M as (name & d & y & -> & _ & _ & Dy & Ly).
    cbn [group pred nth] in *.
    destruct (truthy (_safe_int y)) as [vy|] eqn:T; [|discriminate].
    destruct (truthy (_month_to_num name)); [|discriminate].
    destruct (truthy (_safe_int d)); [|discriminate].
    injection H as <-.
    destruct (year_group _ _ _ O Dy Ly T). do 3 eexists. eauto.
  - destruct (re_match DAY_MONTH_YEAR s) as [m|] eqn:M; [|discriminate].
    pose proof (day_month_year_year _ _ M) as O.
    apply day_month_year_shape in M as (d & name & y & -> & _ & _ & Dy & Ly).
    cbn [group pred nth] in *.
    destruct (truthy (_safe_int y)) as [vy|] eqn:T; [|discriminate].
    destruct (truthy (_month_to_num name)); [|discriminate].
    destruct (truthy (_safe_int d)); [|discriminate].
    injection H as <-.
    destruct (year_group _ _ _ O Dy Ly T). do 3 eexists. eauto.
Qed.

Lemma first_parse_year (s v : str) : first_parse PARSERS s = Some v -> dated s v.
Proof.
  rewrite first_parse_priority. intros H.
  apply or_else_some in H as [H | [_ H]]; [eauto using try_iso_year|].
  apply or_else_some in H as [H | [_ H]]; [eauto using try_month_day_year_year|].
  apply or_else_some in H as [H | [_ H]];
    eauto using try_year_month_year, try_year_only_year.
Qed.

Lemma fallback_year_read (s yr : str) :
  re_search YEAR_ANYWHERE s = Some yr ->
  exists y, int yr = Returns y /\ (1900 <= y <= 2099)%Z /\ year_read s y.
Proof.
  intros H. destruct (fallback_year _ _ H) as (y & E & R).
  exists y. split; [exact E|]. split; [exact R|].
  apply year_anywhere_shape in H
    as (pre & a & b & c & d & rest & -> & -> & AB & Hc & Hd).
  exists [a; b; c; d]. split; [now exists pre, rest|].
  split; [reflexivity|]. split; [|exact E].
  unfold all_digits. cbn [forallb]. rewrite Hc, Hd.
  destruct AB as [[-> ->] | [-> ->]]; reflexivity.
Qed.

Lemma year_read_within (s t : str) (y : Z) :
  occurs s t -> year_read s y -> year_read t y.
Proof.
  intros O (yr & Oy & H). exists yr. split; [|exact H].
  eapply occurs_trans; eauto.
Qed.

(** X4.  The normaliser never makes a year up: a date it returns bears the
    year that four consecutive digits of the text read, between 1 and 9999,
    with a month and a day in their ranges. *)
Theorem normalized_year_is_read_from_text (raw v : str) :
  normalize_date_string raw = Returns v -> v <> [] ->
  exists y m d,
    year_read raw y /\ date_fields v = Some (y, m, d)
    /\ (1 <= y <= 9999)%Z /\ (1 <= m <= 12)%Z /\ (1 <= d <= 28)%Z.
Proof.
  intros E N.
  assert (D : dated (strip raw) v).
  { revert E. unfold normalize_date_string.
    destruct (is_empty raw); [intros [= <-]; congruence|].
    destruct (first_parse PARSERS (strip raw)) as [v'|] eqn:F.
    { intros [= <-]. now apply first_parse_year. }
    destruct (re_search YEAR_ANYWHERE (strip raw)) as [yr|] eqn:S;
      [|intros [= <-]; congruence].
    destruct (fallback_year_read _ _ S) as (y & -> & R & Y).
    intros [= <-]. exists y, (Some 1%Z), (Some 1%Z).
    split; [exact Y|]. split; [lia|reflexivity]. }
  destruct D as (y & mo & d & Y & R & ->).
  exists y, (clamp 12 mo), (clamp 28 d).
  pose proof (clamp_range 12 mo ltac:(lia)) as Rm.
  pose proof (clamp_range 28 d ltac:(lia)) as Rd.
  split; [exact (year_read_within _ _ _ (occurs_strip raw) Y)|].
  split; [|auto]. rewrite fmt_date_canon. apply canon_fields.
  unfold in_calendar. lia.
Qed.

Lemma normalized_year_is_read_from_text_witness :
  exists y m d,
    year_read "est. 1998 in Ohio" y
    /\ date_fields "1998-01-01" = Some (y, m, d)
    /\ (1 <= y <= 9999)%Z /\ (1 <= m <= 12)%Z /\ (1 <= d <= 28)%Z.
Proof.
  apply (normalized_year_is_read_from_text "est. 1998 in Ohio" "1998-01-01");
    [ vm_compute; reflexivity | discriminate ].
Defined.

(** ** Dates in figures *)

(** Feed the repetition at the head of the goal the longest run of the
    text that it can be shown to take. *)
Ltac take_run :=
  match goal with
  | |- greedy _ _ _ (?a :: ?b :: ?c :: ?d :: _) _ = _ =>
      first [ take [a; b; c; d] | take [a; b] | take [a] | take (@nil ascii) ]
  | |- greedy _ _ _ (?a :: ?b :: _) _ = _ =>
      first [ take [a; b] | take [a] | take (@nil ascii) ]
  | |- greedy _ _ _ (?a :: _) _ = _ =>
      first [ take [a] | take (@nil ascii) ]
  | |- greedy _ _ _ _ _ = _ => take (@nil ascii)
  end.

Lemma short_digits (x : str) :
  all_digits x -> 1 <= length x <= 2 ->
  (exists a, x = [a] /\ is_digit a = true)
  \/ (exists a b, x = [a; b] /\ is_digit a = true /\ is_digit b = true).
Proof.
  unfold all_digits. intros D L.
  destruct x as [|a [|b [|c x]]]; simpl in L; try lia; cbn [forallb] in D.
  - left. exists a. rewrite andb_true_r in D. auto.
  - right. exists a, b. apply andb_true_iff in D as [Da Db].
    rewrite andb_true_r in Db. auto.
Qed.

Lemma year_digits (x : str) :
  all_digits x -> length x = 4 ->
  exists a b c e, x = [a; b; c; e] /\ is_digit a = true /\ is_digit b = true
                  /\ is_digit c = true /\ is_digit e = true.
Proof.
  unfold all_digits. intros D L.
  destruct x as [|a [|b [|c [|e [|f x]]]]]; simpl in L; try lia.
  cbn [forallb] in D. rewrite andb_true_r in D.
  apply andb_true_iff in D as [Da D]. apply andb_true_iff in D as [Db D].
  apply andb_true_iff in D as [Dc De]. exists a, b, c, e. auto.
Qed.

Lemma iso_match (Y M D : str) (s1 s2 : ascii) :
  all_digits Y -> length Y = 4 ->
  all_digits M -> 1 <= length M <= 2 ->
  all_digits D -> 1 <= length D <= 2 ->
  (s1 = "-" \/ s1 = "/")%char -> (s2 = "-" \/ s2 = "/")%char ->
  re_match ISO (Y ++ s1 :: M ++ s2 :: D) = Some [Y; M; D].
Proof.
  intros DY LY DM LM DD LD S1 S2.
  destruct (year_digits Y DY LY) as (a & b & c & e & -> & Ha & Hb & Hc & He).
  destruct (short_digits M DM LM) as [(f & -> & Hf) | (f & g & -> & Hf & Hg)];
    destruct (short_digits D DD LD) as [(h & -> & Hh) | (h & i & -> & Hh & Hi)];
    destruct S1 as [-> | ->]; destruct S2 as [-> | ->];
    unfold re_match, ISO, spaces, digits, dash_or_slash; cbn [run app];
    take_run; take_run; decide_char; take_run; decide_char; take_run; take_run;
    cbn [at_end app length Nat.sub firstn]; reflexivity.
Qed.

Lemma iso_text_stripped (Y M D : str) (s1 s2 : ascii) :
  all_digits Y -> length Y = 4 ->
  all_digits M -> 1 <= length M <= 2 ->
  all_digits D -> 1 <= length D <= 2 ->
  strip (Y ++ s1 :: M ++ s2 :: D) = Y ++ s1 :: M ++ s2 :: D.
Proof.
  intros DY LY DM LM DD LD.
  destruct (year_digits Y DY LY) as (a & b & c & e & -> & Ha & Hb & Hc & He).
  destruct (short_digits M DM LM) as [(f & -> & Hf) | (f & g & -> & Hf & Hg)];
    destruct (short_digits D DD LD) as [(h & -> & Hh) | (h & i & -> & Hh & Hi)];
    apply strip_fixed; cbn [app rev]; now apply digit_not_space.
Qed.

Lemma truthy_value (y : Z) :
  truthy (Some y) = if (y =? 0)%Z then None else Some y.
Proof. destruct y; reflexivity. Qed.

(** X5.  A date in figures is read as such: four digits for the year, one
    or two for the month and for the day, each separator a dash or a slash.
    [_try_iso] gives the date of the three numbers, month and day clamped,
    unless the year is 0, which it refuses; and the normaliser gives the
    same date whatever whitespace surrounds the text. *)
Theorem iso_dates_are_recognised (Y M D w1 w2 : str) (s1 s2 : ascii) :
  all_digits Y -> length Y = 4 ->
  all_digits M -> 1 <= length M <= 2 ->
  all_digits D -> 1 <= length D <= 2 ->
  (s1 = "-" \/ s1 = "/")%char -> (s2 = "-" \/ s2 = "/")%char ->
  forallb is_space w1 = true -> forallb is_space w2 = true ->
  exists y m d,
    int Y = Returns y /\ int M = Returns m /\ int D = Returns d
    /\ _try_iso (Y ++ s1 :: M ++ s2 :: D)
       = (if (y =? 0)%Z then None
          else Some (_fmt_date y (Some m) (Some d)))
    /\ (y <> 0%Z ->
        normalize_date_string (w1 ++ (Y ++ s1 :: M ++ s2 :: D) ++ w2)
        = Returns (_fmt_date y (Some m) (Some d))).
Proof.
  intros DY LY DM LM DD LD S1 S2 B1 B2.
  destruct (int_digits Y) as (y & Ey & Sy & Ry);
    [apply nonempty_length; lia | exact DY |].
  destruct (int_digits M) as (m & Em & Sm & _);
    [apply nonempty_length; lia | exact DM |].
  destruct (int_digits D) as (d & Ed & Sd & _);
    [apply nonempty_length; lia | exact DD |].
  assert (T : _try_iso (Y ++ s1 :: M ++ s2 :: D)
              = if (y =? 0)%Z then None
                else Some (_fmt_date y (Some m) (Some d))).
  { unfold _try_iso. rewrite iso_match by assumption.
    cbn [group pred nth]. rewrite Sy, Sm, Sd, truthy_value.
    now destruct (y =? 0)%Z. }
  exists y, m, d. split; [exact Ey|]. split; [exact Em|]. split; [exact Ed|].
  split; [exact T|].
  intros N. apply Z.eqb_neq in N. rewrite N in T.
  rewrite normalize_strip.
  rewrite strip_app_blank, iso_text_stripped by assumption.
  unfold normalize_date_string.
  destruct Y as [|a Y]; [discriminate LY|]. cbn [app is_empty].
  change (a :: Y ++ s1 :: M ++ s2 :: D) with ((a :: Y) ++ s1 :: M ++ s2 :: D).
  rewrite iso_text_stripped, first_parse_priority, T by assumption.
  reflexivity.
Qed.

Lemma iso_dates_are_recognised_witness :
  exists y m d,
    int "1990" = Returns y /\ int "3" = Returns m /\ int "31" = Returns d
    /\ _try_iso (("1990" : str) ++ "/"%char :: ("3" : str)
                 ++ "-"%char :: ("31" : str))
       = (if (y =? 0)%Z then None
          else Some (_fmt_date y (Some m) (Some d)))
    /\ (y <> 0%Z ->
        normalize_date_string
          ((" " : str)
           ++ (("1990" : str) ++ "/"%char :: ("3" : str)
               ++ "-"%char :: ("31" : str)) ++ ("  " : str))
        = Returns (_fmt_date y (Some m) (Some d))).
Proof.
  apply (iso_dates_are_recognised "1990" "3" "31" " " "  " "/" "-");
    first [ reflexivity | simpl; lia | now left | now right ].
Defined.

(** * Further properties of the merger *)

Lemma subseq_refl (A : Type) (l : list A) : subseq l l.
Proof. induction l; constructor; auto. Qed.

Lemma subseq_nil_l (A : Type) (l : list A) : subseq [] l.
Proof. induction l; constructor; auto. Qed.

Lemma subseq_app (A : Type) (a b c d : list A) :
  subseq a b -> subseq c d -> subseq (a ++ c) (b ++ d).
Proof.
  intros Hab Hcd. induction Hab; simpl; try constructor; auto.
Qed.

Lemma subseq_in (A : Type) (a b : list A) (x : A) :
  subseq a b -> In x a -> In x b.
Proof. induction 1; simpl; intuition auto. Qed.

Section Groups.
Variable casefold : str -> str.

Local Abbreviation name_of r := (strip (or_default (raw_company_name r) [])).
Local Abbreviation date_of r := (strip (or_default (raw_founding_date r) [])).
Local Abbreviation founders_of r :=
  (filter nonempty (or_default (raw_founders r) [])).
Local Abbreviation key := (sort_key casefold).
Local Abbreviation by_name records :=
  (fold_left (merge_record casefold) records []).

(** ** One company at a time *)

(** A turn of the loop touches the entry of the record's company only. *)
Lemma merge_record_get (m : list (str * record)) (r : raw_record) (k : str) :
  dict_get (merge_record casefold m r) k
  = if in_group casefold k r then merge_into casefold (dict_get m k) r
    else dict_get m k.
Proof.
  unfold merge_record, in_group.
  destruct (nonempty (name_of r)) eqn:Hn; cbn [negb andb]; [|reflexivity].
  destruct (str_eqb (casefold (name_of r)) k) eqn:E.
  - apply str_eqb_eq in E. subst k.
    destruct (dict_get m (casefold (name_of r))) as [e|];
      now rewrite dict_get_set_same.
  - apply str_eqb_neq in E.
    destruct (dict_get m (casefold (name_of r))) as [e|];
      now rewrite dict_get_set_other.
Qed.

Lemma merge_loop_get (records : list raw_record) :
  forall (m : list (str * record)) (k : str),
    dict_get (fold_left (merge_record casefold) records m) k
    = fold_left (merge_into casefold)
                (filter (in_group casefold k) records) (dict_get m k).
Proof.
  induction records as [|r records IH]; intros m k; [reflexivity|].
  cbn [fold_left filter]. rewrite IH, merge_record_get.
  now destruct (in_group casefold k r).
Qed.

Lemma dedupe_group (records : list raw_record) (o : record) :
  In o (dedupe_records casefold records) ->
  group_record casefold (key o) records = Some o.
Proof.
  intros H. apply dedupe_entry in H as [H _].
  destruct (merge_all_state casefold records) as (N & _ & _).
  apply (dict_in_get _ _ _ _ N) in H.
  now rewrite merge_loop_get in H.
Qed.

Lemma dedupe_complete (records : list raw_record) (r : raw_record) :
  In r records -> has_name r = true ->
  exists o, In o (dedupe_records casefold records)
            /\ key o = casefold (name_of r).
Proof.
  intros I H. destruct (merge_all_state casefold records) as (_ & Ok & All).
  specialize (All r I H). unfold dict_keys in All.
  apply in_map_iff in All as ((k & e) & E & Ie). simpl in E. subst k.
  exists e. split.
  - rewrite dedupe_records_unfold.
    apply (Permutation_in _ (Permutation_sym (sort_by_perm _ key _))).
    unfold dict_values. change e with (snd (casefold (name_of r), e)).
    now apply in_map.
  - destruct (Ok _ _ Ie) as (E & _). now rewrite E.
Qed.

(** ** The entry of one company *)

Lemma merge_into_rest (rest : list raw_record) :
  forall e : record,
  exists e',
    fold_left (merge_into casefold) rest (Some e) = Some e'
    /\ company_name e' = company_name e
    /\ founders e'
       = fold_left (fun fs r => merge_founders casefold fs (founders_of r))
                   rest (founders e).
Proof.
  induction rest as [|r rest IH]; intros e; cbn [fold_left].
  - exists e. auto.
  - cbn [merge_into].
    destruct (IH {| company_name := company_name e;
                    founding_date := merge_date (founding_date e) (date_of r);
                    founders := merge_founders casefold (founders e)
                                               (founders_of r) |})
      as (e' & E & Hn & Hf).
    exists e'. auto.
Qed.

Lemma group_record_first (k : str) (records : list raw_record) (o : record) :
  group_record casefold k records = Some o ->
  exists r rest,
    filter (in_group casefold k) records = r :: rest
    /\ find (in_group casefold k) records = Some r
    /\ company_name o = name_of r
    /\ founders o
       = fold_left (fun fs r => merge_founders casefold fs (founders_of r))
                   rest (founders_of r).
Proof.
  unfold group_record. intros H.
  assert (F : forall l : list raw_record,
             find (in_group casefold k) l
             = hd_error (filter (in_group casefold k) l)).
  { induction l as [|x l IHl]; simpl; auto.
    now destruct (in_group casefold k x). }
  rewrite F. destruct (filter (in_group casefold k) records) as [|r rest];
    [discriminate H|].
  cbn [fold_left merge_into] in H.
  destruct (merge_into_rest rest
              {| company_name := name_of r; founding_date := date_of r;
                 founders := founders_of r |}) as (e' & E & Hn & Hf).
  rewrite E in H. injection H as <-. exists r, rest. auto.
Qed.

(** ** Founders over the records of a company *)

Lemma add_founder_grows (st : list str * list str) (f : str) :
  (forall x, In x (snd st) <-> In x (map casefold (fst st))) ->
  let st' := add_founder casefold st f in
  (forall x, In x (snd st') <-> In x (map casefold (fst st')))
  /\ (exists added, fst st' = fst st ++ added /\ subseq added [f])
  /\ In (casefold f) (map casefold (fst st')).
Proof.
  destruct st as [merged seen]. cbn [fst snd]. intros S. unfold add_founder.
  destruct (set_has seen (casefold f)) eqn:E; cbn [negb fst snd].
  - split; [exact S|]. split.
    + exists []. rewrite app_nil_r. split; [reflexivity|]. repeat constructor.
    + apply S. now apply set_has_in.
  - split; [|split].
    + intros x. rewrite map_app, in_app_iff, <- S. simpl. tauto.
    + exists [f]. split; [reflexivity|apply subseq_refl].
    + rewrite map_app, in_app_iff. right. now left.
Qed.

Lemma fold_add_founder_grows (incoming : list str) :
  forall st : list str * list str,
    (forall x, In x (snd st) <-> In x (map casefold (fst st))) ->
    let st' := fold_left (add_founder casefold) incoming st in
    (exists added, fst st' = fst st ++ added /\ subseq added incoming)
    /\ (forall f, In f incoming -> In (casefold f) (map casefold (fst st'))).
Proof.
  induction incoming as [|f incoming IH]; intros st S; cbn [fold_left].
  - split; [|intros f []]. exists []. rewrite app_nil_r. split; constructor.
  - destruct (add_founder_grows st f S) as (S' & (a1 & E1 & U1) & C1).
    destruct (IH _ S') as ((a2 & E2 & U2) & C2).
    split.
    + exists (a1 ++ a2). rewrite E2, E1, <- app_assoc. split; [reflexivity|].
      now apply (subseq_app _ a1 [f] a2 incoming).
    + intros g [<- | Hg]; [|now apply C2].
      rewrite E2, map_app, in_app_iff. now left.
Qed.

Lemma merge_founders_grows (existing incoming : list str) :
  (exists added, merge_founders casefold existing incoming = existing ++ added
                 /\ subseq added incoming)
  /\ (forall f, In f incoming ->
        In (casefold f)
           (map casefold (merge_founders casefold existing incoming))).
Proof.
  unfold merge_founders.
  apply (fold_add_founder_grows incoming (existing, map casefold existing)).
  simpl. tauto.
Qed.

Lemma merge_all_founders (rest : list raw_record) :
  forall fs : list str,
    let all := fold_left (fun fs r => merge_founders casefold fs (founders_of r))
                         rest fs in
    (exists added, all = fs ++ added
                   /\ subseq added (flat_map (fun r => founders_of r) rest))
    /\ (forall f, In f (flat_map (fun r => founders_of r) rest) ->
          In (casefold f) (map casefold all))
    /\ (NoDup (map casefold fs) -> NoDup (map casefold all)).
Proof.
  induction rest as [|r rest IH]; intros fs; cbn [fold_left flat_map].
  - split; [|split; [intros f []|auto]].
    exists []. rewrite app_nil_r. split; constructor.
  - destruct (merge_founders_grows fs (founders_of r)) as ((a1 & E1 & U1) & C1).
    destruct (IH (merge_founders casefold fs (founders_of r)))
      as ((a2 & E2 & U2) & C2 & N2).
    split; [|split].
    + exists (a1 ++ a2). rewrite E2, E1, <- app_assoc. split; [reflexivity|].
      now apply subseq_app.
    + intros f Hf. apply in_app_or in Hf as [Hf | Hf]; [|now apply C2].
      rewrite E2, map_app, in_app_iff. left. now apply C1.
    + intros N. apply N2. now apply merge_founders_distinct.
Qed.

End Groups.

(** ** Dates on the calendar *)

Lemma digit_char_value (c : ascii) :
  is_digit c = true -> digit_char (digit_value c) = c.
Proof.
  intros H. pose proof (digit_value_range c H) as R.
  unfold digit_char, digit_value in *.
  replace (48 + (Z.of_N (code c) - 48))%Z with (Z.of_N (code c)) by lia.
  rewrite N2Z.id. apply ascii_N_embedding.
Qed.

Lemma canonical_canon (v : str) :
  is_canonical v = true ->
  exists y m d,
    (0 <= y <= 9999)%Z /\ (1 <= m <= 12)%Z /\ (1 <= d <= 28)%Z
    /\ v = canon y m d /\ date_fields v = Some (y, m, d).
Proof.
  destruct v as [|y1 [|y2 [|y3 [|y4 [|a [|m1 [|m2 [|b [|d1 [|d2 [|x v]]]]]]]]]]];
    try discriminate.
  cbn [is_canonical]. intros H.
  apply andb_true_iff in H as [H R]. apply andb_true_iff in H as [H B].
  apply andb_true_iff in H as [D A].
  apply Ascii.eqb_eq in A, B. subst a b.
  pose proof D as D'. cbn [forallb] in D. rewrite andb_true_r in D.
  do 7 (apply andb_true_iff in D; destruct D as [? D]).
  apply andb_true_iff in R as [R R4]. apply andb_true_iff in R as [R R3].
  apply andb_true_iff in R as [R1 R2].
  apply Z.leb_le in R1, R2, R3, R4.
  repeat match goal with
         | E : is_digit ?c = true |- _ =>
             pose proof (digit_value_range c E);
             pose proof (digit_char_value c E); revert E
         end.
  intros.
  set (y := (1000 * digit_value y1 + 100 * digit_value y2
             + 10 * digit_value y3 + digit_value y4)%Z).
  set (m := (10 * digit_value m1 + digit_value m2)%Z).
  set (d := (10 * digit_value d1 + digit_value d2)%Z).
  exists y, m, d.
  split; [lia|]. split; [lia|]. split; [lia|]. split.
  - rewrite canon_chars by lia.
    assert (Q1 : (y / 1000 = digit_value y1)%Z)
      by (Z.div_mod_to_equations; lia).
    assert (Q2 : (y / 100 mod 10 = digit_value y2)%Z)
      by (Z.div_mod_to_equations; lia).
    assert (Q3 : (y / 10 mod 10 = digit_value y3)%Z)
      by (Z.div_mod_to_equations; lia).
    assert (Q4 : (y mod 10 = digit_value y4)%Z)
      by (Z.div_mod_to_equations; lia).
    assert (Q5 : (m / 10 = digit_value m1)%Z)
      by (Z.div_mod_to_equations; lia).
    assert (Q6 : (m mod 10 = digit_value m2)%Z)
      by (Z.div_mod_to_equations; lia).
    assert (Q7 : (d / 10 = digit_value d1)%Z)
      by (Z.div_mod_to_equations; lia).
    assert (Q8 : (d mod 10 = digit_value d2)%Z)
      by (Z.div_mod_to_equations; lia).
    rewrite Q1, Q2, Q3, Q4, Q5, Q6, Q7, Q8.
    repeat match goal with
           | E : digit_char _ = _ |- _ => rewrite E; clear E
           end.
    reflexivity.
  - cbn [date_fields]. rewrite value4, !value2. cbn [forallb].
    repeat match goal with
           | E : is_digit _ = true |- _ => rewrite E; clear E
           end.
    reflexivity.
Qed.

(** X6.  When the dates of a company's records are canonical, the date the
    merger keeps is the earliest of them on the calendar: no date of the
    group comes before it. *)
Theorem merged_date_is_chronologically_earliest
        (fold : str -> str) (records : list raw_record) (o : record) (x : str) :
  In o (dedupe_records fold records) ->
  (forall d, In d (group_dates fold (fold (company_name o)) records) ->
             is_canonical d = true) ->
  In x (group_dates fold (fold (company_name o)) records) ->
  exists a b,
    date_fields (founding_date o) = Some a /\ date_fields x = Some b
    /\ ~ earlier b a.
Proof.
  intros Ho C Hx.
  destruct (dedupe_date fold records o Ho) as [_ L].
  destruct L as [Hin Hle]; [intros E; rewrite E in Hx; destruct Hx|].
  specialize (Hle x Hx). rewrite str_leb_not_ltb in Hle.
  apply negb_true_iff in Hle.
  destruct (canonical_canon _ (C _ Hin)) as (y & m & d & Ry & Rm & Rd & E & F).
  destruct (canonical_canon _ (C _ Hx)) as (y' & m' & d' & Ry' & Rm' & Rd' & E' & F').
  exists (y, m, d), (y', m', d'). split; [exact F|]. split; [exact F'|].
  intros Lt. apply canon_order in Lt; try lia.
  rewrite <- E, <- E' in Lt. congruence.
Qed.

Lemma merged_date_is_chronologically_earliest_witness :
  exists a b,
    date_fields "1990-01-01" = Some a /\ date_fields "1990-03-05" = Some b
    /\ ~ earlier b a.
Proof.
  apply (merged_date_is_chronologically_earliest casefold
           [ {| raw_company_name := Some ("Acme Inc." : str);
                raw_founding_date := Some ("1990-03-05" : str);
                raw_founders := Some [("Jane" : str)] |};
             {| raw_company_name := Some ("acme inc." : str);
                raw_founding_date := Some ("1990-01-01" : str);
                raw_founders := Some [("jane" : str); ("Bob" : str)] |} ]
           {| company_name := "Acme Inc.";
              founding_date := "1990-01-01";
              founders := [("Jane" : str); ("Bob" : str)] |}
           "1990-03-05").
  - vm_compute. left. reflexivity.
  - intros d H. vm_compute in H. destruct H as [<- | [<- | []]]; reflexivity.
  - vm_compute. left. reflexivity.
Defined.

(** X7.  Companies are merged independently.  The record the merger returns
    for a company is made from the records of that company alone, taken in
    their order: the first makes it and gives it its name, the later ones
    are merged into it.  Every input record that bears a name has its
    company in the result. *)
Theorem company_is_merged_from_its_own_records
        (fold : str -> str) (records : list raw_record) :
  (forall o, In o (dedupe_records fold records) ->
     group_record fold (fold (company_name o)) records = Some o
     /\ exists r,
          find (in_group fold (fold (company_name o))) records = Some r
          /\ company_name o = strip (or_default (raw_company_name r) []))
  /\ (forall r, In r records -> has_name r = true ->
        exists o,
          In o (dedupe_records fold records)
          /\ fold (company_name o)
             = fold (strip (or_default (raw_company_name r) []))).
Proof.
  split.
  - intros o H. pose proof (dedupe_group fold records o H) as G.
    split; [exact G|].
    apply group_record_first in G as (r & rest & _ & F & N & _).
    exists r. auto.
  - intros r I H. apply (dedupe_complete fold records r I H).
Qed.

(** X8.  The founders of a merged record are founders of the records of its
    company, in the order of their first occurrence: the list is the
    founders of the company's records, read in order, with some left out;
    every founder of the group is there up to case; and when the first
    record of the company names no founder twice up to case, the merged
    list names none twice. *)
Theorem merged_founders_cover_the_group
        (fold : str -> str) (records : list raw_record) (o : record) :
  In o (dedupe_records fold records) ->
  let group := group_founders fold (fold (company_name o)) records in
  subseq (founders o) group
  /\ (forall f, In f (founders o) -> In f group /\ f <> [])
  /\ (forall f, In f group ->
        exists g, In g (founders o) /\ fold g = fold f)
  /\ (forall r,
        find (in_group fold (fold (company_name o))) records = Some r ->
        NoDup (map fold (filter nonempty (or_default (raw_founders r) []))) ->
        NoDup (map fold (founders o))).
Proof.
  intros H group.
  pose proof (dedupe_group fold records o H) as G.
  apply group_record_first in G as (r & rest & Fl & Fi & _ & Ef).
  destruct (merge_all_founders fold rest
              (filter nonempty (or_default (raw_founders r) [])))
    as ((added & Ea & Sa) & Cov & Nd).
  cbn zeta in Ea, Cov, Nd. rewrite <- Ef in Ea, Cov, Nd.
  assert (Eg : group
               = filter nonempty (or_default (raw_founders r) [])
                 ++ flat_map
                      (fun r => filter nonempty (or_default (raw_founders r) []))
                      rest).
  { unfold group, group_founders. unfold sort_key in Fl. now rewrite Fl. }
  assert (S : subseq (founders o) group).
  { rewrite Ea, Eg. apply subseq_app; [apply subseq_refl|exact Sa]. }
  split; [exact S|]. split; [|split].
  - intros f Hf. split; [now apply (subseq_in _ _ _ f S)|].
    apply dedupe_entry in H as [_ (_ & _ & _ & _ & Ne)]. now apply Ne.
  - intros f Hf. rewrite Eg in Hf.
    assert (I : In (fold f) (map fold (founders o))).
    { apply in_app_or in Hf as [Hf | Hf]; [|now apply Cov].
      rewrite Ea, map_app, in_app_iff. left. now apply in_map. }
    apply in_map_iff in I as (g & E & I). eauto.
  - intros r' Fr N. unfold sort_key in Fi. rewrite Fi in Fr.
    injection Fr as <-. now apply Nd.
Qed.

Lemma merged_founders_cover_the_group_witness :
  subseq [("Jane" : str); ("Bob" : str)]
         [("Jane" : str); ("jane" : str); ("Bob" : str)].
Proof.
  apply (proj1 (merged_founders_cover_the_group casefold
           [ {| raw_company_name := Some ("Acme Inc." : str);
                raw_founding_date := Some ("1990-01-01" : str);
                raw_founders := Some [("Jane" : str)] |};
             {| raw_company_name := Some ("acme inc." : str);
                raw_founding_date := Some ("1990-03-05" : str);
                raw_founders := Some [("jane" : str); ("Bob" : str)] |} ]
           {| company_name := "Acme Inc.";
              founding_date := "1990-01-01";
              founders := [("Jane" : str); ("Bob" : str)] |}
           ltac:(vm_compute; left; reflexivity))).
Defined.

(** * Further properties of the segmenter *)

Lemma lines_app_newline (a r : str) :
  lines (a ++ newline :: r) = lines a ++ lines r.
Proof.
  induction a as [|c a IH]; [reflexivity|].
  cbn [app]. destruct (is_char newline c) eqn:E.
  - apply Ascii.eqb_eq in E. subst c. rewrite !lines_cons_newline, IH.
    reflexivity.
  - destruct (lines_nonempty a) as (l & ls & H).
    rewrite (lines_cons_other c a l ls E H).
    apply lines_cons_other; [exact E|]. now rewrite IH, H.
Qed.

Lemma lines_blank (w : str) :
  forallb is_space w = true -> Forall (fun l => blank l = true) (lines w).
Proof.
  induction w as [|c w IH]; intros H.
  - repeat constructor.
  - cbn [forallb] in H. apply andb_true_iff in H as [Hc H].
    specialize (IH H). destruct (is_char newline c) eqn:E.
    + apply Ascii.eqb_eq in E. subst c. rewrite lines_cons_newline.
      constructor; auto.
    + destruct (lines_nonempty w) as (l & ls & Hl).
      rewrite (lines_cons_other c w l ls E Hl). rewrite Hl in IH.
      inversion IH; subst. constructor; auto.
      unfold blank in *. cbn [forallb]. now rewrite Hc.
Qed.

Lemma paragraphs_app_blank (l1 : list str) (b : str) (l2 : list str) :
  blank b = true ->
  forall cur,
    paragraphs (l1 ++ b :: l2) cur = paragraphs l1 cur ++ paragraphs l2 [].
Proof.
  intros B. induction l1 as [|l l1 IH]; intros cur; cbn [app paragraphs].
  - now rewrite B.
  - destruct (blank l); [now rewrite IH|apply IH].
Qed.

Lemma paragraphs_skip_blanks (lw lb : list str) :
  Forall (fun l => blank l = true) lw ->
  filter nonempty (map trimmed (paragraphs (lw ++ lb) []))
  = filter nonempty (map trimmed (paragraphs lb [])).
Proof.
  induction 1 as [|l lw B _ IH]; [reflexivity|].
  cbn [app paragraphs]. rewrite B. cbn [map filter]. now rewrite trimmed_nil.
Qed.

Lemma segment_blank_lines (a w b : str) :
  forallb is_space w = true ->
  segment (a ++ newline :: w ++ newline :: b) = segment a ++ segment b.
Proof.
  intros H. unfold segment.
  rewrite lines_app_newline, lines_app_newline.
  pose proof (lines_blank w H) as B.
  destruct (lines_nonempty w) as (l & lw & E). rewrite E in *.
  inversion B as [|? ? Bl Bw]; subst.
  cbn [app]. rewrite paragraphs_app_blank by assumption.
  rewrite map_app, filter_app. f_equal.
  now apply paragraphs_skip_blanks.
Qed.

Lemma split_blank_lines (a w b : str) :
  forallb is_space w = true ->
  split_paragraphs (a ++ newline :: w ++ newline :: b)
  = split_paragraphs a ++ split_paragraphs b.
Proof.
  intros H. rewrite !split_paragraphs_segment. now apply segment_blank_lines.
Qed.

(** X9.  Two texts put together with a separator of blank lines between
    them, a newline, whitespace of any kind and a newline, have the
    paragraphs of the first followed by the paragraphs of the second. *)
Theorem paragraphs_of_joined_texts (a w b : str) :
  forallb is_space w = true ->
  split_paragraphs (a ++ newline :: w ++ newline :: b)
  = split_paragraphs a ++ split_paragraphs b.
Proof. apply split_blank_lines. Qed.

Lemma paragraphs_of_joined_texts_witness :
  split_paragraphs (("A" : str) ++ newline :: (" " : str)
                    ++ newline :: ("B" : str))
  = split_paragraphs "A" ++ split_paragraphs "B".
Proof.
  apply (paragraphs_of_joined_texts "A" " " "B"). reflexivity.
Defined.

(** ** Texts without a blank line *)

Lemma lines_drop_front (c : ascii) (t : str) :
  is_space c = true ->
  Forall (fun l => blank l = false) (lines (c :: t)) ->
  Forall (fun l => blank l = false) (lines t).
Proof.
  intros Hc F. destruct (is_char newline c) eqn:E.
  - apply Ascii.eqb_eq in E. subst c. rewrite lines_cons_newline in F.
    inversion F as [|? ? B _]. discriminate B.
  - destruct (lines_nonempty t) as (l & ls & H).
    rewrite (lines_cons_other c t l ls E H) in F. rewrite H.
    inversion F as [|? ? B F']; subst. constructor; auto.
    unfold blank in *. cbn [forallb] in B. now rewrite Hc in B.
Qed.

Lemma snoc_line_drop (c : ascii) (ls : list str) :
  is_space c = true -> ls <> [] ->
  Forall (fun l => blank l = false) (snoc_line c ls) ->
  Forall (fun l => blank l = false) ls.
Proof.
  intros Hc. induction ls as [|l ls IH]; [congruence|]. intros _ F.
  destruct ls as [|l2 ls].
  - cbn [snoc_line] in F. inversion F as [|? ? B _]; subst.
    rewrite blank_snoc in B by assumption. auto.
  - change (snoc_line c (l :: l2 :: ls)) with (l :: snoc_line c (l2 :: ls)) in F.
    inversion F; subst. constructor; auto. apply IH; [discriminate|auto].
Qed.

Lemma lines_drop_back (t : str) (c : ascii) :
  is_space c = true ->
  Forall (fun l => blank l = false) (lines (t ++ [c])) ->
  Forall (fun l => blank l = false) (lines t).
Proof.
  intros Hc F. rewrite lines_snoc in F. destruct (is_char newline c).
  - apply Forall_app in F as [_ F]. inversion F as [|? ? B _]. discriminate B.
  - apply (snoc_line_drop c); auto.
    destruct (lines_nonempty t) as (l & ls & ->). discriminate.
Qed.

Lemma lines_strip (t : str) :
  Forall (fun l => blank l = false) (lines t) ->
  Forall (fun l => blank l = false) (lines (strip t)).
Proof.
  destruct (strip_split t) as (w1 & w2 & E & H1 & H2).
  rewrite E at 1. generalize (strip t). intros s. clear E.
  induction w1 as [|c w1 IH]; cbn [app].
  - revert H2. induction w2 as [|c w2 IH2] using rev_ind; intros H2 F.
    + now rewrite app_nil_r in F.
    + rewrite forallb_app in H2. apply andb_true_iff in H2 as [H2 Hc].
      cbn [forallb] in Hc. rewrite andb_true_r in Hc.
      rewrite app_assoc in F. apply lines_drop_back in F; auto.
  - cbn [forallb] in H1. apply andb_true_iff in H1 as [Hc H1]. intros F.
    apply lines_drop_front in F; auto.
Qed.

Lemma paragraphs_one (ls : list str) :
  Forall (fun l => blank l = false) ls ->
  forall cur, paragraphs ls cur = [cur ++ ls].
Proof.
  induction 1 as [|l ls B _ IH]; intros cur; cbn [paragraphs].
  - now rewrite app_nil_r.
  - rewrite B, IH, <- app_assoc. reflexivity.
Qed.

Lemma segment_one (t : str) :
  Forall (fun l => blank l = false) (lines t) -> segment t = [strip t].
Proof.
  intros F. unfold segment. rewrite paragraphs_one by assumption.
  cbn [app map]. unfold trimmed.
  pose proof (text_of_lines t) as T.
  destruct (lines_nonempty t) as (l & ls & E). rewrite E in *.
  rewrite join_text. cbn [text_of] in T. rewrite T.
  destruct (strip t) as [|c s] eqn:S; [|reflexivity].
  apply strip_blank, lines_blank in S. rewrite E in S.
  inversion F as [|? ? B1 _]. inversion S as [|? ? B2 _]. congruence.
Qed.

(** ** The lines of a paragraph *)

Lemma lines_single (l : str) : no_newline l -> lines l = [l].
Proof.
  induction l as [|c l IH]; [reflexivity|]. intros N.
  apply no_newline_cons in N as [E N].
  apply lines_cons_other; auto.
Qed.

Lemma lines_text_of (l : str) (ls : list str) :
  Forall no_newline (l :: ls) -> lines (text_of (l :: ls)) = l :: ls.
Proof.
  revert l. induction ls as [|l2 ls IH]; intros l F;
    inversion F as [|? ? N F']; subst; cbn [text_of tail_text].
  - rewrite app_nil_r. now apply lines_single.
  - change (l2 ++ tail_text ls) with (text_of (l2 :: ls)).
    rewrite lines_app_newline, lines_single, IH by assumption. reflexivity.
Qed.

Lemma paragraphs_text_lines (ls : list str) :
  Forall no_newline ls ->
  forall cur, Forall text_line cur ->
    Forall (Forall text_line) (paragraphs ls cur).
Proof.
  induction 1 as [|l ls N _ IH]; intros cur C; cbn [paragraphs].
  - repeat constructor. exact C.
  - destruct (blank l) eqn:B.
    + constructor; [exact C|]. apply IH. constructor.
    + apply IH. apply Forall_app. split; [exact C|].
      repeat constructor; assumption.
Qed.

Lemma segment_fixed (t b : str) : In b (segment t) -> segment b = [b].
Proof.
  unfold segment at 1. intros H. apply filter_In in H as [H Nb].
  apply in_map_iff in H as (p & E & Hp).
  pose proof (paragraphs_text_lines (lines t) (lines_no_newline t) []
                (Forall_nil _)) as G.
  rewrite Forall_forall in G. specialize (G p Hp).
  destruct p as [|l ls]; [subst b; discriminate Nb|].
  assert (F : Forall (fun l => blank l = false)
                     (lines (join newline (l :: ls)))).
  { rewrite join_text. change (l ++ tail_text ls) with (text_of (l :: ls)).
    rewrite lines_text_of.
    - eapply Forall_impl; [|exact G]. now intros x [B _].
    - eapply Forall_impl; [|exact G]. now intros x [_ N]. }
  apply lines_strip in F. fold (trimmed (l :: ls)) in F. rewrite E in F.
  rewrite (segment_one b F). subst b. unfold trimmed. now rewrite strip_idem.
Qed.

Lemma split_fixed (t b : str) :
  In b (split_paragraphs t) -> split_paragraphs b = [b].
Proof.
  intros H. rewrite split_paragraphs_segment in *. now apply (segment_fixed t).
Qed.

(** X10.  A text in which no line is blank is one paragraph, the text
    trimmed: single newlines do not cut.  So a paragraph the segmenter
    returns is not cut any further: segmented again, it gives itself. *)
Theorem paragraph_is_not_cut_again :
  (forall t : str,
      Forall (fun l => blank l = false) (lines t) ->
      split_paragraphs t = [strip t])
  /\ (forall t b : str,
         In b (split_paragraphs t) -> split_paragraphs b = [b]).
Proof.
  split.
  - intros t F. rewrite split_paragraphs_segment. now apply segment_one.
  - apply split_fixed.
Qed.

Lemma paragraph_is_not_cut_again_witness :
  split_paragraphs (("A" : str) ++ newline :: ("B" : str))
  = [("A" : str) ++ newline :: ("B" : str)].
Proof.
  apply (proj2 paragraph_is_not_cut_again
           (("A" : str) ++ newline :: ("B" : str)
            ++ newline :: newline :: ("C" : str))).
  vm_compute. left. reflexivity.
Defined.

Lemma split_join (ps : list str) :
  (forall b, In b ps -> split_paragraphs b = [b]) ->
  split_paragraphs (join_str [newline; newline] ps) = ps.
Proof.
  induction ps as [|b ps IH]; intros H; [reflexivity|].
  destruct ps as [|b2 ps]; [apply H; now left|].
  change (join_str [newline; newline] (b :: b2 :: ps))
    with (b ++ newline :: [] ++ newline
            :: join_str [newline; newline] (b2 :: ps)).
  rewrite split_blank_lines by reflexivity.
  rewrite IH, H; [reflexivity|now left|].
  intros x Hx. apply H. now right.
Qed.

(** X11.  The paragraphs of a text, joined again with an empty line between
    them, are segmented into the same paragraphs. *)
Theorem paragraphs_survive_joining (t : str) :
  split_paragraphs (join_str [newline; newline] (split_paragraphs t))
  = split_paragraphs t.
Proof.
  apply split_join. intros b H. now apply (split_fixed t).
Qed.

(** * The model set-up *)

Lemma str_or_default (a : option str) (b : str) :
  str_or a b = if nonempty (or_default a []) then or_default a [] else b.
Proof. destruct a as [[|c s]|]; reflexivity. Qed.

(** X12.  The key of the model is the value of GOOGLE_API_KEY when that is
    set and not empty, and otherwise the value of GEMINI_API_KEY; a
    variable set to the empty text counts as not set.  [_make_model] raises
    exactly when neither gives a key, and a model it returns has a key that
    is not empty. *)
Theorem model_key_choice (environ : list (str * str)) :
  let google := or_default (dict_get environ "GOOGLE_API_KEY") [] in
  let gemini := or_default (dict_get environ "GEMINI_API_KEY") [] in
  (google <> [] -> _get_gemini_api_key environ = google)
  /\ (google = [] -> _get_gemini_api_key environ = gemini)
  /\ (_make_model environ = Raises <-> google = [] /\ gemini = [])
  /\ (forall m, _make_model environ = Returns m ->
        google_api_key m = _get_gemini_api_key environ
        /\ google_api_key m <> []).
Proof.
  intros google gemini.
  assert (K : _get_gemini_api_key environ
              = if nonempty google then google else gemini).
  { unfold _get_gemini_api_key. rewrite !str_or_default. fold google gemini.
    destruct (nonempty google); [reflexivity|].
    destruct gemini; reflexivity. }
  split; [|split; [|split]].
  - intros N. apply nonempty_true in N. now rewrite K, N.
  - intros E. apply nonempty_false in E. now rewrite K, E.
  - unfold _make_model. rewrite K.
    destruct google as [|c g]; cbn [nonempty is_empty negb].
    + destruct gemini as [|c g]; cbn [nonempty is_empty negb].
      * tauto.
      * split; [discriminate|]. intros [_ E]. discriminate E.
    + split; [discriminate|]. intros [E _]. discriminate E.
  - unfold _make_model. intros m.
    destruct (nonempty (_get_gemini_api_key environ)) eqn:N;
      cbn [negb]; [|discriminate].
    intros [= <-]. cbn [google_api_key]. split; [reflexivity|].
    now apply nonempty_true.
Qed.

(** * The coercion of a record *)

Section ExtractionFacts.
Variable casefold : str -> str.
Variable loads : str -> outcome pyobj.
Variable reply : str -> outcome str.

Lemma coerce_record_returns (x : extracted) :
  exists date,
    normalize_date_string (strip (or_default (x_founding_date x) []))
    = Returns date
    /\ (date = [] \/ is_canonical date = true)
    /\ _coerce_record loads x
       = Returns {| c_company_name := strip (or_default (x_company_name x) []);
                    c_founding_date := date;
                    c_founders := coerce_founders loads (x_founders x) |}.
Proof.
  unfold _coerce_record.
  destruct (normalize_returns (strip (or_default (x_founding_date x) [])))
    as (date & E & W).
  exists date. rewrite E. split; [reflexivity|]. split; [|reflexivity].
  destruct W as [W | W]; [now left|right]. now apply well_formed_canonical.
Qed.

Lemma coerce_item_clean (item : pyobj) (c : coerced) :
  coerce_item loads item = Returns c ->
  strip (c_company_name c) = c_company_name c
  /\ (c_founding_date c = [] \/ is_canonical (c_founding_date c) = true)
  /\ strip (c_founding_date c) = c_founding_date c
  /\ (forall f, In f (c_founders c) -> is_true f = true).
Proof.
  unfold coerce_item. destruct (read_item item) as [x|]; [|discriminate].
  cbn [bind]. destruct (coerce_record_returns x) as (date & E & W & ->).
  intros [= <-]. cbn [c_company_name c_founding_date c_founders].
  split; [apply strip_idem|]. split; [exact W|]. split.
  - destruct (normalize_returns (strip (or_default (x_founding_date x) [])))
      as (v & E' & [-> | Wf]); rewrite E in E'; injection E' as ->;
      [reflexivity|]. now apply well_formed_canonical.
  - intros f. apply coerce_all_true.
Qed.

End ExtractionFacts.

(** X13.  [_coerce_record] never raises on an object whose name and date
    are texts or absent and whose founders are a text, a list or absent;
    on a value of any kind it raises only where a field cannot be read.
    The record it returns has a trimmed name, a date that is empty or
    canonical, and founders none of which is empty or false. *)
Theorem coerced_record_is_clean (loads : str -> outcome pyobj) :
  (forall x : extracted, exists c, _coerce_record loads x = Returns c)
  /\ (forall item : pyobj,
         coerce_item loads item = Raises <-> read_item item = Raises)
  /\ (forall (item : pyobj) (c : coerced),
         coerce_item loads item = Returns c ->
         strip (c_company_name c) = c_company_name c
         /\ (c_founding_date c = [] \/ is_canonical (c_founding_date c) = true)
         /\ (forall f, In f (c_founders c) -> is_true f = true)).
Proof.
  split; [|split].
  - intros x. destruct (coerce_record_returns loads x) as (date & _ & _ & E).
    eauto.
  - intros item. unfold coerce_item.
    destruct (read_item item) as [x|]; cbn [bind]; [|tauto].
    destruct (coerce_record_returns loads x) as (date & _ & _ & ->).
    split; discriminate.
  - intros item c H.
    destruct (coerce_item_clean loads item c H) as (A & B & _ & D). auto.
Qed.

(** * The extraction from a paragraph *)

Lemma map_outcome_raises (A B : Type) (f : A -> outcome B) (l : list A) :
  (exists x, In x l /\ f x = Raises) -> map_outcome f l = Raises.
Proof.
  induction l as [|a l IH]; intros (x & I & E); [destruct I|].
  cbn [map_outcome]. destruct I as [<- | I].
  - now rewrite E.
  - destruct (f a); cbn [bind]; [|reflexivity].
    rewrite IH by eauto. reflexivity.
Qed.

Lemma map_outcome_returns (A B : Type) (f : A -> outcome B) (l : list A)
      (ys : list B) :
  map_outcome f l = Returns ys ->
  Forall2 (fun x y => f x = Returns y) l ys.
Proof.
  revert ys. induction l as [|a l IH]; intros ys; cbn [map_outcome].
  - intros [= <-]. constructor.
  - destruct (f a) as [y|] eqn:E; cbn [bind]; [|discriminate].
    destruct (map_outcome f l) as [ys'|]; cbn [bind]; [|discriminate].
    intros [= <-]. constructor; auto.
Qed.

Lemma forall2_in_right (A B : Type) (R : A -> B -> Prop) (l : list A)
      (ys : list B) (y : B) :
  Forall2 R l ys -> In y ys -> exists x, In x l /\ R x y.
Proof.
  induction 1 as [|a b l ys Hab _ IH]; intros I; [destruct I|].
  destruct I as [<- | I].
  - exists a. split; [now left|assumption].
  - destruct (IH I) as (x & Ix & Rx). exists x. split; [now right|assumption].
Qed.

Section ParagraphFacts.
Variable loads : str -> outcome pyobj.
Variable reply : str -> outcome str.

Lemma extract_blank (paragraph : str) :
  forallb is_space paragraph = true ->
  _extract_from_paragraph loads reply paragraph = [].
Proof.
  intros H. apply strip_blank in H. unfold _extract_from_paragraph.
  now rewrite H.
Qed.

Lemma extract_items (paragraph : str) (c : coerced) :
  In c (_extract_from_paragraph loads reply paragraph) ->
  c_company_name c <> []
  /\ exists out items item,
       CHAIN loads reply paragraph = Returns out
       /\ companies_of out = Returns items
       /\ In item items /\ coerce_item loads item = Returns c.
Proof.
  unfold _extract_from_paragraph.
  destruct (negb (nonempty (strip paragraph))); [intros []|].
  destruct (CHAIN loads reply paragraph) as [out|]; cbn [bind]; [|intros []].
  destruct (companies_of out) as [items|] eqn:Ci; cbn [bind]; [|intros []].
  destruct (map_outcome (coerce_item loads) items) as [cleaned|] eqn:M;
    cbn [bind]; [|intros []].
  intros H. apply filter_In in H as [H N].
  split; [now apply nonempty_true|].
  apply map_outcome_returns in M.
  destruct (forall2_in_right _ _ _ _ _ c M H) as (item & I & E).
  exists out, items, item.
  split; [reflexivity|]. split; [exact Ci|]. split; assumption.
Qed.

Lemma extract_all_or_nothing (paragraph : str) (out : pyobj)
      (items : list pyobj) :
  CHAIN loads reply paragraph = Returns out ->
  companies_of out = Returns items ->
  (exists item, In item items /\ coerce_item loads item = Raises) ->
  _extract_from_paragraph loads reply paragraph = [].
Proof.
  intros C I R. unfold _extract_from_paragraph.
  destruct (negb (nonempty (strip paragraph))); [reflexivity|].
  rewrite C. cbn [bind]. rewrite I. cbn [bind].
  now rewrite map_outcome_raises.
Qed.

Lemma extract_failure (paragraph : str) :
  CHAIN loads reply paragraph = Raises ->
  _extract_from_paragraph loads reply paragraph = [].
Proof.
  intros C. unfold _extract_from_paragraph. rewrite C.
  now destruct (negb (nonempty (strip paragraph))).
Qed.

End ParagraphFacts.

(** X14.  [_extract_from_paragraph] gives no record for a paragraph of
    whitespace, whatever the model would answer, and none when the model or
    the parsing of its answer raises.  The records of an answer are taken
    all or none: one item that cannot be coerced empties the result.  A
    record it gives has a name that is trimmed and not empty, a date that
    is empty or canonical, and founders none of which is empty or false. *)
Theorem paragraph_records_are_clean
        (loads : str -> outcome pyobj) (reply : str -> outcome str)
        (paragraph : str) :
  (forallb is_space paragraph = true ->
   _extract_from_paragraph loads reply paragraph = [])
  /\ (CHAIN loads reply paragraph = Raises ->
      _extract_from_paragraph loads reply paragraph = [])
  /\ (forall out items,
         CHAIN loads reply paragraph = Returns out ->
         companies_of out = Returns items ->
         (exists item, In item items /\ coerce_item loads item = Raises) ->
         _extract_from_paragraph loads reply paragraph = [])
  /\ (forall c,
         In c (_extract_from_paragraph loads reply paragraph) ->
         c_company_name c <> []
         /\ strip (c_company_name c) = c_company_name c
         /\ (c_founding_date c = [] \/ is_canonical (c_founding_date c) = true)
         /\ (forall f, In f (c_founders c) -> is_true f = true)).
Proof.
  split; [apply extract_blank|]. split; [apply extract_failure|].
  split; [apply extract_all_or_nothing|].
  intros c H.
  apply extract_items in H as (N & out & items & item & _ & _ & _ & E).
  destruct (coerce_item_clean loads item c E) as (A & B & _ & D). auto.
Qed.

(** * The merger on coerced records *)

Lemma names_of_texts (l : list str) : names_of (map PStr l) = l.
Proof. induction l as [|x l IH]; simpl; [|rewrite IH]; reflexivity. Qed.

Lemma texts_of_names (fs : list pyobj) :
  forallb is_text fs = true -> map PStr (names_of fs) = fs.
Proof.
  induction fs as [|f fs IH]; [reflexivity|]. cbn [forallb]. intros H.
  apply andb_true_iff in H as [Hf H]. destruct f; try discriminate Hf.
  simpl. now rewrite IH.
Qed.

Lemma filter_true_texts (l : list str) :
  filter is_true (map PStr l) = map PStr (filter nonempty l).
Proof.
  induction l as [|x l IH]; [reflexivity|]. cbn [map filter is_true].
  destruct (nonempty x); cbn [map]; now rewrite IH.
Qed.

Lemma sort_by_map (A B : Type) (f : A -> B) (key : A -> str) (key' : B -> str)
      (l : list A) :
  (forall x, key' (f x) = key x) ->
  sort_by key' (map f l) = map f (sort_by key l).
Proof.
  intros K. unfold sort_by.
  assert (I : forall x acc,
             insert_by key' (f x) (map f acc) = map f (insert_by key x acc)).
  { intros x acc. induction acc as [|y acc IH]; [reflexivity|].
    cbn [map insert_by]. rewrite !K.
    destruct (str_ltb (key x) (key y)); [reflexivity|].
    cbn [map]. now rewrite IH. }
  change (@nil B) with (map f []). generalize (@nil A).
  induction l as [|x l IH]; intros acc; [reflexivity|].
  cbn [map fold_left]. now rewrite I, IH.
Qed.

Lemma sorted_map (A B : Type) (f : A -> B) (key : A -> str) (key' : B -> str)
      (l : list A) :
  (forall x, key' (f x) = key x) ->
  Sorted (key_le key) l -> Sorted (key_le key') (map f l).
Proof.
  intros K. induction 1 as [|x l _ IH Hd]; cbn [map]; constructor; auto.
  destruct Hd as [|y l Hxy]; cbn [map]; constructor.
  unfold key_le in *. now rewrite !K.
Qed.

Section Simulation.
Variable casefold : str -> str.

Local Abbreviation lift :=
  (fun p : str * record => (fst p, coerced_of (snd p))).

Lemma founder_keys (l : list str) :
  map_outcome (founder_key casefold) (map PStr l) = Returns (map casefold l).
Proof.
  induction l as [|x l IH]; [reflexivity|].
  cbn [map map_outcome founder_key bind]. now rewrite IH.
Qed.

Lemma add_founders_texts (incoming : list str) :
  forall (merged seen : list str),
    fold_outcome (add_founder_obj casefold) (map PStr incoming)
                 (map PStr merged, seen)
    = Returns
        (map PStr (fst (fold_left (add_founder casefold) incoming
                                  (merged, seen))),
         snd (fold_left (add_founder casefold) incoming (merged, seen))).
Proof.
  induction incoming as [|f incoming IH]; intros merged seen; [reflexivity|].
  cbn [map fold_outcome fold_left add_founder_obj add_founder founder_key bind].
  destruct (set_has seen (casefold f)); cbn [negb bind].
  - apply IH.
  - change [PStr f] with (map PStr [f]). rewrite <- map_app. apply IH.
Qed.

Lemma merge_founders_texts (existing incoming : list str) :
  merge_founders_obj casefold (map PStr existing) (map PStr incoming)
  = Returns (map PStr (merge_founders casefold existing incoming)).
Proof.
  unfold merge_founders_obj, merge_founders.
  rewrite founder_keys. cbn [bind]. rewrite add_founders_texts.
  reflexivity.
Qed.

Lemma dict_get_lift (m : list (str * record)) (k : str) :
  dict_get (map lift m) k = option_map coerced_of (dict_get m k).
Proof.
  induction m as [|[k' e] m IH]; [reflexivity|].
  cbn [map dict_get fst snd]. destruct (str_eqb k' k); [reflexivity|exact IH].
Qed.

Lemma dict_set_lift (m : list (str * record)) (k : str) (v : record) :
  dict_set (map lift m) k (coerced_of v) = map lift (dict_set m k v).
Proof.
  induction m as [|[k' e] m IH]; [reflexivity|].
  cbn [map dict_set fst snd]. destruct (str_eqb k' k); [reflexivity|].
  cbn [map fst snd]. now rewrite IH.
Qed.

Lemma merge_record_texts (m : list (str * record)) (c : coerced) :
  forallb is_text (c_founders c) = true ->
  merge_record_obj casefold (map lift m) c
  = Returns (map lift (merge_record casefold m (raw_of c))).
Proof.
  intros T. unfold merge_record_obj, merge_record, raw_of.
  cbn [raw_company_name raw_founding_date raw_founders or_default].
  destruct (nonempty (strip (c_company_name c))); cbn [negb]; [|reflexivity].
  assert (F : filter is_true (c_founders c)
              = map PStr (filter nonempty (names_of (c_founders c)))).
  { rewrite <- filter_true_texts. now rewrite texts_of_names. }
  rewrite dict_get_lift, F.
  destruct (dict_get m (casefold (strip (c_company_name c)))) as [e|];
    cbn [option_map].
  - cbn [coerced_of c_founders c_company_name c_founding_date].
    rewrite merge_founders_texts. cbn [bind].
    now rewrite <- dict_set_lift.
  - now rewrite <- dict_set_lift.
Qed.

Lemma merge_loop_texts (records : list coerced) :
  (forall c, In c records -> forallb is_text (c_founders c) = true) ->
  forall m : list (str * record),
    fold_outcome (merge_record_obj casefold) records (map lift m)
    = Returns (map lift (fold_left (merge_record casefold)
                                   (map raw_of records) m)).
Proof.
  induction records as [|c records IH]; intros T m; [reflexivity|].
  cbn [fold_outcome map fold_left].
  rewrite merge_record_texts by (apply T; now left). cbn [bind].
  apply IH. intros x Hx. apply T. now right.
Qed.

(** On records whose founders are texts the merger is [dedupe_records]. *)
Lemma dedupe_objects_texts (records : list coerced) :
  (forall c, In c records -> forallb is_text (c_founders c) = true) ->
  dedupe_objects casefold records
  = Returns (map coerced_of (dedupe_records casefold (map raw_of records))).
Proof.
  intros T. unfold dedupe_objects, dedupe_records.
  change (@nil (str * coerced)) with (map lift []).
  rewrite (merge_loop_texts records T []). cbn [bind]. f_equal.
  unfold dict_values. rewrite map_map. cbn [snd].
  rewrite <- (map_map snd coerced_of). now apply sort_by_map.
Qed.


End Simulation.

(** * The whole extraction *)

Lemma group_dates_origin (fold : str -> str) (k : str)
      (records : list raw_record) (d : str) :
  In d (group_dates fold k records) ->
  exists r, In r records
            /\ d = strip (or_default (raw_founding_date r) []) /\ d <> [].
Proof.
  unfold group_dates. intros H. apply filter_In in H as [H N].
  apply in_map_iff in H as (r & E & H). apply filter_In in H as [H _].
  exists r. split; [exact H|]. split; [now rewrite E|now apply nonempty_true].
Qed.

Section WholeExtraction.
Variable casefold : str -> str.
Variable loads : str -> outcome pyobj.
Variable reply : str -> outcome str.

Local Abbreviation name_key := (fun x : coerced => casefold (c_company_name x)).

Lemma extract_info_blank (text : str) :
  forallb is_space text = true ->
  extract_company_info casefold loads reply text = Returns [].
Proof.
  intros H. unfold extract_company_info.
  now rewrite split_paragraphs_blank.
Qed.

Lemma extract_info_texts (text : str) :
  (forall p c, In p (split_paragraphs text) ->
               In c (_extract_from_paragraph loads reply p) ->
               forallb is_text (c_founders c) = true) ->
  exists out,
    extract_company_info casefold loads reply text = Returns out
    /\ Sorted (key_le name_key) out
    /\ NoDup (map name_key out)
    /\ (forall o, In o out ->
          c_company_name o <> []
          /\ (c_founding_date o = []
              \/ is_canonical (c_founding_date o) = true)).
Proof.
  intros T. unfold extract_company_info.
  set (results := flat_map (_extract_from_paragraph loads reply)
                           (split_paragraphs text)).
  assert (R : forall c, In c results ->
                exists p, In p (split_paragraphs text)
                          /\ In c (_extract_from_paragraph loads reply p)).
  { intros c H. now apply in_flat_map in H. }
  rewrite dedupe_objects_texts.
  2:{ intros c H. destruct (R c H) as (p & Hp & Hc). eauto. }
  eexists. split; [reflexivity|]. split; [|split].
  - apply (sorted_map _ _ coerced_of (sort_key casefold) name_key);
      [reflexivity|apply dedupe_sorted].
  - rewrite map_map. apply (dedupe_keys_distinct casefold).
  - intros o H. apply in_map_iff in H as (e & <- & H).
    cbn [coerced_of c_company_name c_founding_date]. split.
    + now destruct (dedupe_clean casefold _ e H).
    + destruct (dedupe_date casefold _ e H) as [D0 D1].
      destruct (group_dates casefold (casefold (company_name e))
                            (map raw_of results)) as [|d0 ds] eqn:G.
      * left. now apply D0.
      * right. destruct D1 as [D1 _]; [discriminate|].
        rewrite <- G in D1.
        apply group_dates_origin in D1 as (r & Hr & E & N).
        apply in_map_iff in Hr as (c & <- & Hc).
        cbn [raw_of raw_founding_date or_default] in E.
        destruct (R c Hc) as (p & _ & Hp).
        apply extract_items in Hp as (_ & _ & _ & item & _ & _ & _ & Ci).
        destruct (coerce_item_clean loads item c Ci) as (_ & B & S & _).
        rewrite S in E. rewrite E in *. destruct B; [contradiction|assumption].
Qed.

End WholeExtraction.

(** X15.  [extract_company_info] gives no record for a text of whitespace.
    When the founders that come out of the paragraphs are all texts, it
    returns, and its result is in ascending order of the case-folded
    names, holds each case-folded name once, and each record of it has a
    name that is not empty and a date that is empty or canonical. *)
Theorem extraction_is_sorted_and_clean
        (fold : str -> str) (loads : str -> outcome pyobj)
        (reply : str -> outcome str) (text : str) :
  (forallb is_space text = true ->
   extract_company_info fold loads reply text = Returns [])
  /\ ((forall p c, In p (split_paragraphs text) ->
                   In c (_extract_from_paragraph loads reply p) ->
                   forallb is_text (c_founders c) = true) ->
      exists out,
        extract_company_info fold loads reply text = Returns out
        /\ Sorted (key_le (fun x => fold (c_company_name x))) out
        /\ NoDup (map (fun x => fold (c_company_name x)) out)
        /\ (forall o, In o out ->
              c_company_name o <> []
              /\ (c_founding_date o = []
                  \/ is_canonical (c_founding_date o) = true))).
Proof.
  split; [apply extract_info_blank|apply extract_info_texts].
Qed.



(** The extraction at work on one paragraph, the model answering
    [example_answer]. *)
Example extraction_example :
  extract_company_info casefold (fun _ => Returns example_answer)
    (fun p => Returns p) "Acme Inc. began on March 5, 1990."
  = Returns [ {| c_company_name := "Acme Inc.";
                 c_founding_date := "1990-03-05";
                 c_founders := [PStr "Jane"; PStr "Bob"] |} ].
Proof. vm_compute. reflexivity. Qed.

Lemma extraction_is_sorted_and_clean_witness :
  exists out,
    extract_company_info casefold (fun _ => Returns example_answer)
      (fun p => Returns p) "Acme Inc. began on March 5, 1990."
    = Returns out
    /\ Sorted (key_le (fun x => casefold (c_company_name x))) out
    /\ NoDup (map (fun x => casefold (c_company_name x)) out)
    /\ (forall o, In o out ->
          c_company_name o <> []
          /\ (c_founding_date o = []
              \/ is_canonical (c_founding_date o) = true)).
Proof.
  apply (proj2 (extraction_is_sorted_and_clean casefold
                  (fun _ => Returns example_answer) (fun p => Returns p)
                  "Acme Inc. began on March 5, 1990.")).
  intros p c Hp Hc. vm_compute in Hp. destruct Hp as [<- | []].
  vm_compute in Hc. destruct Hc as [<- | []]. reflexivity.
Defined.

(** * The founders cell and the coercion *)

Lemma plain_facts (c : ascii) :
  plain c = true ->
  is_char "'" c = false /\ is_char dquote c = false
  /\ is_char backslash c = false /\ (code c <? 32)%N = false.
Proof.
  unfold plain. intros H.
  apply andb_true_iff in H as [H H4]. apply andb_true_iff in H as [H H3].
  apply andb_true_iff in H as [H1 H2].
  apply negb_true_iff in H1, H2, H3, H4. auto.
Qed.

Lemma read_string_plain (n : str) :
  forallb plain n = true ->
  forall rest acc,
    read_string (n ++ dquote :: rest) acc = Some (rev acc ++ n, rest).
Proof.
  induction n as [|c n IH]; intros H rest acc.
  - cbn [app read_string]. change (is_char dquote dquote) with true.
    cbn iota. now rewrite app_nil_r.
  - cbn [forallb] in H. apply andb_true_iff in H as [Hc H].
    apply plain_facts in Hc as (_ & Q & B & L).
    cbn [app read_string]. rewrite Q, B, L, IH by assumption.
    cbn [rev]. now rewrite <- app_assoc.
Qed.

Lemma read_value_text (f : nat) (n rest : str) :
  forallb plain n = true ->
  read_value (S f) (dquote :: n ++ dquote :: rest) = Some (PStr n, rest).
Proof.
  intros H. cbn [read_value]. unfold dquote at 1.
  cbv beta iota. change (is_char dquote "034") with true. cbv iota.
  now rewrite read_string_plain.
Qed.

Lemma read_items_step (f : nat) (s : str) :
  read_items (S f) s =
    match read_value f s with
    | Some (v, rest) =>
        match skip_spaces rest with
        | ","%char :: rest1 =>
            match read_items f (skip_spaces rest1) with
            | Some (vs, rest2) => Some (v :: vs, rest2)
            | None => None
            end
        | "]"%char :: rest1 => Some ([v], rest1)
        | _ => None
        end
    | None => None
    end.
Proof. reflexivity. Qed.

Lemma skip_spaces_dquote (s : str) : skip_spaces (dquote :: s) = dquote :: s.
Proof. reflexivity. Qed.

Lemma skip_spaces_comma (s : str) :
  skip_spaces (","%char :: s) = ","%char :: s.
Proof. reflexivity. Qed.

Lemma skip_spaces_bracket (s : str) :
  skip_spaces ("]"%char :: s) = "]"%char :: s.
Proof. reflexivity. Qed.

Lemma skip_spaces_space (s : str) : skip_spaces (" "%char :: s) = skip_spaces s.
Proof. reflexivity. Qed.

(** The text between the brackets once the single quotes are double ones:
    the names, each between double quotes, with a comma and a space
    between them. *)
Lemma read_items_texts (names : list str) :
  (forall n, In n names -> forallb plain n = true) ->
  forall (n0 : str) (f : nat) (rest : str),
    forallb plain n0 = true ->
    length names <= f ->
    read_items (S (S f))
      (dquote :: join_str [dquote; ","; " "; dquote]%char (n0 :: names)
              ++ dquote :: "]"%char :: rest)
    = Some (map PStr (n0 :: names), rest).
Proof.
  induction names as [|n1 names IH]; intros P n0 f rest P0 L.
  - cbn [join_str]. rewrite read_items_step, read_value_text by assumption.
    now rewrite skip_spaces_bracket.
  - change (join_str [dquote; ","; " "; dquote]%char (n0 :: n1 :: names))
      with (n0 ++ [dquote; ","; " "; dquote]%char
               ++ join_str [dquote; ","; " "; dquote]%char (n1 :: names)).
    rewrite <- !app_assoc. cbn [app].
    rewrite read_items_step, read_value_text by assumption.
    rewrite skip_spaces_comma, skip_spaces_space, skip_spaces_dquote.
    destruct f as [|f]; [simpl in L; lia|].
    rewrite IH; [reflexivity| |apply P; now left|simpl in L; lia].
    intros n Hn. apply P. now right.
Qed.

Lemma join_length (c : ascii) (sep n0 : str) (names : list str) :
  length names <= length (join_str (c :: sep) (n0 :: names)).
Proof.
  revert n0. induction names as [|n1 names IH]; intros n0; [simpl; lia|].
  change (join_str (c :: sep) (n0 :: n1 :: names))
    with (n0 ++ (c :: sep) ++ join_str (c :: sep) (n1 :: names)).
  rewrite !length_app. specialize (IH n1). simpl in *. lia.
Qed.

(** [json.loads] reads the list of the names back. *)
Lemma json_loads_texts (n0 : str) (names : list str) :
  (forall n, In n (n0 :: names) -> forallb plain n = true) ->
  json_loads ("["%char :: dquote
              :: join_str [dquote; ","; " "; dquote]%char (n0 :: names)
              ++ [dquote; "]"%char])
  = Returns (PList (map PStr (n0 :: names))).
Proof.
  intros P. unfold json_loads.
  set (J := join_str [dquote; ","; " "; dquote]%char (n0 :: names)).
  assert (L : length names <= length J) by apply join_length.
  change (skip_spaces ("["%char :: dquote :: J ++ [dquote; "]"%char]))
    with ("["%char :: dquote :: J ++ [dquote; "]"%char]).
  cbn [length]. rewrite length_app. cbn [length].
  replace (2 * S (S (length J + 2)) + 2)
    with (S (S (S (2 * length J + 7)))) by lia.
  change (read_value (S (S (S (2 * length J + 7))))
            ("["%char :: dquote :: J ++ [dquote; "]"%char]))
    with (match read_items (S (S (2 * length J + 7)))
                  (dquote :: J ++ [dquote; "]"%char]) with
          | Some (items, rest) => Some (PList items, rest)
          | None => None
          end).
  subst J. rewrite read_items_texts; [reflexivity| | |lia].
  - intros n Hn. apply P. now right.
  - apply P. now left.
Qed.

Lemma replace_plain (n : str) :
  forallb plain n = true -> replace "'" dquote n = n.
Proof.
  induction n as [|c n IH]; [reflexivity|]. cbn [forallb]. intros H.
  apply andb_true_iff in H as [Hc H]. apply plain_facts in Hc as (Q & _).
  unfold replace in *. cbn [map]. now rewrite Q, IH.
Qed.

Lemma replace_join (a b : ascii) (sep : str) (l : list str) :
  replace a b (join_str sep l) = join_str (replace a b sep) (map (replace a b) l).
Proof.
  induction l as [|x l IH]; [reflexivity|].
  destruct l as [|y l]; [reflexivity|].
  change (join_str sep (x :: y :: l)) with (x ++ sep ++ join_str sep (y :: l)).
  unfold replace at 1. rewrite !map_app. fold (replace a b x).
  fold (replace a b sep). fold (replace a b (join_str sep (y :: l))).
  now rewrite IH.
Qed.

Lemma map_replace_plain (names : list str) :
  (forall n, In n names -> forallb plain n = true) ->
  map (replace "'" dquote) names = names.
Proof.
  induction names as [|n names IH]; intros P; [reflexivity|].
  cbn [map]. rewrite replace_plain, IH; auto.
  - intros x Hx. apply P. now right.
  - apply P. now left.
Qed.

Lemma join_texts_names (sep : str) (names : list str) :
  join_texts sep (map PStr names) = Returns (join_str sep names).
Proof.
  unfold join_texts.
  assert (M : map_outcome (fun f => match f with
                                    | PStr s => Returns s
                                    | _ => Raises
                                    end) (map PStr names) = Returns names).
  { induction names as [|n names IH]; [reflexivity|].
    cbn [map map_outcome bind]. now rewrite IH. }
  now rewrite M.
Qed.

(** The text of the cell, and what the coercion does to it. *)
Lemma cell_text (J : str) :
  let text := "["%char :: "'"%char :: J ++ ["'"; "]"]%char in
  strip text = text
  /\ startswith "[" text && endswith "]" text = true
  /\ replace "'" dquote text
     = "["%char :: dquote :: replace "'" dquote J ++ [dquote; "]"%char].
Proof.
  intros text.
  assert (R : rev text = "]"%char :: "'"%char :: rev J ++ ["'"; "["]%char).
  { unfold text. cbn [rev]. rewrite rev_app_distr. cbn [rev app].
    now rewrite <- !app_assoc. }
  split; [|split].
  - apply strip_fixed; [reflexivity|]. now rewrite R.
  - unfold endswith. now rewrite R.
  - unfold text, replace. cbn [map]. now rewrite map_app.
Qed.

Lemma coerce_cell (n0 : str) (names : list str) :
  (forall n, In n (n0 :: names) -> forallb plain n = true) ->
  coerce_founders json_loads
    (FoundersText ("["%char :: "'"%char
                   :: join_str "', '" (n0 :: names) ++ ["'"; "]"]%char))
  = filter is_true (map PStr (n0 :: names)).
Proof.
  intros P.
  destruct (cell_text (join_str "', '" (n0 :: names))) as (S & B & R).
  cbv zeta in S, B, R.
  apply coerce_parsed; rewrite S; [exact B|].
  rewrite R, replace_join, map_replace_plain by assumption.
  now apply json_loads_texts.
Qed.

(** X17.  The founders cell of the CSV file and the coercion of a founders
    text fit together: the cell written for a list of names is read back
    by [_coerce_record] as these names, the empty ones dropped, provided no
    name holds a quote of either kind, a backslash or a control
    character.  The empty list, written with one empty name between the
    brackets, is read back as the empty list. *)
Theorem founders_cell_round_trip (names : list str) :
  (forall n, In n names -> forallb plain n = true) ->
  exists text,
    founders_str (map PStr names) = Returns text
    /\ coerce_founders json_loads (FoundersText text)
       = map PStr (filter nonempty names).
Proof.
  intros P. unfold founders_str. rewrite join_texts_names. cbn [bind].
  eexists. split; [reflexivity|].
  change (("['" : str) ++ join_str "', '" names ++ ("']" : str))
    with ("["%char :: "'"%char :: join_str "', '" names ++ ["'"; "]"]%char).
  destruct names as [|n0 names].
  - apply (coerce_cell [] []). intros n [<- | []]. reflexivity.
  - rewrite coerce_cell by assumption. apply filter_true_texts.
Qed.

Lemma founders_cell_round_trip_witness :
  exists text,
    founders_str (map PStr [("Jane" : str); ("Bob" : str)]) = Returns text
    /\ coerce_founders json_loads (FoundersText text)
       = map PStr (filter nonempty [("Jane" : str); ("Bob" : str)]).
Proof.
  apply (founders_cell_round_trip [("Jane" : str); ("Bob" : str)]).
  intros n [<- | [<- | []]]; reflexivity.
Defined.

(** * The rows of the CSV file *)






(** * Founders in one text, separated by commas *)

Lemma split_on_piece (sep : ascii) (a r : str) :
  forallb (fun c => negb (is_char sep c)) a = true ->
  split_on sep (a ++ sep :: r) = a :: split_on sep r.
Proof.
  induction a as [|c a IH]; intros H.
  - cbn [app split_on]. unfold is_char. now rewrite Ascii.eqb_refl.
  - cbn [forallb] in H. apply andb_true_iff in H as [Hc H].
    apply negb_true_iff in Hc. cbn [app split_on]. now rewrite Hc, IH.
Qed.

Lemma split_on_single (sep : ascii) (a : str) :
  forallb (fun c => negb (is_char sep c)) a = true -> split_on sep a = [a].
Proof.
  induction a as [|c a IH]; intros H; [reflexivity|].
  cbn [forallb] in H. apply andb_true_iff in H as [Hc H].
  apply negb_true_iff in Hc. cbn [split_on]. now rewrite Hc, IH.
Qed.

Lemma join_str_head (sep w n0 : str) (names : list str) :
  w ++ join_str sep (n0 :: names) = join_str sep ((w ++ n0) :: names).
Proof.
  destruct names as [|n1 names]; [reflexivity|].
  change (join_str sep (n0 :: n1 :: names))
    with (n0 ++ sep ++ join_str sep (n1 :: names)).
  change (join_str sep ((w ++ n0) :: n1 :: names))
    with ((w ++ n0) ++ sep ++ join_str sep (n1 :: names)).
  now rewrite app_assoc.
Qed.

Lemma split_on_join (c : ascii) (w : str) (names : list str) :
  forallb (fun x => negb (is_char c x)) w = true ->
  (forall n, In n names -> forallb (fun x => negb (is_char c x)) n = true) ->
  forall n0 : str,
    forallb (fun x => negb (is_char c x)) n0 = true ->
    split_on c (join_str (c :: w) (n0 :: names))
    = n0 :: map (fun n => w ++ n) names.
Proof.
  intros W. induction names as [|n1 names IH]; intros F n0 F0.
  - now apply split_on_single.
  - change (join_str (c :: w) (n0 :: n1 :: names))
      with (n0 ++ c :: w ++ join_str (c :: w) (n1 :: names)).
    rewrite split_on_piece, join_str_head by assumption.
    rewrite IH; [reflexivity| |].
    + intros n Hn. apply F. now right.
    + rewrite forallb_app, W. apply F. now left.
Qed.

Lemma last_cons (A : Type) (x d : A) (l : list A) : last (x :: l) d = last l x.
Proof.
  revert x d. induction l as [|y l IH]; intros x d; [reflexivity|].
  change (last (x :: y :: l) d) with (last (y :: l) d).
  now rewrite (IH y d), (IH y x).
Qed.

Lemma join_str_last (sep n0 : str) (names : list str) :
  exists pre, join_str sep (n0 :: names) = pre ++ last names n0.
Proof.
  revert n0. induction names as [|n1 names IH]; intros n0.
  - now exists [].
  - destruct (IH n1) as (pre & E). exists (n0 ++ sep ++ pre).
    change (join_str sep (n0 :: n1 :: names))
      with (n0 ++ sep ++ join_str sep (n1 :: names)).
    now rewrite E, <- !app_assoc, last_cons.
Qed.

Lemma names_text_stripped (sep n0 : str) (names : list str) :
  (forall n, In n (n0 :: names) -> founder_name n) ->
  strip (join_str sep (n0 :: names)) = join_str sep (n0 :: names).
Proof.
  intros F. apply strip_fixed.
  - destruct (F n0 (or_introl eq_refl)) as (N & S & _).
    pose proof (strip_head n0) as H. rewrite S in H.
    destruct n0 as [|c n0]; [congruence|].
    destruct names; exact H.
  - destruct (join_str_last sep n0 names) as (pre & ->).
    assert (I : In (last names n0) (n0 :: names)).
    { clear F. revert n0. induction names as [|n1 names IH]; intros n0.
      - now left.
      - rewrite last_cons. right. apply IH. }
    destruct (F _ I) as (N & S & _).
    pose proof (strip_last (last names n0)) as H. rewrite S in H.
    rewrite rev_app_distr.
    destruct (rev (last names n0)) as [|c l] eqn:R; [|exact H].
    apply (f_equal (@rev ascii)) in R. rewrite rev_involutive in R.
    simpl in R. congruence.
Qed.

(** X19.  Names written in one text with a comma and a space between them
    come back from the coercion as they are, one founder for each, when
    each name is trimmed, not empty and without a comma and the text does
    not both start and end with a bracket; this whatever [json.loads]
    does. *)
Theorem comma_separated_names_round_trip
        (loads : str -> outcome pyobj) (names : list str) :
  (forall n, In n names -> founder_name n) ->
  startswith "[" (join_str ", " names) && endswith "]" (join_str ", " names)
  = false ->
  coerce_founders loads (FoundersText (join_str ", " names)) = map PStr names.
Proof.
  intros F B. destruct names as [|n0 names]; [reflexivity|].
  rewrite coerce_not_bracketed; rewrite names_text_stripped by assumption;
    [|exact B].
  change (", " : str) with (","%char :: (" " : str)).
  rewrite split_on_join.
  - f_equal.
    assert (S : map strip (n0 :: names) = n0 :: names).
    { rewrite <- (map_id (n0 :: names)) at 2. apply map_ext_in.
      intros n Hn. now destruct (F n Hn) as (_ & S & _). }
    assert (M : map (fun n => strip ((" " : str) ++ n)) names
                = map strip names).
    { apply map_ext. intros n. now apply strip_space_front. }
    assert (E : map strip (n0 :: map (fun n => (" " : str) ++ n) names)
                = n0 :: names).
    { cbn [map] in *. rewrite map_map, M. exact S. }
    rewrite E. apply filter_all. intros n Hn. apply nonempty_true.
    now destruct (F n Hn).
  - reflexivity.
  - intros n Hn. destruct (F n (or_intror Hn)) as (_ & _ & C). exact C.
  - destruct (F n0 (or_introl eq_refl)) as (_ & _ & C). exact C.
Qed.

Lemma comma_separated_names_round_trip_witness :
  coerce_founders json_loads
    (FoundersText (join_str ", " [("Alice" : str); ("Bob" : str)]))
  = map PStr [("Alice" : str); ("Bob" : str)].
Proof.
  apply (comma_separated_names_round_trip json_loads
           [("Alice" : str); ("Bob" : str)]).
  - intros n [<- | [<- | []]]; split; try discriminate; split; reflexivity.
  - reflexivity.
Defined.

(** ** Dates in words *)

Lemma space_not_comma (c : ascii) :
  is_space c = true -> is_char "," c = false.
Proof.
  intros H. destruct (is_char "," c) eqn:E; [|reflexivity].
  apply Ascii.eqb_eq in E. subst c. discriminate H.
Qed.

Lemma space_not_letter (c : ascii) :
  is_space c = true -> is_letter c = false.
Proof.
  destruct c as [[] [] [] [] [] [] [] []]; vm_compute; congruence.
Qed.

Lemma space_not_digit (c : ascii) :
  is_space c = true -> is_digit c = false.
Proof.
  intros H. destruct (is_digit c) eqn:E; [|reflexivity].
  apply digit_not_space in E. congruence.
Qed.

Lemma letter_not_space (c : ascii) :
  is_letter c = true -> is_space c = false.
Proof.
  intros H. destruct (is_space c) eqn:E; [|reflexivity].
  apply space_not_letter in E. congruence.
Qed.

Lemma letter_not_digit (c : ascii) :
  is_letter c = true -> is_digit c = false.
Proof.
  destruct c as [[] [] [] [] [] [] [] []]; vm_compute; congruence.
Qed.

Lemma greedy_skip (A : Type) (p : ascii -> bool) (hi : option nat) (s : str)
      (k : str -> option A) (a : A) :
  match s with c :: _ => p c = false | [] => True end ->
  k s = Some a -> greedy p 0 hi s k = Some a.
Proof.
  intros H K. apply (greedy_complete A p [] 0 hi s k a); auto.
  destruct hi; simpl; [lia|exact I].
Qed.

Lemma head_of (p : ascii -> bool) (q : ascii -> bool) (w rest : str) :
  w <> [] -> forallb q w = true ->
  (forall c, q c = true -> p c = false) ->
  match w ++ rest with c :: _ => p c = false | [] => True end.
Proof.
  intros N Q I. destruct w as [|c w]; [congruence|].
  cbn [forallb] in Q. apply andb_true_iff in Q as [Q _]. cbn [app]. auto.
Qed.

Lemma mdy_match (name ws1 D comma ws2 Y : str) :
  name <> [] -> forallb is_letter name = true ->
  ws1 <> [] -> forallb is_space ws1 = true ->
  all_digits D -> 1 <= length D <= 2 ->
  comma = [] \/ comma = [","%char] ->
  ws2 <> [] -> forallb is_space ws2 = true ->
  all_digits Y -> length Y = 4 ->
  re_match MONTH_DAY_YEAR (name ++ ws1 ++ D ++ comma ++ ws2 ++ Y ++ [])
  = Some [name; D; Y].
Proof.
  intros Nn L N1 S1 DD LD C N2 S2 DY LY.
  unfold re_match, MONTH_DAY_YEAR, spaces, spaces1, digits, letters1, opt_comma.
  cbn [run].
  apply greedy_skip;
    [apply (head_of is_space is_letter); auto using letter_not_space|].
  apply greedy_complete;
    [ exact L | destruct name; [congruence|simpl; lia] | exact I |
    | left; apply (head_of is_letter is_space); auto using space_not_letter ].
  apply greedy_complete;
    [ exact S1 | destruct ws1; [congruence|simpl; lia] | exact I |
    | left; apply (head_of is_space is_digit);
      [ destruct D; [simpl in LD; lia|discriminate] | exact DD
      | apply digit_not_space ] ].
  apply greedy_complete; [ exact DD | lia | simpl; lia | | ].
  2:{ destruct (Nat.eq_dec (length D) 2) as [E | E];
        [right; now rewrite E|left].
      destruct C as [-> | ->]; cbn [app].
      - apply (head_of is_digit is_space); auto using space_not_digit.
      - reflexivity. }
  apply greedy_complete;
    [ destruct C as [-> | ->]; reflexivity
    | lia
    | destruct C as [-> | ->]; simpl; lia | | ].
  2:{ destruct C as [-> | ->]; [left|right; reflexivity].
      apply (head_of (is_char ",") is_space); auto using space_not_comma. }
  apply greedy_complete;
    [ exact S2 | destruct ws2; [congruence|simpl; lia] | exact I |
    | left; apply (head_of is_space is_digit);
      [ destruct Y; [discriminate LY|discriminate] | exact DY
      | apply digit_not_space ] ].
  apply greedy_complete;
    [ exact DY | lia | simpl; lia | | right; now rewrite LY ].
  apply greedy_skip; [exact I|].
  cbn [at_end app]. now rewrite !firstn_consumed.
Qed.

Lemma iso_no_letter (name rest : str) :
  name <> [] -> forallb is_letter name = true ->
  re_match ISO (name ++ rest) = None.
Proof.
  intros N L. destruct name as [|l name]; [congruence|].
  cbn [forallb] in L. apply andb_true_iff in L as [L _].
  unfold re_match, ISO, spaces, digits, dash_or_slash.
  cbn [run app greedy]. rewrite (letter_not_space l L). cbn [andb].
  rewrite (letter_not_digit l L). reflexivity.
Qed.

Lemma words_text_stripped (name mid Y : str) :
  name <> [] -> forallb is_letter name = true ->
  all_digits Y -> length Y = 4 ->
  strip (name ++ mid ++ Y) = name ++ mid ++ Y.
Proof.
  intros N L DY LY. apply strip_fixed.
  - destruct name as [|l name]; [congruence|].
    cbn [forallb] in L. apply andb_true_iff in L as [L _].
    cbn [app]. now apply letter_not_space.
  - destruct (year_digits Y DY LY) as (a & b & c & e & -> & _ & _ & _ & He).
    rewrite !app_assoc, rev_app_distr. cbn [rev app].
    now apply digit_not_space.
Qed.

(** X20.  A date in words, a month name, the day in one or two figures,
    with or without a comma, and the year in four figures, is normalised
    to the date of its three parts, the day clamped, when the name is one
    of the table and neither the day nor the year is 0. *)
Theorem month_day_year_is_recognised
        (name ws1 D comma ws2 Y : str) (mo : Z) :
  name <> [] -> forallb is_letter name = true ->
  _month_to_num name = Some mo ->
  ws1 <> [] -> forallb is_space ws1 = true ->
  all_digits D -> 1 <= length D <= 2 ->
  comma = [] \/ comma = [","%char] ->
  ws2 <> [] -> forallb is_space ws2 = true ->
  all_digits Y -> length Y = 4 ->
  exists d y,
    int D = Returns d /\ int Y = Returns y
    /\ (d <> 0%Z -> y <> 0%Z ->
        _try_month_day_year (name ++ ws1 ++ D ++ comma ++ ws2 ++ Y)
        = Some (_fmt_date y (Some mo) (Some d))
        /\ normalize_date_string (name ++ ws1 ++ D ++ comma ++ ws2 ++ Y)
           = Returns (_fmt_date y (Some mo) (Some d))).
Proof.
  intros Nn L M N1 S1 DD LD C N2 S2 DY LY.
  destruct (int_digits D) as (d & Ed & Sd & _);
    [apply nonempty_length; lia | exact DD |].
  destruct (int_digits Y) as (y & Ey & Sy & _);
    [apply nonempty_length; lia | exact DY |].
  exists d, y. split; [exact Ed|]. split; [exact Ey|]. intros Hd Hy.
  pose proof (month_to_num_range name mo M) as Rm.
  assert (T : _try_month_day_year (name ++ ws1 ++ D ++ comma ++ ws2 ++ Y)
              = Some (_fmt_date y (Some mo) (Some d))).
  { unfold _try_month_day_year.
    rewrite <- (app_nil_r Y) at 1. rewrite mdy_match by assumption.
    cbn [group pred nth]. rewrite M, Sd, Sy, !truthy_value.
    apply Z.eqb_neq in Hd, Hy. rewrite Hd, Hy.
    destruct (Z.eqb_spec mo 0); [lia|]. reflexivity. }
  split; [exact T|].
  assert (Ne : is_empty (name ++ ws1 ++ D ++ comma ++ ws2 ++ Y) = false)
    by (destruct name; [congruence|reflexivity]).
  assert (St : strip (name ++ ws1 ++ D ++ comma ++ ws2 ++ Y)
               = name ++ ws1 ++ D ++ comma ++ ws2 ++ Y).
  { replace (name ++ ws1 ++ D ++ comma ++ ws2 ++ Y)
      with (name ++ (ws1 ++ D ++ comma ++ ws2) ++ Y)
      by (now rewrite <- !app_assoc).
    now apply words_text_stripped. }
  unfold normalize_date_string.
  rewrite Ne, St, first_parse_priority. unfold _try_iso at 1.
  rewrite iso_no_letter by assumption. cbn [or_else]. now rewrite T.
Qed.

Lemma month_day_year_is_recognised_witness :
  exists d y,
    int "31" = Returns d /\ int "2001" = Returns y
    /\ (d <> 0%Z -> y <> 0%Z ->
        _try_month_day_year
          (("Sept" : str) ++ (" " : str) ++ ("31" : str) ++ (["," ]%char : str)
           ++ ("  " : str) ++ ("2001" : str))
        = Some (_fmt_date y (Some 9%Z) (Some d))
        /\ normalize_date_string
             (("Sept" : str) ++ (" " : str) ++ ("31" : str)
              ++ ([","]%char : str) ++ ("  " : str) ++ ("2001" : str))
           = Returns (_fmt_date y (Some 9%Z) (Some d))).
Proof.
  apply (month_day_year_is_recognised "Sept" " " "31" [","%char] "  " "2001"
           9%Z);
    first [ discriminate | reflexivity | simpl; lia | now right ].
Defined.

(** ** A year alone *)

Lemma letter_digit (c : ascii) : is_digit c = true -> is_letter c = false.
Proof.
  intros H. destruct (is_letter c) eqn:E; [|reflexivity].
  apply letter_not_digit in E. congruence.
Qed.

(** Run a pattern on a text whose characters are known by their classes. *)
Ltac run_on_digits :=
  unfold re_match, ISO, YEAR_MONTH, MONTH_YEAR, YEAR_MONTHNAME, MONTH_DAY_YEAR,
    DAY_MONTH_YEAR, YEAR_ONLY, spaces, spaces1, digits, letters1,
    dash_or_slash, opt_comma;
  repeat progress
    (cbn [run greedy app andb may_take one_less option_map pred at_end];
     repeat match goal with
            | H : is_digit ?c = true |- context [is_digit ?c] => rewrite H
            | H : is_digit ?c = true |- context [is_space ?c] =>
                rewrite (digit_not_space c H)
            | H : is_digit ?c = true |- context [is_letter ?c] =>
                rewrite (letter_digit c H)
            end).

Lemma year_text_others (a b c e : ascii) :
  is_digit a = true -> is_digit b = true ->
  is_digit c = true -> is_digit e = true ->
  re_match ISO [a; b; c; e] = None
  /\ re_match MONTH_DAY_YEAR [a; b; c; e] = None
  /\ re_match DAY_MONTH_YEAR [a; b; c; e] = None
  /\ re_match YEAR_MONTH [a; b; c; e] = None
  /\ re_match MONTH_YEAR [a; b; c; e] = None
  /\ re_match YEAR_MONTHNAME [a; b; c; e] = None
  /\ re_match YEAR_ONLY [a; b; c; e] = Some [[a; b; c; e]].
Proof.
  intros Ha Hb Hc He.
  split; [run_on_digits; reflexivity|].
  split; [run_on_digits; reflexivity|].
  split; [run_on_digits; reflexivity|].
  split; [run_on_digits; reflexivity|].
  split; [run_on_digits; reflexivity|].
  split; [run_on_digits; reflexivity|].
  run_on_digits. reflexivity.
Qed.

Lemma zero_digit (c : ascii) :
  is_digit c = true -> digit_value c = 0%Z -> c = "0"%char.
Proof.
  intros H E. rewrite <- (digit_char_value c H), E. reflexivity.
Qed.

(** X21.  A year alone, four figures with whitespace or nothing around
    them, is normalised to the first of January of that year; the year
    0000 is refused and gives the empty text. *)
Theorem year_alone_is_recognised (Y w1 w2 : str) :
  all_digits Y -> length Y = 4 ->
  forallb is_space w1 = true -> forallb is_space w2 = true ->
  exists y,
    int Y = Returns y
    /\ normalize_date_string (w1 ++ Y ++ w2)
       = Returns (if (y =? 0)%Z then []
                  else _fmt_date y (Some 1%Z) (Some 1%Z)).
Proof.
  intros DY LY B1 B2.
  destruct (year_digits Y DY LY) as (a & b & c & e & -> & Ha & Hb & Hc & He).
  destruct (year_text_others a b c e Ha Hb Hc He)
    as (M1 & M2 & M3 & M4 & M5 & M6 & M7).
  pose proof (value4 a b c e) as V. cbn [forallb] in V.
  rewrite Ha, Hb, Hc, He in V. cbn [andb] in V.
  eexists. split; [exact V|].
  rewrite normalize_strip, strip_app_blank by assumption.
  assert (St : strip [a; b; c; e] = [a; b; c; e])
    by (apply strip_fixed; cbn [rev app]; now apply digit_not_space).
  rewrite St. unfold normalize_date_string. cbn [is_empty].
  rewrite St, first_parse_priority.
  unfold _try_iso, _try_month_day_year, _try_year_month, _try_year_only.
  rewrite M1, M2, M3, M4, M5, M6, M7. cbn [or_else group pred nth].
  unfold _safe_int. rewrite V, truthy_value.
  set (y := (1000 * digit_value a + 100 * digit_value b
             + 10 * digit_value c + digit_value e)%Z).
  destruct (Z.eqb_spec y 0) as [E | E]; [|reflexivity].
  pose proof (digit_value_range a Ha). pose proof (digit_value_range b Hb).
  pose proof (digit_value_range c Hc). pose proof (digit_value_range e He).
  rewrite (zero_digit a Ha), (zero_digit b Hb), (zero_digit c Hc),
    (zero_digit e He) by (unfold y in E; lia).
  reflexivity.
Qed.

Lemma year_alone_is_recognised_witness :
  exists y,
    int "1984" = Returns y
    /\ normalize_date_string ((" " : str) ++ ("1984" : str) ++ (newline :: []))
       = Returns (if (y =? 0)%Z then []
                  else _fmt_date y (Some 1%Z) (Some 1%Z)).
Proof.
  apply (year_alone_is_recognised "1984" " " [newline]); reflexivity.
Defined.

(** ** A year and a month in figures *)

Lemma digit_no_mark (c : ascii) :
  is_digit c = true ->
  is_char "-" c = false /\ is_char "/" c = false /\ is_char "," c = false.
Proof.
  intros H. repeat split;
    match goal with
    | |- is_char ?x c = false =>
        destruct (is_char x c) eqn:E; [|reflexivity];
        apply Ascii.eqb_eq in E; subst c; discriminate H
    end.
Qed.

Ltac is_ground_char y :=
  match y with
  | "-"%char => idtac
  | "/"%char => idtac
  end.

Ltac run_on_figures :=
  unfold re_match, ISO, YEAR_MONTH, MONTH_YEAR, YEAR_MONTHNAME, MONTH_DAY_YEAR,
    DAY_MONTH_YEAR, YEAR_ONLY, spaces, spaces1, digits, letters1,
    dash_or_slash, opt_comma;
  repeat progress
    (cbn [run greedy app andb orb may_take one_less option_map pred at_end
          length Nat.sub firstn];
     repeat match goal with
            | H : is_digit ?c = true |- context [is_digit ?c] => rewrite H
            | H : is_digit ?c = true |- context [is_space ?c] =>
                rewrite (digit_not_space c H)
            | H : is_digit ?c = true |- context [is_letter ?c] =>
                rewrite (letter_digit c H)
            | H : is_digit ?c = true |- context [is_char "-" ?c] =>
                rewrite (proj1 (digit_no_mark c H))
            | H : is_digit ?c = true |- context [is_char "/" ?c] =>
                rewrite (proj1 (proj2 (digit_no_mark c H)))
            | H : is_digit ?c = true |- context [is_char "," ?c] =>
                rewrite (proj2 (proj2 (digit_no_mark c H)))
            | |- context [is_digit "-"] => change (is_digit "-") with false
            | |- context [is_digit "/"] => change (is_digit "/") with false
            | |- context [is_space "-"] => change (is_space "-") with false
            | |- context [is_space "/"] => change (is_space "/") with false
            | |- context [is_letter "-"] => change (is_letter "-") with false
            | |- context [is_letter "/"] => change (is_letter "/") with false
            | |- context [is_char ?x ?y] =>
                is_ground_char y;
                let v := eval vm_compute in (is_char x y) in
                change (is_char x y) with v
            end).

Lemma year_month_text (a b c e s1 : ascii) (M : str) :
  is_digit a = true -> is_digit b = true ->
  is_digit c = true -> is_digit e = true ->
  (s1 = "-" \/ s1 = "/")%char ->
  all_digits M -> 1 <= length M <= 2 ->
  re_match ISO ([a; b; c; e] ++ s1 :: M) = None
  /\ re_match MONTH_DAY_YEAR ([a; b; c; e] ++ s1 :: M) = None
  /\ re_match DAY_MONTH_YEAR ([a; b; c; e] ++ s1 :: M) = None
  /\ re_match YEAR_MONTH ([a; b; c; e] ++ s1 :: M) = Some [[a; b; c; e]; M].
Proof.
  intros Ha Hb Hc He S1 DM LM.
  destruct (short_digits M DM LM) as [(f & -> & Hf) | (f & g & -> & Hf & Hg)];
    destruct S1 as [-> | ->];
    (split; [run_on_figures; reflexivity|]);
    (split; [run_on_figures; reflexivity|]);
    (split; [run_on_figures; reflexivity|]);
    run_on_figures; reflexivity.
Qed.

(** X22.  A year and a month in figures, four digits, a dash or a slash
    and one or two digits, are normalised to the first day of that month,
    the month clamped, whatever whitespace surrounds them, unless the year
    is 0. *)
Theorem year_month_is_recognised (Y M w1 w2 : str) (s1 : ascii) :
  all_digits Y -> length Y = 4 ->
  all_digits M -> 1 <= length M <= 2 ->
  (s1 = "-" \/ s1 = "/")%char ->
  forallb is_space w1 = true -> forallb is_space w2 = true ->
  exists y m,
    int Y = Returns y /\ int M = Returns m
    /\ (y <> 0%Z ->
        normalize_date_string (w1 ++ (Y ++ s1 :: M) ++ w2)
        = Returns (_fmt_date y (Some m) (Some 1%Z))).
Proof.
  intros DY LY DM LM S1 B1 B2.
  destruct (int_digits Y) as (y & Ey & Sy & _);
    [apply nonempty_length; lia | exact DY |].
  destruct (int_digits M) as (m & Em & Sm & _);
    [apply nonempty_length; lia | exact DM |].
  exists y, m. split; [exact Ey|]. split; [exact Em|]. intros Hy.
  destruct (year_digits Y DY LY) as (a & b & c & e & -> & Ha & Hb & Hc & He).
  destruct (year_month_text a b c e s1 M Ha Hb Hc He S1 DM LM)
    as (M1 & M2 & M3 & M4).
  assert (St : strip ([a; b; c; e] ++ s1 :: M) = [a; b; c; e] ++ s1 :: M).
  { destruct (short_digits M DM LM) as [(f & -> & Hf) | (f & g & -> & Hf & Hg)];
      apply strip_fixed; cbn [rev app]; now apply digit_not_space. }
  rewrite normalize_strip, strip_app_blank, St by assumption.
  unfold normalize_date_string. cbn [app is_empty].
  change (a :: b :: c :: e :: s1 :: M) with ([a; b; c; e] ++ s1 :: M).
  rewrite St, first_parse_priority.
  unfold _try_iso, _try_month_day_year, _try_year_month.
  rewrite M1, M2, M3, M4. cbn [or_else group pred nth].
  rewrite Sy, Sm, truthy_value. apply Z.eqb_neq in Hy. now rewrite Hy.
Qed.

Lemma year_month_is_recognised_witness :
  exists y m,
    int "2010" = Returns y /\ int "7" = Returns m
    /\ (y <> 0%Z ->
        normalize_date_string
          (("" : str) ++ (("2010" : str) ++ "/"%char :: ("7" : str))
           ++ (" " : str))
        = Returns (_fmt_date y (Some m) (Some 1%Z))).
Proof.
  apply (year_month_is_recognised "2010" "7" "" " " "/");
    first [ reflexivity | simpl; lia | now right ].
Defined.
